(** * Build-orchestration tasks of conan-tesseract: a shallow embedding

    The two task modules, [tasks/conan.py] and [tasks/__init__.py], drive an
    external package manager, a native build generator and an HTTP
    credential service.  Every call into one of these is recorded as an
    [event]; a task is a computation in a small state-and-exception monad
    over a [world] made of the package manager's remote registry, the
    temporary directories that are alive, and the log of calls made so far.
    What the outside world answers (which call raises, what the user types,
    what a file holds) is gathered in an [env] record, over which the
    theorems quantify. *)

From Stdlib Require Import String Ascii List Bool Arith NArith Lia DecimalString.
From stdpp Require Import base option list gmap strings.
Import ListNotations.
Local Open Scope string_scope.
Local Open Scope list_scope.

(** ** Constants of [tasks/conan.py] *)

Definition DL_ARTIFACTORY : string := "http://artifactory.dlogics.com:8081/artifactory".
Definition PROFILE_URL : string := DL_ARTIFACTORY +:+ "/webapp/#/profile".
Definition UPLOAD_REMOTE : string := "conan-local".
Definition UPLOAD_DEPENDENCIES_REMOTE : string := "conan-ext".
Definition REDIRECT_REMOTE : string := "conan-redirect".
Definition STABLE_BRANCH_PATTERN : string := "dl/stable/.*".
Definition STABLE_USERNAME : string := "datalogics".

Definition NL : string := String (ascii_of_nat 10) EmptyString.

Definition PASSWORD_MESSAGE : string :=
  "Your encrypted password is required to log you in to Artifactory." +:+ NL +:+
  NL +:+
  "To get your encrypted password, go to:" +:+ NL +:+
  NL +:+
  PROFILE_URL +:+ NL +:+
  NL +:+
  "Enter your password to unlock the page, then click the copy button next to" +:+ NL +:+
  "Encrypted Password.".

Inductive platform : Type := Linux | Win32 | Darwin.

(** [multi_default]: True on win32 (Visual Studio), False elsewhere. *)
Definition multi_default (p : platform) : bool :=
  match p with Win32 => true | _ => false end.

(** The canonical remotes, an [OrderedDict]: the order of the pairs is the
    priority order. *)
Definition remotes : list (string * string) :=
  [ ("conan-redirect", DL_ARTIFACTORY +:+ "/api/conan/conan-redirect");
    ("conan-ext", DL_ARTIFACTORY +:+ "/api/conan/conan-ext");
    ("conan-local", DL_ARTIFACTORY +:+ "/api/conan/conan-local");
    ("conan-center", "https://conan.bintray.com");
    ("bincrafters", "https://api.bintray.com/conan/bincrafters/public-conan") ].

(** [remotes[name]]: the lookup of an ordered dictionary by key. *)
Fixpoint assoc (k : string) (d : list (string * string)) : option string :=
  match d with
  | [] => None
  | (k', v) :: d' => if String.eqb k k' then Some v else assoc k d'
  end.

(** ** Python string operations used by the tasks *)

(** [s.startswith(p)], on names and URLs. *)
Definition startswith (s p : string) : bool := String.prefix p s.

(** ** Text read from a file

    The cache file is opened as text, and [str.strip()] goes by Unicode white
    space, not by the ASCII one alone.  So the lines of the file are kept as
    Python has them: sequences of code points. *)

Definition text : Type := list N.

(** A literal of the source; all of them are ASCII. *)
Definition text_of (s : string) : text := map N_of_ascii (list_ascii_of_string s).

(** [c.isspace()]: the code points that [str.strip()] removes.  They are
    U+0009 to U+000D, U+001C to U+0020, U+0085, U+00A0, U+1680, U+2000 to
    U+200A, U+2028, U+2029, U+202F, U+205F and U+3000. *)
Definition py_space (c : N) : bool :=
  (((0x9 <=? c) && (c <=? 0xd)) || ((0x1c <=? c) && (c <=? 0x20)) ||
   (c =? 0x85) || (c =? 0xa0) || (c =? 0x1680) ||
   ((0x2000 <=? c) && (c <=? 0x200a)) ||
   (c =? 0x2028) || (c =? 0x2029) || (c =? 0x202f) || (c =? 0x205f) || (c =? 0x3000))%N.

Fixpoint lstrip (s : text) : text :=
  match s with
  | [] => []
  | c :: s' => if py_space c then lstrip s' else s
  end.

Definition rstrip (s : text) : text := rev (lstrip (rev s)).

(** [s.strip()] *)
Definition strip (s : text) : text := rstrip (lstrip s).

Fixpoint text_prefix (p s : text) : bool :=
  match p with
  | [] => true
  | a :: p' =>
      match s with
      | [] => false
      | b :: s' => (a =? b)%N && text_prefix p' s'
      end
  end.

(** [s.startswith(p)], on text. *)
Definition text_startswith (s p : text) : bool := text_prefix p s.

(** [s.split(sep)] for a one-character separator: the pieces between the
    separators, always at least one piece. *)
Fixpoint split_go (sep : N) (cur : text) (s : text) : list text :=
  match s with
  | [] => [rev cur]
  | c :: s' =>
      if (c =? sep)%N then rev cur :: split_go sep [] s'
      else split_go sep (c :: cur) s'
  end.

Definition split (sep : N) (s : text) : list text := split_go sep [] s.

(** [needle in s]: substring membership. *)
Fixpoint contains (needle s : text) : bool :=
  text_prefix needle s ||
  match s with
  | [] => false
  | _ :: s' => contains needle s'
  end.

(** The character [=]. *)
Definition EQUALS : N := N_of_ascii "="%char.

(** ** Regular expressions, as far as [re.compile] and [Pattern.match] go

    [prog.match(s)] succeeds when some prefix of [s] is matched by the
    pattern.  The matcher below is a backtracking matcher in
    continuation-passing style; [.] matches any character but a newline. *)

Inductive regex : Type :=
| RChar (c : ascii)
| RDot
| RStar (r : regex)
| RSeq (r1 r2 : regex)
| REps.

(** One step of a starred item that is a single character class: the only
    form of star the parser below produces. *)
Definition atom_accepts (r : regex) (c : ascii) : bool :=
  match r with
  | RChar a => Ascii.eqb a c
  | RDot => negb (Ascii.eqb c (ascii_of_nat 10))
  | _ => false
  end.

(** Greedy star over a one-character atom with backtracking: try the longest
    run first, then shorter ones. *)
Fixpoint star_atom (r : regex) (k : string -> bool) (s : string) : bool :=
  match s with
  | EmptyString => k s
  | String c s' => (atom_accepts r c && star_atom r k s') || k s
  end.

Fixpoint re_run (r : regex) (k : string -> bool) (s : string) : bool :=
  match r with
  | REps => k s
  | RChar _ | RDot =>
      match s with
      | EmptyString => false
      | String c s' => atom_accepts r c && k s'
      end
  | RStar a => star_atom a k s
  | RSeq r1 r2 => re_run r1 (re_run r2 k) s
  end.

(** [re.compile] for patterns made of literal characters, [.] and a postfix
    [*] on the preceding item. *)
Fixpoint re_compile (p : string) : regex :=
  match p with
  | EmptyString => REps
  | String c p' =>
      let item := if Ascii.eqb c "."%char then RDot else RChar c in
      match p' with
      | String "*"%char p'' => RSeq (RStar item) (re_compile p'')
      | _ => RSeq item (re_compile p')
      end
  end.

(** [prog.match(s)], as a truth value: it anchors at the start only. *)
Definition re_match (prog : regex) (s : string) : bool := re_run prog (fun _ => true) s.

(** ** [package_username]

    [ci_branch] is what [CIManager.get_branch()] answers ([None] when there
    is no branch), [os_user] what [getpass.getuser()] answers. *)
Definition package_username (ci_branch : option string) (os_user : string) : string :=
  let branch := ci_branch in
  let prog := re_compile STABLE_BRANCH_PATTERN in
  match branch with
  | Some b =>
      if negb (String.eqb b "") && re_match prog b then STABLE_USERNAME
      else os_user
  | None => os_user
  end.

(** ** Calls into the outside world *)

(** A path is a literal, a temporary directory (known by the number under
    which it was created), or [os.path.join] of a path and a name. *)
Inductive path : Type :=
| PStr (s : string)
| PTmp (d : nat)
| PJoin (p : path) (name : string).

(** One entry per side-effecting call the tasks make, with the arguments the
    source passes. *)
Inductive event : Type :=
| EInfo (msg : string)
| EWarn (msg : string)
| EHighlight (msg : string)
| ERemoteRename (old new : string)
| ERemoteAdd (name url : string) (insert : option nat) (force : bool)
| ERemoteRemove (name : string)
| ERemoteRemoveRef (ref : string)
| ERemoteUpdateRef (ref remote : string)
| EInput (prompt : string)
| EGetPass (prompt : string)
| EHttpGet (url user password : string)
| EAuthenticate (user token : option string) (remote : string)
| ECopy (ref user_channel : string) (force packages : bool)
| EUpload (ref remote : string) (confirm force all_packages : bool)
| ERemove (ref : string) (force : bool)
| EExportAlias (ref target : string)
| EInstall (settings options : list string) (env_vars : list (string * string))
    (build : list string) (profile_name : option string) (install_folder : path)
| EInstallReference (reference : string) (settings options : list string)
    (env_vars : list (string * string)) (build : list string)
    (profile_name : option string) (install_folder : path)
| EInstallBuildTools
| EGraphInfo
| EOpen (file : string)
| EMkdtemp (d : nat)
| ECleanup (d : nat)
| ECopyTree (src : string) (dst : path)
| EChmod (p : path)
| EEnvAppend (vars : list (string * path))
| EEnvRestore (vars : list (string * path))
| ESetEnv (name value : string)
| EOpenKey
| ECloseKey
| EQueryValueEx (value_name : string)
| EAddCommonBuilds
| EBuilderRun (base_profile_name : option string)
| ERun (prefixes : list string) (command : string).

Inductive exn : Type :=
| ConanException (msg : string)
| HTTPError (status : nat)
| FileNotFoundError
| TypeError
| OtherError (msg : string).

Inductive result (A : Type) : Type :=
| Ok (a : A)
| Raise (e : exn).
Arguments Ok {A} a.
Arguments Raise {A} e.

(** A resolved dependency: the fields of the [ConanFile] the tasks read.
    [dep_alias] is [Some] exactly when the object has an [alias]
    attribute. *)
Record dependency : Type := {
  dep_name : string;
  dep_version : string;
  dep_user : string;
  dep_channel : string;
  dep_alias : option string
}.

(** An item of [builder.items]. *)
Record build_item : Type := {
  bi_settings : list (string * string);
  bi_options : list (string * string);
  bi_env_vars : list (string * string);
  bi_build_requires : list string;
  bi_reference : string
}.

(** What reading a text file line by line gives: the lines read, and the
    exception, if there is one, that ends the reading before the end of the
    file (bytes that cannot be decoded, an input error). *)
Record text_file : Type := {
  tf_lines : list text;
  tf_error : option exn
}.

(** What the outside world answers.  [env_fails] says, from the calls made
    so far, whether the next call raises and what. *)
Record env : Type := {
  env_platform : platform;
  env_fails : list event -> event -> option exn;
  env_os_user : string;
  env_input : string;
  env_password : string;
  env_http : string -> string -> nat * string;
  env_get_login : string -> option string * option string;
  env_long_paths : nat;
  env_user_home : string;
  env_remote_refs : list event -> list (string * string);
  env_dependencies : list dependency;
  env_builder_items : list build_item;
  env_deps_env_info : option (list (string * string));
  env_cmake_cache : option text_file;
  env_exists : string -> bool;
  env_abspath : string -> string;
  env_cpu_count : nat
}.

(** The state the tasks act on: the remote registry of the package manager
    in priority order (name, URL), the temporary directories that exist, the
    next fresh directory number, and the log of calls. *)
Record world : Type := {
  w_remotes : list (string * string);
  w_live : list nat;
  w_next : nat;
  w_log : list event
}.

Definition M (A : Type) : Type := world -> result A * world.

Definition ret {A} (a : A) : M A := fun w => (Ok a, w).

Definition raise {A} (e : exn) : M A := fun w => (Raise e, w).

Definition bind {A B} (m : M A) (f : A -> M B) : M B :=
  fun w =>
    match m w with
    | (Ok a, w') => f a w'
    | (Raise e, w') => (Raise e, w')
    end.

Declare Scope task_scope.
Delimit Scope task_scope with task.
Notation "x <- m ;; k" := (bind m (fun x => k))
  (at level 100, m at next level, right associativity) : task_scope.
Notation "m ;;; k" := (bind m (fun _ => k))
  (at level 100, right associativity) : task_scope.
Local Open Scope task_scope.

(** [try: m except exc: h]: the handler runs for the exceptions [catches]
    accepts, from the state the failing body left. *)
Definition try_except {A} (m : M A) (catches : exn -> bool) (h : M A) : M A :=
  fun w =>
    match m w with
    | (Ok a, w') => (Ok a, w')
    | (Raise e, w') => if catches e then h w' else (Raise e, w')
    end.

(** [for x in xs: body x]; an exception leaves the loop. *)
Fixpoint for_each {A} (xs : list A) (body : A -> M unit) : M unit :=
  match xs with
  | [] => ret tt
  | x :: xs' => body x ;;; for_each xs' body
  end.

(** A loop that carries local variables [S] from one round to the next. *)
Fixpoint for_fold {A S} (xs : list A) (body : S -> A -> M S) (s : S) : M S :=
  match xs with
  | [] => ret s
  | x :: xs' => s' <- body s x ;; for_fold xs' body s'
  end.

Definition log_event (e : event) (w : world) : world :=
  {| w_remotes := w_remotes w; w_live := w_live w; w_next := w_next w;
     w_log := w_log w ++ [e] |}.

Definition set_remotes (r : list (string * string)) (w : world) : world :=
  {| w_remotes := r; w_live := w_live w; w_next := w_next w; w_log := w_log w |}.

(** ** The remote registry of the package manager

    The registry is the package manager's, not this repository's.  What is
    recorded here is the behaviour of its remote commands that the tasks
    rely on: names are unique, and so are URLs; a forced add replaces the
    remote of that name and any remote of that URL; a plain add refuses a
    name or a URL that is taken; a rename refuses a missing source, and
    nothing else; a remove refuses a missing name.  [list.insert(i, x)] puts
    [x] at the end when [i] is past it. *)

Definition remote_names (reg : list (string * string)) : list string := map fst reg.
Definition remote_urls (reg : list (string * string)) : list string := map snd reg.

Definition mem (x : string) (l : list string) : bool := existsb (String.eqb x) l.

Definition list_insert_at {A} (i : nat) (x : A) (l : list A) : list A :=
  firstn i l ++ x :: skipn i l.

Definition reg_add (name url : string) (insert : option nat) (force : bool)
    (reg : list (string * string)) : result (list (string * string)) :=
  if force then
    let kept := List.filter (fun r => negb (String.eqb (fst r) name) && negb (String.eqb (snd r) url)) reg in
    match insert with
    | Some i => Ok (list_insert_at i (name, url) kept)
    | None => Ok (kept ++ [(name, url)])
    end
  else if mem name (remote_names reg) then
    Raise (ConanException "remote already exists in remotes (use update to modify)")
  else if mem url (remote_urls reg) then
    Raise (ConanException "remote already exists with same URL")
  else
    match insert with
    | Some i => Ok (list_insert_at i (name, url) reg)
    | None => Ok (reg ++ [(name, url)])
    end.

(** [d[k] = v] on an ordered dictionary: a key that is there keeps its
    place. *)
Fixpoint od_set (k v : string) (d : list (string * string)) : list (string * string) :=
  match d with
  | [] => [(k, v)]
  | (k', v') :: d' => if String.eqb k' k then (k, v) :: d' else (k', v') :: od_set k v d'
  end.

(** A rename builds the ordered dictionary anew, each remote under its
    name but [old] under [new].  It does not look whether [new] is taken:
    when it is, the two remotes end up as one, by the rules of the
    dictionary. *)
Definition reg_rename (old new : string) (reg : list (string * string))
    : result (list (string * string)) :=
  if negb (mem old (remote_names reg)) then
    Raise (ConanException "remote not found in remotes")
  else
    Ok (fold_left
          (fun new_remotes r =>
             od_set (if String.eqb (fst r) old then new else fst r) (snd r) new_remotes)
          reg []).

Definition reg_remove (name : string) (reg : list (string * string))
    : result (list (string * string)) :=
  if negb (mem name (remote_names reg)) then
    Raise (ConanException "remote not found in remotes")
  else
    Ok (List.filter (fun r => negb (String.eqb (fst r) name)) reg).

(** ** The tasks of [tasks/conan.py] *)

Section Tasks.

Variable E : env.

(** A call into the outside world: it is logged, and raises when the world
    says so. *)
Definition call (e : event) : M unit :=
  fun w =>
    match env_fails E (w_log w) e with
    | Some x => (Raise x, log_event e w)
    | None => (Ok tt, log_event e w)
    end.

(** A remote command of the package manager: a call that also updates the
    registry, or raises what the registry refuses. *)
Definition registry_call (e : event)
    (op : list (string * string) -> result (list (string * string))) : M unit :=
  call e ;;;
  fun w =>
    match op (w_remotes w) with
    | Ok r => (Ok tt, set_remotes r w)
    | Raise x => (Raise x, w)
    end.

Definition remote_list : M (list (string * string)) := fun w => (Ok (w_remotes w), w).

Definition remote_rename (old new : string) : M unit :=
  registry_call (ERemoteRename old new) (reg_rename old new).

Definition remote_add (name url : string) (insert : option nat) (force : bool) : M unit :=
  registry_call (ERemoteAdd name url insert force) (reg_add name url insert force).

Definition remote_remove (name : string) : M unit :=
  registry_call (ERemoteRemove name) (reg_remove name).

(** [conan_api.remote_list_ref()]: a dictionary from reference to remote
    name. *)
Definition remote_list_ref : M (list (string * string)) :=
  fun w => (Ok (env_remote_refs E (w_log w)), w).

(** [d[k]] on the canonical table; a missing key is a [KeyError]. *)
Definition getitem (d : list (string * string)) (k : string) : M string :=
  match assoc k d with
  | Some v => ret v
  | None => raise (OtherError "KeyError")
  end.

(** [with m: body], for a context manager whose exit does nothing that can
    fail (the closing of a registry key): [cleanup] runs however [body]
    ends, and the outcome is the one of [body]. *)
Definition finally {A} (body : M A) (cleanup : world -> world) : M A :=
  fun w => let '(r, w') := body w in (r, cleanup w').

(** [with m: body], for a context manager whose exit is itself a call into
    the outside world: [exit] runs however [body] ends, and when [exit]
    raises, its exception is the outcome of the block, also when [body] had
    raised. *)
Definition with_exit {A} (body : M A) (exit : M unit) : M A :=
  fun w =>
    let '(r, w1) := body w in
    match exit w1 with
    | (Ok _, w2) => (r, w2)
    | (Raise x, w2) => (Raise x, w2)
    end.

Definition add_tmp (d : nat) (w : world) : world :=
  {| w_remotes := w_remotes w; w_live := d :: w_live w; w_next := S (w_next w);
     w_log := w_log w |}.

(** The world after directory [d] has been removed. *)
Definition del_tmp (d : nat) (w : world) : world :=
  {| w_remotes := w_remotes w; w_live := List.filter (fun x => negb (Nat.eqb x d)) (w_live w);
     w_next := w_next w; w_log := w_log w ++ [ECleanup d] |}.

(** [TemporaryDirectory.cleanup()]: the removal of the directory is a call
    like any other; when it raises, the directory is still there. *)
Definition cleanup (d : nat) : M unit :=
  fun w =>
    match env_fails E (w_log w) (ECleanup d) with
    | Some x => (Raise x, log_event (ECleanup d) w)
    | None => (Ok tt, del_tmp d w)
    end.

(** [with tempfile.TemporaryDirectory() as tmpdir: body tmpdir] *)
Definition with_tempdir {A} (body : path -> M A) : M A :=
  fun w =>
    let d := w_next w in
    (call (EMkdtemp d) ;;;
     fun w1 => with_exit (body (PTmp d)) (cleanup d) (add_tmp d w1)) w.

(** [with tools.environment_append(vars): body] *)
Definition with_environment {A} (vars : list (string * path)) (body : M A) : M A :=
  call (EEnvAppend vars) ;;;
  with_exit body (call (EEnvRestore vars)).

(** [get_remotes]: the dictionary from URL to name of the configured
    remotes; a later remote of the same URL overwrites an earlier one. *)
Definition get_remotes (reg : list (string * string)) : gmap string string :=
  fold_left (fun urls remote => <[snd remote := fst remote]> urls) reg ∅.

(** One round of the loop of [setup_remotes]; the loop variable carried
    along is [insert_loc]. *)
Definition setup_remotes_round (urls : gmap string string) (insert_loc : nat)
    (item : string * string) : M nat :=
  let '(remote, url) := item in
  match urls !! url with
  | Some old_remote =>
      if negb (String.eqb old_remote remote) then
        call (EInfo ("renaming " +:+ old_remote +:+ " to " +:+ remote)) ;;;
        remote_rename old_remote remote
      else ret tt
  | None => ret tt
  end ;;;
  call (EInfo ("adding remote " +:+ remote +:+ " as " +:+ url)) ;;;
  remote_add remote url (Some insert_loc) true ;;;
  ret (insert_loc + 1).

Definition setup_remotes : M unit :=
  reg <- remote_list ;;
  let urls := get_remotes reg in
  _ <- for_fold remotes (setup_remotes_round urls) 0 ;;
  ret tt.

(** [r.raise_for_status()] *)
Definition raise_for_status (status : nat) : M unit :=
  if (400 <=? status)%nat && (status <? 600)%nat then raise (HTTPError status) else ret tt.

(** One round of the loop of [login]; the variables carried along are
    [token] and [username]. *)
Definition login_round (st : option string * option string) (remote : string * string)
    : M (option string * option string) :=
  let '(token, username) := st in
  let '(remote_name, remote_url) := remote in
  if negb (startswith remote_url DL_ARTIFACTORY) then ret st
  else
    let '(name, old_token) := env_get_login E remote_url in
    match old_token with
    | Some _ => ret st
    | None =>
        st' <- match token with
               | None =>
                   call (EHighlight PASSWORD_MESSAGE) ;;;
                   username' <- match username with
                                | None =>
                                    let default_username := env_os_user E in
                                    call (EInput ("Enter your Artifactory username [" +:+
                                                  default_username +:+ "]: ")) ;;;
                                    ret (if String.eqb (env_input E) "" then default_username
                                         else env_input E)
                                | Some u => ret u
                                end ;;
                   let password := env_password E in
                   call (EGetPass ("Enter encrypted password for " +:+ username' +:+ " on " +:+
                                   DL_ARTIFACTORY +:+ ": ")) ;;;
                   call (EHttpGet (DL_ARTIFACTORY +:+ "/api/security/encryptedPassword")
                           username' password) ;;;
                   let r := env_http E username' password in
                   raise_for_status (fst r) ;;;
                   ret (Some (snd r), Some username')
               | Some _ => ret st
               end ;;
        call (EAuthenticate (snd st') (fst st') remote_name) ;;;
        ret st'
    end.

(** The body of [login]; the task runner runs [setup_remotes] before it. *)
Definition login (username : option string) : M unit :=
  reg <- remote_list ;;
  _ <- for_fold reg login_round (None, username) ;;
  ret tt.

Definition login_task (username : option string) : M unit :=
  setup_remotes ;;; login username.

(** [open(file)] for reading: raises when the file is missing. *)
Definition open_file {A} (file : string) (contents : option A) : M A :=
  call (EOpen file) ;;;
  match contents with
  | Some c => ret c
  | None => raise FileNotFoundError
  end.

Definition tools_deps_env_info : M (list (string * string)) :=
  call EInstallBuildTools ;;;
  conanbuildinfo <- open_file "build_tools/build/conanbuildinfo.json" (env_deps_env_info E) ;;
  ret conanbuildinfo.

(** [options_list]: each item of the dictionary as [key=value]. *)
Definition options_list (d : list (string * string)) : list string :=
  map (fun kv => fst kv +:+ "=" +:+ snd kv) d.

Definition base_profile : option string :=
  match env_platform E with
  | Linux => Some "devtoolset-7"
  | _ => None
  end.

(** [get_builder] builds the packager object from its arguments; its upload
    target is read from the canonical table. *)
Definition get_builder (force_upload : bool) (username : string) : M unit :=
  _ <- getitem remotes UPLOAD_REMOTE ;; ret tt.

Definition package (username : string) (force_upload : bool) : M unit :=
  call (ESetEnv "CONAN_PIP_USE_SUDO" "False") ;;;
  call (ESetEnv "CONAN_NON_INTERACTIVE" "True") ;;;
  get_builder force_upload username ;;;
  call EAddCommonBuilds ;;;
  let base_profile_name := base_profile in
  info <- tools_deps_env_info ;;
  with_environment (map (fun kv => (fst kv, PStr (snd kv))) info)
    (let leptonica := "leptonica/1.76.0@bincrafters/stable" in
     for_each (env_builder_items E) (fun item =>
       with_tempdir (fun tmpdir =>
         call (EInstallReference leptonica
                 (options_list (bi_settings item))
                 (options_list (bi_options item))
                 (bi_env_vars item)
                 ["leptonica"; "missing"]
                 base_profile_name
                 tmpdir))) ;;;
     call (EBuilderRun base_profile_name)).

Definition remove_remote_refs : M unit :=
  refs <- remote_list_ref ;;
  for_each (map fst refs) (fun ref => call (ERemoteRemoveRef ref)).

Definition is_FileNotFoundError (x : exn) : bool :=
  match x with FileNotFoundError => true | _ => false end.

(** [check_long_paths]: only on win32.  [False] and a value of 0 are both
    falsy. *)
Definition check_long_paths : M unit :=
  match env_platform E with
  | Win32 =>
      call EOpenKey ;;;
      finally
        (long_paths_enabled <-
           try_except
             (call (EQueryValueEx "LongPathsEnabled") ;;; ret (env_long_paths E))
             is_FileNotFoundError
             (ret 0) ;;
         if Nat.eqb long_paths_enabled 0 then
           call (EWarn "It is strongly recommended to enable long paths in Windows") ;;;
           call (EWarn "See the LongPathsEnabled.reg file in the tasks directory")
         else ret tt)
        (log_event ECloseKey)
  | _ => ret tt
  end.

(** [temporary_user_home_api], a generator-based context manager: [body] is
    what runs at its [yield], inside both of its [with] blocks. *)
Definition temporary_user_home_api {A} (body : M A) : M A :=
  let original_user_home := env_abspath E (env_user_home E) in
  with_tempdir (fun tmpdir =>
    let new_user_home := PJoin tmpdir ".conan" in
    call (ECopyTree original_user_home new_user_home) ;;;
    call (EChmod new_user_home) ;;;
    with_environment [("CONAN_USER_HOME", tmpdir); ("CONAN_USER_HOME_SHORT", PStr "None")]
      (check_long_paths ;;;
       remove_remote_refs ;;;
       body)).

(** [dependencies]: the nodes of the dependency graph but the root. *)
Definition dependencies : M (list dependency) :=
  call EGraphInfo ;;;
  ret (env_dependencies E).

Definition stable_non_local_dependencies : M (list dependency) :=
  deps <- dependencies ;;
  ret (List.filter (fun dependency =>
         if String.eqb (dep_user dependency) "datalogics"
            || String.eqb (dep_user dependency) (env_os_user E) then false
         else if negb (String.eqb (dep_channel dependency) "stable") then false
         else true) deps).

(** [repr(conanfile)]: the reference, [name/version@user/channel]. *)
Definition reference (name version user channel : string) : string :=
  name +:+ "/" +:+ version +:+ "@" +:+ user +:+ "/" +:+ channel.

Definition repr (c : dependency) : string :=
  reference (dep_name c) (dep_version c) (dep_user c) (dep_channel c).

(** The body of the loop of [upload_dependencies_internal]. *)
Definition upload_dependency (remote_refs : list (string * string)) (conanfile : dependency)
    : M unit :=
  match dep_alias conanfile with
  | Some _ => ret tt
  | None =>
      let ref := repr conanfile in
      let dl_ref := reference (dep_name conanfile) (dep_version conanfile) STABLE_USERNAME
                      (dep_channel conanfile) in
      call (ECopy ref (STABLE_USERNAME +:+ "/" +:+ dep_channel conanfile) true true) ;;;
      call (EUpload dl_ref UPLOAD_DEPENDENCIES_REMOTE true true true) ;;;
      (if mem ref (map fst remote_refs) then call (ERemoteUpdateRef ref REDIRECT_REMOTE)
       else ret tt) ;;;
      call (ERemove ref true) ;;;
      call (EExportAlias ref dl_ref) ;;;
      call (EUpload ref REDIRECT_REMOTE true false false)
  end.

Definition upload_dependencies_internal : M unit :=
  remote_refs <- remote_list_ref ;;
  deps <- stable_non_local_dependencies ;;
  for_each deps (upload_dependency remote_refs).

(** The body of the task [upload_dependencies]; the task runner runs
    [login] and [install] before it. *)
Definition upload_dependencies : M unit := upload_dependencies_internal.

(** [conan_redirect_removed], a generator-based context manager with no
    [try] around its [yield]: what follows [body] runs only when [body]
    returns. *)
Definition conan_redirect_removed {A} (body : M A) : M A :=
  reg <- remote_list ;;
  (if mem REDIRECT_REMOTE (remote_names reg) then remote_remove REDIRECT_REMOTE
   else ret tt) ;;;
  r <- body ;;
  url <- getitem remotes REDIRECT_REMOTE ;;
  remote_add REDIRECT_REMOTE url None false ;;;
  ret r.

Definition install_all_configurations : M unit :=
  get_builder false (env_os_user E) ;;;
  call EAddCommonBuilds ;;;
  let base_profile_name := base_profile in
  conan_redirect_removed
    (for_each (env_builder_items E) (fun item =>
       with_tempdir (fun tmpdir =>
         call (EInstall
                 (options_list (bi_settings item))
                 (options_list (bi_options item))
                 (bi_env_vars item)
                 ["missing"]
                 base_profile_name
                 tmpdir)))).

(** The body of the task [copy_dependencies]; the task runner runs [login]
    before it. *)
Definition copy_dependencies : M unit :=
  temporary_user_home_api
    (install_all_configurations ;;;
     upload_dependencies_internal).

(** ** The tasks of [tasks/__init__.py] *)

Definition os_path_join (a b : string) : string :=
  match env_platform E with
  | Win32 => a +:+ "\" +:+ b
  | _ => a +:+ "/" +:+ b
  end.

Definition activate_command : string :=
  match env_platform E with
  | Win32 => env_abspath E "build/activate.bat"
  | _ => "source " +:+ env_abspath E "build/activate.sh"
  end.

(** The loop of [cmake_generator] over the lines of the cache file; [error]
    is what the reading raises after the last of these lines, if
    anything. *)
Fixpoint cmake_generator_lines (cache : list text) (error : option exn)
    : M (option text) :=
  match cache with
  | [] =>
      match error with
      | Some x => raise x
      | None => ret None
      end
  | line :: cache' =>
      let line := strip line in
      if text_startswith line (text_of "CMAKE_GENERATOR:INTERNAL=") then
        match nth_error (split EQUALS line) 1 with
        | Some g => ret (Some g)
        | None => raise (OtherError "IndexError")
        end
      else cmake_generator_lines cache' error
  end.

Definition cmake_generator : M (option text) :=
  cache <- open_file (os_path_join "build" "CMakeCache.txt") (env_cmake_cache E) ;;
  cmake_generator_lines (tf_lines cache) (tf_error cache).

Definition string_of_nat (n : nat) : string := NilEmpty.string_of_uint (Nat.to_uint n).

(** [config or 'Debug'] *)
Definition config_or_debug (config : option string) : string :=
  match config with
  | Some c => if String.eqb c "" then "Debug" else c
  | None => "Debug"
  end.

Definition build (config : option string) (parallel : bool) : M unit :=
  let options := " --build build" in
  let build_system_options := "" in
  build_system_options <-
    (if parallel then
       generator <- cmake_generator ;;
       match generator with
       | None => raise TypeError
       | Some generator =>
           if contains (text_of "Makefiles") generator
              && negb (contains (text_of "NMake") generator) then
             ret (build_system_options +:+ " -- -j" +:+ string_of_nat (env_cpu_count E))
           else if contains (text_of "Visual Studio") generator then
             ret (build_system_options +:+ " -- /m:" +:+ string_of_nat (env_cpu_count E))
           else ret build_system_options
       end
     else ret build_system_options) ;;
  let options :=
    if env_exists E (os_path_join "build" "conanbuildinfo_multi.cmake")
    then options +:+ " --config " +:+ config_or_debug config
    else options in
  call (ERun [activate_command] ("cmake" +:+ options +:+ build_system_options)).

End Tasks.

(** ** Sample worlds, used to run the tasks on concrete inputs *)

Definition empty_world (reg : list (string * string)) : world :=
  {| w_remotes := reg; w_live := []; w_next := 0; w_log := [] |}.

Definition zlib_stable : dependency :=
  {| dep_name := "zlib"; dep_version := "1.2.11"; dep_user := "conan";
     dep_channel := "stable"; dep_alias := None |}.

Definition zlib_alias : dependency :=
  {| dep_name := "zlib"; dep_version := "latest"; dep_user := "conan";
     dep_channel := "stable"; dep_alias := Some "zlib/1.2.11@conan/stable" |}.

Definition release_x86_64 : build_item :=
  {| bi_settings := [("arch", "x86_64"); ("build_type", "Release")];
     bi_options := [("tesseract:shared", "False")];
     bi_env_vars := []; bi_build_requires := []; bi_reference := "tesseract/3.05.01@kam/testing" |}.

(** A text file that is read to its end. *)
Definition lines_of (lines : list string) : text_file :=
  {| tf_lines := map text_of lines; tf_error := None |}.

(** A world in which nothing fails: a Linux machine of user [kam], no cached
    login, one dependency and one build configuration. *)
Definition quiet_env : env :=
  {| env_platform := Linux;
     env_fails := fun _ _ => None;
     env_os_user := "kam";
     env_input := "";
     env_password := "secret";
     env_http := fun _ _ => (200, "AKCp5");
     env_get_login := fun _ => (None, None);
     env_long_paths := 1;
     env_user_home := "~/.conan";
     env_remote_refs := fun _ => [("zlib/1.2.11@conan/stable", "conan-center")];
     env_dependencies := [zlib_stable];
     env_builder_items := [release_x86_64];
     env_deps_env_info := Some [("PATH", "/opt/tools/bin")];
     env_cmake_cache := Some (lines_of ["# This is the CMakeCache file." +:+ NL;
                                        "CMAKE_GENERATOR:INTERNAL=Unix Makefiles" +:+ NL]);
     env_exists := fun _ => false;
     env_abspath := fun s => "/home/kam/tesseract/" +:+ s;
     env_cpu_count := 8 |}.

Definition with_platform (p : platform) (E : env) : env :=
  {| env_platform := p; env_fails := env_fails E; env_os_user := env_os_user E;
     env_input := env_input E; env_password := env_password E; env_http := env_http E;
     env_get_login := env_get_login E; env_long_paths := env_long_paths E;
     env_user_home := env_user_home E; env_remote_refs := env_remote_refs E;
     env_dependencies := env_dependencies E; env_builder_items := env_builder_items E;
     env_deps_env_info := env_deps_env_info E; env_cmake_cache := env_cmake_cache E;
     env_exists := env_exists E; env_abspath := env_abspath E;
     env_cpu_count := env_cpu_count E |}.

Definition with_fails (f : list event -> event -> option exn) (E : env) : env :=
  {| env_platform := env_platform E; env_fails := f; env_os_user := env_os_user E;
     env_input := env_input E; env_password := env_password E; env_http := env_http E;
     env_get_login := env_get_login E; env_long_paths := env_long_paths E;
     env_user_home := env_user_home E; env_remote_refs := env_remote_refs E;
     env_dependencies := env_dependencies E; env_builder_items := env_builder_items E;
     env_deps_env_info := env_deps_env_info E; env_cmake_cache := env_cmake_cache E;
     env_exists := env_exists E; env_abspath := env_abspath E;
     env_cpu_count := env_cpu_count E |}.

Definition with_http (h : string -> string -> nat * string) (E : env) : env :=
  {| env_platform := env_platform E; env_fails := env_fails E; env_os_user := env_os_user E;
     env_input := env_input E; env_password := env_password E; env_http := h;
     env_get_login := env_get_login E; env_long_paths := env_long_paths E;
     env_user_home := env_user_home E; env_remote_refs := env_remote_refs E;
     env_dependencies := env_dependencies E; env_builder_items := env_builder_items E;
     env_deps_env_info := env_deps_env_info E; env_cmake_cache := env_cmake_cache E;
     env_exists := env_exists E; env_abspath := env_abspath E;
     env_cpu_count := env_cpu_count E |}.

Definition with_get_login (g : string -> option string * option string) (E : env) : env :=
  {| env_platform := env_platform E; env_fails := env_fails E; env_os_user := env_os_user E;
     env_input := env_input E; env_password := env_password E; env_http := env_http E;
     env_get_login := g; env_long_paths := env_long_paths E;
     env_user_home := env_user_home E; env_remote_refs := env_remote_refs E;
     env_dependencies := env_dependencies E; env_builder_items := env_builder_items E;
     env_deps_env_info := env_deps_env_info E; env_cmake_cache := env_cmake_cache E;
     env_exists := env_exists E; env_abspath := env_abspath E;
     env_cpu_count := env_cpu_count E |}.

Definition with_dependencies (ds : list dependency) (E : env) : env :=
  {| env_platform := env_platform E; env_fails := env_fails E; env_os_user := env_os_user E;
     env_input := env_input E; env_password := env_password E; env_http := env_http E;
     env_get_login := env_get_login E; env_long_paths := env_long_paths E;
     env_user_home := env_user_home E; env_remote_refs := env_remote_refs E;
     env_dependencies := ds; env_builder_items := env_builder_items E;
     env_deps_env_info := env_deps_env_info E; env_cmake_cache := env_cmake_cache E;
     env_exists := env_exists E; env_abspath := env_abspath E;
     env_cpu_count := env_cpu_count E |}.

Definition with_cmake_cache (c : option text_file) (E : env) : env :=
  {| env_platform := env_platform E; env_fails := env_fails E; env_os_user := env_os_user E;
     env_input := env_input E; env_password := env_password E; env_http := env_http E;
     env_get_login := env_get_login E; env_long_paths := env_long_paths E;
     env_user_home := env_user_home E; env_remote_refs := env_remote_refs E;
     env_dependencies := env_dependencies E; env_builder_items := env_builder_items E;
     env_deps_env_info := env_deps_env_info E; env_cmake_cache := c;
     env_exists := env_exists E; env_abspath := env_abspath E;
     env_cpu_count := env_cpu_count E |}.

Definition with_deps_env_info (c : option (list (string * string))) (E : env) : env :=
  {| env_platform := env_platform E; env_fails := env_fails E; env_os_user := env_os_user E;
     env_input := env_input E; env_password := env_password E; env_http := env_http E;
     env_get_login := env_get_login E; env_long_paths := env_long_paths E;
     env_user_home := env_user_home E; env_remote_refs := env_remote_refs E;
     env_dependencies := env_dependencies E; env_builder_items := env_builder_items E;
     env_deps_env_info := c; env_cmake_cache := env_cmake_cache E;
     env_exists := env_exists E; env_abspath := env_abspath E;
     env_cpu_count := env_cpu_count E |}.

(** None of the lines, stripped, starts with the generator key. *)
Definition no_generator_line (lines : list text) : bool :=
  forallb (fun line =>
             negb (text_startswith (strip line) (text_of "CMAKE_GENERATOR:INTERNAL="))) lines.

(** The cache file is missing, or none of the lines read from it has the
    generator key. *)
Definition lacks_generator (cache : option text_file) : bool :=
  match cache with
  | None => true
  | Some file => no_generator_line (tf_lines file)
  end.

(** The failure of a parallel build read as one mechanism for both cases:
    [cmake_generator] returns [None], the membership test raises, and no
    command has been run. *)
Definition fails_through_none (E : env) (config : option string) (w : world) : Prop :=
  fst (cmake_generator E w) = Ok None /\
  fst (build E config true w) = Raise TypeError /\
  forall p c, ~ In (ERun p c) (w_log (snd (build E config true w))).

(** The entry part of [conan_redirect_removed]: what runs before the
    [yield]. *)
Definition remove_redirect (E : env) : M unit :=
  reg <- remote_list ;;
  if mem REDIRECT_REMOTE (remote_names reg) then remote_remove E REDIRECT_REMOTE
  else ret tt.

Definition REDIRECT_URL : string := DL_ARTIFACTORY +:+ "/api/conan/conan-redirect".

(** ** What [login] is expected to log *)

(** A remote that [login] has to authenticate: under the Artifactory URL and
    without a cached token. *)
Definition needs_login (E : env) (remote : string * string) : bool :=
  startswith (snd remote) DL_ARTIFACTORY &&
  match snd (env_get_login E (snd remote)) with
  | Some _ => false
  | None => true
  end.

(** The user name [login] ends up with: the argument, or what was typed, or
    the OS user when nothing was typed. *)
Definition login_user (E : env) (username : option string) : string :=
  match username with
  | Some u => u
  | None => if String.eqb (env_input E) "" then env_os_user E else env_input E
  end.

Definition login_token (E : env) (username : option string) : string :=
  snd (env_http E (login_user E username) (env_password E)).

Definition login_prompts (E : env) (username : option string) : list event :=
  EHighlight PASSWORD_MESSAGE ::
  match username with
  | None => [EInput ("Enter your Artifactory username [" +:+ env_os_user E +:+ "]: ")]
  | Some _ => []
  end ++
  [EGetPass ("Enter encrypted password for " +:+ login_user E username +:+ " on " +:+
             DL_ARTIFACTORY +:+ ": ");
   EHttpGet (DL_ARTIFACTORY +:+ "/api/security/encryptedPassword")
     (login_user E username) (env_password E)].

Definition authenticate_event (E : env) (username : option string) (remote : string * string)
    : event :=
  EAuthenticate (Some (login_user E username)) (Some (login_token E username)) (fst remote).

Definition login_trace (E : env) (username : option string) (reg : list (string * string))
    : list event :=
  match List.filter (needs_login E) reg with
  | [] => []
  | pending => login_prompts E username ++ map (authenticate_event E username) pending
  end.

Definition is_input (e : event) : bool := match e with EInput _ => true | _ => false end.
Definition is_getpass (e : event) : bool := match e with EGetPass _ => true | _ => false end.
Definition is_http_get (e : event) : bool := match e with EHttpGet _ _ _ => true | _ => false end.
Definition is_authenticate (e : event) : bool :=
  match e with EAuthenticate _ _ _ => true | _ => false end.

Definition count_events (p : event -> bool) (l : list event) : nat :=
  length (List.filter p l).

(** [m], run from [w], logs a prefix of [t]; when it returns, it has logged
    all of [t] and its result satisfies [post]. *)
Definition follows {A} (m : M A) (w : world) (t : list event) (post : A -> Prop) : Prop :=
  exists l, w_log (snd (m w)) = w_log w ++ l /\ l `prefix_of` t /\
            forall a, fst (m w) = Ok a -> l = t /\ post a.

(** The credential service answers with an error status: one for which
    [raise_for_status] raises. *)
Definition failing_status (E : env) (username : option string) : bool :=
  let status := fst (env_http E (login_user E username) (env_password E)) in
  (400 <=? status)%nat && (status <? 600)%nat.

(** No call into the outside world raises. *)
Definition quiet (E : env) : Prop := forall h e, env_fails E h e = None.

Definition LONG_PATHS_WARNINGS : list event :=
  [EWarn "It is strongly recommended to enable long paths in Windows";
   EWarn "See the LongPathsEnabled.reg file in the tasks directory"].

(** A Windows machine whose registry key exists but has no
    [LongPathsEnabled] value. *)
Definition no_long_paths_value_env : env :=
  with_platform Win32
    (with_fails (fun _ e => match e with
                            | EQueryValueEx _ => Some FileNotFoundError
                            | _ => None
                            end) quiet_env).

(** ** What [upload_dependencies] is expected to log *)

(** The dependencies the promotion is about: channel [stable], user neither
    the stable identity nor the local OS user. *)
Definition promotable (E : env) (d : dependency) : bool :=
  String.eqb (dep_channel d) "stable" &&
  negb (String.eqb (dep_user d) STABLE_USERNAME) &&
  negb (String.eqb (dep_user d) (env_os_user E)).

(** The reference of [d] under the stable identity. *)
Definition dl_reference (d : dependency) : string :=
  reference (dep_name d) (dep_version d) STABLE_USERNAME (dep_channel d).

(** The calls that promote [d], in order. *)
Definition promotion_calls (remote_refs : list (string * string)) (d : dependency)
    : list event :=
  [ECopy (repr d) (STABLE_USERNAME +:+ "/" +:+ dep_channel d) true true;
   EUpload (dl_reference d) UPLOAD_DEPENDENCIES_REMOTE true true true] ++
  (if mem (repr d) (map fst remote_refs) then [ERemoteUpdateRef (repr d) REDIRECT_REMOTE]
   else []) ++
  [ERemove (repr d) true;
   EExportAlias (repr d) (dl_reference d);
   EUpload (repr d) REDIRECT_REMOTE true false false].

Definition upload_dependency_trace (remote_refs : list (string * string)) (d : dependency)
    : list event :=
  match dep_alias d with
  | Some _ => []
  | None => promotion_calls remote_refs d
  end.

Definition upload_dependencies_trace (E : env) (remote_refs : list (string * string))
    : list event :=
  [EGraphInfo] ++
  concat (map (upload_dependency_trace remote_refs)
            (List.filter (promotable E) (env_dependencies E))).

(** [d] has been promoted, going by the log: copied under the stable
    identity, uploaded to [conan-ext], removed from the local cache, and
    aliased through the redirect remote. *)
Definition promoted (d : dependency) (log : list event) : Prop :=
  In (ECopy (repr d) (STABLE_USERNAME +:+ "/" +:+ dep_channel d) true true) log /\
  In (EUpload (dl_reference d) UPLOAD_DEPENDENCIES_REMOTE true true true) log /\
  In (ERemove (repr d) true) log /\
  In (EExportAlias (repr d) (dl_reference d)) log /\
  In (EUpload (repr d) REDIRECT_REMOTE true false false) log.

(** ** Temporary directories *)

(** The directories alive were all created before: their numbers are below
    the next fresh one. *)
Definition tmp_fresh (w : world) : Prop := forall d, In d (w_live w) -> d < w_next w.

(** The directory a call is to remove, when the call is a removal. *)
Definition cleanup_of (e : event) : option nat :=
  match e with ECleanup d => Some d | _ => None end.

(** The directories whose removal raised, among the calls [l] made after
    the calls [h]. *)
Fixpoint leaked (E : env) (h l : list event) : list nat :=
  match l with
  | [] => []
  | e :: l' =>
      match cleanup_of e, env_fails E h e with
      | Some d, Some _ => d :: leaked E (h ++ [e]) l'
      | _, _ => leaked E (h ++ [e]) l'
      end
  end.

(** What [m], run from [w], does with temporary directories, however it
    ends: with [l] the calls it makes, the removal of every directory made
    on the way is among them, and the directories alive at the end are
    those alive at the start and, before them, the ones whose removal
    raised. *)
Definition scoped_from (E : env) {A} (m : M A) (w : world) : Prop :=
  exists l stuck,
    w_log (snd (m w)) = w_log w ++ l /\
    w_next w <= w_next (snd (m w)) /\
    w_live (snd (m w)) = stuck ++ w_live w /\
    (forall d, In d stuck <-> In d (leaked E (w_log w) l)) /\
    (forall d, In d stuck -> w_next w <= d < w_next (snd (m w))) /\
    (forall d, w_next w <= d < w_next (snd (m w)) -> In (ECleanup d) l).

Definition scoped (E : env) {A} (m : M A) : Prop :=
  forall w, tmp_fresh w -> scoped_from E m w.

(** No removal of a temporary directory raises. *)
Definition cleanup_ok (E : env) : Prop := forall h d, env_fails E h (ECleanup d) = None.

(** A world in which every install fails. *)
Definition failing_install_env : env :=
  with_fails (fun _ e => match e with
                         | EInstall _ _ _ _ _ _ => Some (ConanException "install failed")
                         | EInstallReference _ _ _ _ _ _ _ =>
                             Some (ConanException "install failed")
                         | _ => None
                         end) quiet_env.

(** A world in which the first temporary directory, the isolated home of
    [copy_dependencies], cannot be removed. *)
Definition stuck_home_env : env :=
  with_fails (fun _ e => match e with
                         | ECleanup 0 => Some (OtherError "PermissionError")
                         | _ => None
                         end) quiet_env.

(** The claim read without a condition on the removal: whatever happens, the
    task ends with the temporary directories it started with. *)
Definition never_outlives {A} (m : M A) (w : world) : Prop :=
  w_live (snd (m w)) = w_live w.

(** The calls that end a block: the restoring of the environment and the
    removal of a temporary directory. *)
Definition is_exit (e : event) : bool :=
  match e with ECleanup _ | EEnvRestore _ => true | _ => false end.

(** No call raises but, possibly, the ones that end a block. *)
Definition quiet_but_exits (E : env) : Prop :=
  forall h e, is_exit e = false -> env_fails E h e = None.

(** ** What [copy_dependencies] is expected to log *)

(** [m], when it returns from [w], has logged exactly [t] and left a result
    and a world that satisfy [post]. *)
Definition returns {A} (m : M A) (w : world) (t : list event)
    (post : A -> world -> Prop) : Prop :=
  forall a w', m w = (Ok a, w') -> w_log w' = w_log w ++ t /\ post a w'.

(** The registry and the directory counter are those of [w]. *)
Definition same_state (w : world) {A} (a : A) (w' : world) : Prop :=
  w_remotes w' = w_remotes w /\ w_next w' = w_next w.

Definition home_vars (d : nat) : list (string * path) :=
  [("CONAN_USER_HOME", PTmp d); ("CONAN_USER_HOME_SHORT", PStr "None")].

(** Step 1: the user home is copied into a fresh temporary directory, which
    becomes the home of the package manager. *)
Definition copy_home_trace (E : env) (d : nat) : list event :=
  [EMkdtemp d;
   ECopyTree (env_abspath E (env_user_home E)) (PJoin (PTmp d) ".conan");
   EChmod (PJoin (PTmp d) ".conan");
   EEnvAppend (home_vars d)].

(** The long-paths check of a run that returns, after the calls [h]: the
    warnings are printed when the value is missing or zero. *)
Definition long_paths_trace (E : env) (h : list event) : list event :=
  match env_platform E with
  | Win32 =>
      [EOpenKey; EQueryValueEx "LongPathsEnabled"] ++
      (if match env_fails E (h ++ [EOpenKey]) (EQueryValueEx "LongPathsEnabled") with
          | Some _ => true
          | None => Nat.eqb (env_long_paths E) 0
          end
       then LONG_PATHS_WARNINGS else []) ++
      [ECloseKey]
  | _ => []
  end.

(** Step 2: all remote refs are removed. *)
Definition strip_refs_trace (E : env) (h : list event) : list event :=
  map ERemoteRemoveRef (map fst (env_remote_refs E h)).

(** Step 3: one install per build configuration, each in a staging
    directory of its own; [d] is the number of the first one. *)
Fixpoint install_trace (E : env) (d : nat) (items : list build_item) : list event :=
  match items with
  | [] => []
  | item :: items' =>
      [EMkdtemp d;
       EInstall (options_list (bi_settings item)) (options_list (bi_options item))
         (bi_env_vars item) ["missing"] (base_profile E) (PTmp d);
       ECleanup d] ++ install_trace E (S d) items'
  end.

(** [install_all_configurations] from registry [reg] and counter [d]: the
    redirect remote is removed when configured, the installs run, and the
    redirect remote is added back. *)
Definition install_all_trace (E : env) (reg : list (string * string)) (d : nat)
    : list event :=
  [EAddCommonBuilds] ++
  (if mem REDIRECT_REMOTE (remote_names reg) then [ERemoteRemove REDIRECT_REMOTE] else []) ++
  install_trace E d (env_builder_items E) ++
  [ERemoteAdd REDIRECT_REMOTE REDIRECT_URL None false].

(** Steps 3 to 5: installs, redirect remote added back, then the
    promotions. *)
Definition pipeline_trace (E : env) (reg : list (string * string)) (d : nat)
    (h : list event) : list event :=
  install_all_trace E reg d ++
  upload_dependencies_trace E (env_remote_refs E (h ++ install_all_trace E reg d)).

Definition copy_dependencies_trace (E : env) (w : world) : list event :=
  let d := w_next w in
  let copy_home := copy_home_trace E d in
  let long_paths := long_paths_trace E (w_log w ++ copy_home) in
  let strip_refs := strip_refs_trace E (w_log w ++ copy_home ++ long_paths) in
  copy_home ++ long_paths ++ strip_refs ++
  pipeline_trace E (w_remotes w) (S d) (w_log w ++ copy_home ++ long_paths ++ strip_refs) ++
  [EEnvRestore (home_vars d); ECleanup d].

(** The steps of the pipeline, numbered in the order in which the code
    takes them; calls that belong to no step have no number. *)
Definition code_step (e : event) : option nat :=
  match e with
  | ECopyTree _ _ => Some 0
  | ERemoteRemoveRef _ => Some 1
  | EInstall _ _ _ _ _ _ => Some 2
  | ERemoteAdd _ _ _ _ => Some 3
  | ECopy _ _ _ _ | EUpload _ _ _ _ _ | ERemoteUpdateRef _ _ | ERemove _ _
  | EExportAlias _ _ => Some 4
  | _ => None
  end.

(** The same steps, numbered in the order of the sentence that lists them:
    adding the redirect remote back comes last. *)
Definition listed_step (e : event) : option nat :=
  match e with
  | ECopyTree _ _ => Some 0
  | ERemoteRemoveRef _ => Some 1
  | EInstall _ _ _ _ _ _ => Some 2
  | ECopy _ _ _ _ | EUpload _ _ _ _ _ | ERemoteUpdateRef _ _ | ERemove _ _
  | EExportAlias _ _ => Some 3
  | ERemoteAdd _ _ _ _ => Some 4
  | _ => None
  end.

(** The numbered calls of [log] never go back to an earlier step. *)
Fixpoint in_order_from (step : event -> option nat) (lo : nat) (log : list event) : bool :=
  match log with
  | [] => true
  | e :: log' =>
      match step e with
      | Some s => (lo <=? s)%nat && in_order_from step s log'
      | None => in_order_from step lo log'
      end
  end.

Definition steps_in_order (step : event -> option nat) (log : list event) : bool :=
  in_order_from step 0 log.

(** The numbered calls of [log] are in order and their steps lie between
    [lo] and [hi]. *)
Definition bounded (step : event -> option nat) (lo hi : nat) (log : list event) : Prop :=
  in_order_from step lo log = true /\
  forall e s, In e log -> step e = Some s -> lo <= s <= hi.

(** ** What [setup_remotes] is expected to log *)

(** The calls of one round of [setup_remotes], for the canonical remote
    [item] at position [insert_loc], given the dictionary [urls] read before
    the loop. *)
Definition setup_round_trace (urls : gmap string string) (insert_loc : nat)
    (item : string * string) : list event :=
  match urls !! snd item with
  | Some old_remote =>
      if negb (String.eqb old_remote (fst item)) then
        [EInfo ("renaming " +:+ old_remote +:+ " to " +:+ fst item);
         ERemoteRename old_remote (fst item)]
      else []
  | None => []
  end ++
  [EInfo ("adding remote " +:+ fst item +:+ " as " +:+ snd item);
   ERemoteAdd (fst item) (snd item) (Some insert_loc) true].

Fixpoint setup_rounds_trace (urls : gmap string string) (insert_loc : nat)
    (items : list (string * string)) : list event :=
  match items with
  | [] => []
  | item :: items' =>
      setup_round_trace urls insert_loc item ++ setup_rounds_trace urls (S insert_loc) items'
  end.

Definition setup_remotes_trace (reg : list (string * string)) : list event :=
  setup_rounds_trace (get_remotes reg) 0 remotes.

(** A registry in which the name [conan-redirect] is attached to the URL of
    [conan-ext]. *)
Definition misnamed_registry : list (string * string) :=
  [("conan-redirect", DL_ARTIFACTORY +:+ "/api/conan/conan-ext")].

(** The registry after [setup_remotes] has run [n] times. *)
Fixpoint after_setups (E : env) (n : nat) (w : world) : world :=
  match n with
  | 0 => w
  | S n' => after_setups E n' (snd (setup_remotes E w))
  end.

(** ** Registries on which [setup_remotes] is safe *)

(** One remote per name and one per URL. *)
Definition well_formed (reg : list (string * string)) : Prop :=
  NoDup (remote_names reg) /\ NoDup (remote_urls reg).

(** A name of the table [canon], when configured, is on the URL the table
    gives it. *)
Definition tidy (canon reg : list (string * string)) : Prop :=
  forall n u u', In (n, u) reg -> In (n, u') canon -> u = u'.

(** The remotes whose URL is not in the table. *)
Definition others (canon reg : list (string * string)) : list (string * string) :=
  List.filter (fun r => negb (mem (snd r) (remote_urls canon))) reg.

(** What a rename does to one remote. *)
Definition renamed (old new : string) (r : string * string) : string * string :=
  if String.eqb (fst r) old then (new, snd r) else r.

(** What a forced add of [name] at [url] keeps. *)
Definition kept (name url : string) (r : string * string) : bool :=
  negb (String.eqb (fst r) name) && negb (String.eqb (snd r) url).

(** A registry with a canonical URL under another name and a remote of its
    own. *)
Definition mirror_registry : list (string * string) :=
  [("mirror", "http://mirror.example/conan"); ("center", "https://conan.bintray.com")].

(** ** Reading the generator *)

Definition GENERATOR_KEY : text := text_of "CMAKE_GENERATOR:INTERNAL=".

(** The text of [s] up to its first [=], or all of it. *)
Fixpoint until_equals (s : text) : text :=
  match s with
  | [] => []
  | c :: s' => if (c =? EQUALS)%N then [] else c :: until_equals s'
  end.

(** A no-break space, U+00A0. *)
Definition NBSP : N := 0xa0%N.

(** ** The command of [build] *)

(** The options passed through to the native build tool, by generator. *)
Definition job_options (E : env) (generator : text) : string :=
  if contains (text_of "Makefiles") generator && negb (contains (text_of "NMake") generator)
  then " -- -j" +:+ string_of_nat (env_cpu_count E)
  else if contains (text_of "Visual Studio") generator then
    " -- /m:" +:+ string_of_nat (env_cpu_count E)
  else "".

(** The configuration option, given only in a multi-configuration build
    directory. *)
Definition config_options (E : env) (config : option string) : string :=
  if env_exists E (os_path_join E "build" "conanbuildinfo_multi.cmake")
  then " --config " +:+ config_or_debug config
  else "".

Definition build_command (E : env) (config : option string) (jobs : string) : event :=
  ERun [activate_command E] ("cmake" +:+ (" --build build" +:+ config_options E config) +:+ jobs).

(** Opening and closing the registry key. *)
Definition is_key_event (e : event) : bool :=
  match e with ECloseKey | EOpenKey => true | _ => false end.

(** ** What [package] is expected to log *)

(** One call per build configuration, each in a staging directory of its
    own; [d] is the number of the first one. *)
Fixpoint staged_trace (f : build_item -> path -> event) (d : nat) (items : list build_item)
    : list event :=
  match items with
  | [] => []
  | item :: items' => [EMkdtemp d; f item (PTmp d); ECleanup d] ++ staged_trace f (S d) items'
  end.

Definition leptonica_install (E : env) (item : build_item) (tmpdir : path) : event :=
  EInstallReference "leptonica/1.76.0@bincrafters/stable"
    (options_list (bi_settings item)) (options_list (bi_options item)) (bi_env_vars item)
    ["leptonica"; "missing"] (base_profile E) tmpdir.

Definition tools_vars (info : list (string * string)) : list (string * path) :=
  map (fun kv => (fst kv, PStr (snd kv))) info.

Definition package_trace (E : env) (info : list (string * string)) (d : nat) : list event :=
  [ESetEnv "CONAN_PIP_USE_SUDO" "False";
   ESetEnv "CONAN_NON_INTERACTIVE" "True";
   EAddCommonBuilds;
   EInstallBuildTools;
   EOpen "build_tools/build/conanbuildinfo.json";
   EEnvAppend (tools_vars info)] ++
  staged_trace (leptonica_install E) d (env_builder_items E) ++
  [EBuilderRun (base_profile E); EEnvRestore (tools_vars info)].

(** What is left of a registry when the redirect remote is taken out. *)
Definition without_redirect (reg : list (string * string)) : list (string * string) :=
  List.filter (fun r => negb (String.eqb (fst r) REDIRECT_REMOTE)) reg.

(** ** The tasks of [tasks/__init__.py] that work on the build directory

    [cmake] and [distclean] look at the file system and change it.  The
    file system is the operating system's.  What the tasks use of it is
    gathered in a class, the operations they call, and in a few laws, what
    holds after an operation that returned.  Nothing is said about when an
    operation raises (a regular file or a link in the place of the
    directory, content that cannot be removed, missing rights), nor about
    what the command that is run does to the disk. *)

Class FileSystem (fs : Type) : Type := {
  (** [os.path.exists(p)] *)
  fs_exists : string -> fs -> bool;
  (** [print(msg)] *)
  fs_print : string -> fs -> result unit * fs;
  (** [shutil.rmtree(p)] *)
  fs_rmtree : string -> fs -> result unit * fs;
  (** [os.mkdir(p)] *)
  fs_mkdir : string -> fs -> result unit * fs;
  (** [ctx.run(command)] under the prefixes and in the directory given *)
  fs_run : list string -> string -> string -> fs -> result unit * fs
}.

(** What holds after an operation that returned: printing leaves the paths
    as they are, a tree that was removed is gone, removing a tree brings
    nothing into being, and a directory that was made is there. *)
Record fs_laws {fs : Type} (F : FileSystem fs) : Prop := {
  print_keeps : forall msg q s r s',
    fs_print msg s = (r, s') -> fs_exists q s' = fs_exists q s;
  rmtree_removes : forall p s s',
    fs_rmtree p s = (Ok tt, s') -> fs_exists p s' = false;
  rmtree_makes_nothing : forall p q s s',
    fs_rmtree p s = (Ok tt, s') -> fs_exists q s = false -> fs_exists q s' = false;
  mkdir_makes : forall p s s',
    fs_mkdir p s = (Ok tt, s') -> fs_exists p s' = true
}.

Inductive disk_event : Type :=
| DPrint (msg : string)
| DRmtree (p : string)
| DMkdir (p : string)
| DRun (prefixes : list string) (cwd : string) (command : string).

(** The state the two tasks act on: the file system and the log of what
    was printed, removed, made and run. *)
Record disk (fs : Type) : Type := {
  d_fs : fs;
  d_log : list disk_event
}.
Arguments d_fs {fs} d.
Arguments d_log {fs} d.

Section BuildDirectory.

Context {fs : Type} {F : FileSystem fs}.

(** An operation on the file system, logged. *)
Definition fs_call (e : disk_event) (op : fs -> result unit * fs) (d : disk fs)
    : result unit * disk fs :=
  let '(r, s) := op (d_fs d) in (r, {| d_fs := s; d_log := d_log d ++ [e] |}).

Definition path_exists (p : string) (d : disk fs) : bool := fs_exists p (d_fs d).

Definition print (msg : string) : disk fs -> result unit * disk fs :=
  fs_call (DPrint msg) (fs_print msg).

Definition rmtree (p : string) : disk fs -> result unit * disk fs :=
  fs_call (DRmtree p) (fs_rmtree p).

Definition mkdir (p : string) : disk fs -> result unit * disk fs :=
  fs_call (DMkdir p) (fs_mkdir p).

Definition run (prefixes : list string) (cwd command : string)
    : disk fs -> result unit * disk fs :=
  fs_call (DRun prefixes cwd command) (fs_run prefixes cwd command).

(** One statement after another; an exception ends the sequence. *)
Definition and_then (m k : disk fs -> result unit * disk fs) (d : disk fs)
    : result unit * disk fs :=
  match m d with
  | (Ok _, d1) => k d1
  | (Raise x, d1) => (Raise x, d1)
  end.

(** [if os.path.exists(p): print(msg); shutil.rmtree(p)] *)
Definition remove_if_exists (p msg : string) (d : disk fs) : result unit * disk fs :=
  if path_exists p d then and_then (print msg) (rmtree p) d else (Ok tt, d).

Definition distclean : disk fs -> result unit * disk fs :=
  and_then (remove_if_exists "build" "Removing build")
           (remove_if_exists "test_package/build" "Removing test_package/build").

Definition DQUOTE : string := String (ascii_of_nat 34) EmptyString.

(** The command of [cmake] for a generator. *)
Definition cmake_command (generator : string) : string :=
  "cmake ../src -G " +:+ DQUOTE +:+ generator +:+ DQUOTE.

(** [cmake]: the build directory is made when [os.path.exists] does not see
    it, then the generator is run in it under the activation prefix. *)
Definition cmake (activate generator : string) : disk fs -> result unit * disk fs :=
  and_then (fun d => if negb (path_exists "build" d) then mkdir "build" d else (Ok tt, d))
           (run [activate] "build" (cmake_command generator)).

End BuildDirectory.

(** *** A small file system to run the two tasks on

    Each name holds a directory, a regular file, or a symbolic link, which
    dangles or not; names are plain, and a directory holds the names that
    start with its own and a slash.  [os.path.exists] follows links, so it
    does not see a dangling one; [shutil.rmtree] removes a directory and
    what it holds and raises on anything else; [os.mkdir] raises on a name
    that is taken, also by a dangling link; printing and running a command
    leave the disk as it is. *)

Inductive node : Type :=
| NDir
| NFile
| NLink (dangling : bool).

Definition nodes : Type := list (string * node).

Fixpoint node_at (p : string) (s : nodes) : option node :=
  match s with
  | [] => None
  | (q, n) :: s' => if String.eqb q p then Some n else node_at p s'
  end.

Definition node_exists (p : string) (s : nodes) : bool :=
  match node_at p s with
  | Some NDir | Some NFile | Some (NLink false) => true
  | Some (NLink true) | None => false
  end.

(** [q] is the directory [p] or lies in it. *)
Definition under (p q : string) : bool := String.eqb q p || String.prefix (p +:+ "/") q.

Definition node_rmtree (p : string) (s : nodes) : result unit * nodes :=
  match node_at p s with
  | Some NDir => (Ok tt, List.filter (fun e => negb (under p (fst e))) s)
  | Some NFile => (Raise (OtherError "NotADirectoryError"), s)
  | Some (NLink _) => (Raise (OtherError "OSError: Cannot call rmtree on a symbolic link"), s)
  | None => (Raise FileNotFoundError, s)
  end.

Definition node_mkdir (p : string) (s : nodes) : result unit * nodes :=
  match node_at p s with
  | None => (Ok tt, (p, NDir) :: s)
  | Some _ => (Raise (OtherError "FileExistsError"), s)
  end.

#[export] Instance node_fs : FileSystem nodes := {|
  fs_exists := node_exists;
  fs_print := fun _ s => (Ok tt, s);
  fs_rmtree := node_rmtree;
  fs_mkdir := node_mkdir;
  fs_run := fun _ _ _ s => (Ok tt, s)
|}.

(** A project that was built, with a file of its own. *)
Definition built_project : nodes :=
  [("src", NDir); ("build", NDir); ("build/CMakeCache.txt", NFile);
   ("test_package/build", NDir); ("conanfile.py", NFile)].

(** A project in which [build] is a regular file. *)
Definition file_named_build : nodes := [("src", NDir); ("build", NFile)].

(** A project in which [build] is a link to a directory that is gone. *)
Definition dangling_build : nodes := [("src", NDir); ("build", NLink true)].

Definition fresh_disk {fs : Type} (s : fs) : disk fs := {| d_fs := s; d_log := [] |}.

(** * Properties *)

(** ** Release branches: [package_username] *)

Lemma star_dot_accepts (s : string) : star_atom RDot (fun _ => true) s = true.
Proof.
  induction s as [|c s IH]; simpl; [reflexivity|].
  rewrite IH. apply orb_true_iff. right. reflexivity.
Qed.

Lemma prefix_cons (a b : ascii) (p s : string) :
  String.prefix (String a p) (String b s) = Ascii.eqb a b && String.prefix p s.
Proof.
  simpl. destruct (ascii_dec a b) as [->|Hne].
  - rewrite Ascii.eqb_refl. reflexivity.
  - apply Ascii.eqb_neq in Hne. rewrite Hne. reflexivity.
Qed.

(** On branch names the compiled release pattern is a prefix test. *)
Lemma stable_pattern_is_prefix (s : string) :
  re_match (re_compile STABLE_BRANCH_PATTERN) s = String.prefix "dl/stable/" s.
Proof.
  unfold re_match.
  change (re_compile STABLE_BRANCH_PATTERN) with
    (RSeq (RChar "d") (RSeq (RChar "l") (RSeq (RChar "/") (RSeq (RChar "s")
     (RSeq (RChar "t") (RSeq (RChar "a") (RSeq (RChar "b") (RSeq (RChar "l")
     (RSeq (RChar "e") (RSeq (RChar "/") (RSeq (RStar RDot) REps))))))))))).
  do 10 (destruct s as [|? s]; [reflexivity|];
         rewrite prefix_cons; cbn [re_run atom_accepts];
         destruct (Ascii.eqb _ _); cbn [andb]; [|reflexivity]).
  cbn [re_run]. rewrite star_dot_accepts. destruct s; reflexivity.
Qed.

Lemma no_match_on_empty : re_match (re_compile STABLE_BRANCH_PATTERN) "" = false.
Proof. reflexivity. Qed.

(** C4. [package_username] is the stable identity [datalogics] when the
    current branch name matches the release pattern [dl/stable/.*], and the
    local OS user name otherwise (also when there is no branch). *)
Theorem package_username_selects (ci_branch : option string) (os_user : string) :
  package_username ci_branch os_user =
    match ci_branch with
    | Some b => if re_match (re_compile STABLE_BRANCH_PATTERN) b then STABLE_USERNAME
                else os_user
    | None => os_user
    end.
Proof.
  unfold package_username. destruct ci_branch as [b|]; [|reflexivity].
  destruct (String.eqb_spec b "") as [->|Hne]; cbn [negb andb].
  - rewrite no_match_on_empty. reflexivity.
  - reflexivity.
Qed.

Lemma package_username_release (b os_user : string) :
  String.prefix "dl/stable/" b = true ->
  package_username (Some b) os_user = "datalogics".
Proof.
  intros H. unfold package_username.
  destruct (String.eqb_spec b "") as [->|_]; [vm_compute in H; discriminate H|].
  rewrite stable_pattern_is_prefix, H. reflexivity.
Qed.

Example package_username_on_release :
  package_username (Some "dl/stable/3.05") "kam" = "datalogics".
Proof. reflexivity. Qed.

Example package_username_on_feature :
  package_username (Some "feature/dl/stable/x") "kam" = "kam".
Proof. reflexivity. Qed.

(** ** The monad: how results and exceptions travel *)

Section MonadFacts.

Context (E : env).

Lemma bind_ok {A B} (m : M A) (f : A -> M B) w a w1 :
  m w = (Ok a, w1) -> bind m f w = f a w1.
Proof. intros H. unfold bind. rewrite H. reflexivity. Qed.

(** An exception raised by the first part of a sequence is the outcome of
    the sequence: what follows does not run. *)
Lemma bind_raise {A B} (m : M A) (f : A -> M B) w x w1 :
  m w = (Raise x, w1) -> bind m f w = (Raise x, w1).
Proof. intros H. unfold bind. rewrite H. reflexivity. Qed.

Lemma bind_inv_ok {A B} (m : M A) (f : A -> M B) w b w' :
  bind m f w = (Ok b, w') -> exists a w1, m w = (Ok a, w1) /\ f a w1 = (Ok b, w').
Proof.
  unfold bind. destruct (m w) as [[a|x] w1]; intros H.
  - exists a, w1. split; [reflexivity|exact H].
  - discriminate H.
Qed.

Lemma call_quiet e w :
  env_fails E (w_log w) e = None -> call E e w = (Ok tt, log_event e w).
Proof. intros H. unfold call. rewrite H. reflexivity. Qed.

Lemma call_fails e w x :
  env_fails E (w_log w) e = Some x -> call E e w = (Raise x, log_event e w).
Proof. intros H. unfold call. rewrite H. reflexivity. Qed.

Lemma call_inv_ok e w u w' :
  call E e w = (Ok u, w') -> env_fails E (w_log w) e = None /\ w' = log_event e w.
Proof.
  unfold call. destruct (env_fails E (w_log w) e); intros H; inversion H. auto.
Qed.

Lemma call_log e w : w_log (snd (call E e w)) = w_log w ++ [e].
Proof. unfold call. destruct (env_fails E (w_log w) e); reflexivity. Qed.

Lemma ret_inv_ok {A} (a b : A) w w' : ret a w = (Ok b, w') -> a = b /\ w' = w.
Proof. unfold ret. intros H. inversion H. auto. Qed.

End MonadFacts.

(** ** Parallel builds without a generator in the cache *)

(** When no line has the key, the loop goes through all the lines and ends
    as the reading ends. *)
Lemma cmake_generator_lines_none (lines : list text) (error : option exn) (w : world) :
  no_generator_line lines = true ->
  cmake_generator_lines lines error w =
    (match error with Some x => Raise x | None => Ok None end, w).
Proof.
  unfold no_generator_line. induction lines as [|line lines IH]; intros H.
  - destruct error; reflexivity.
  - cbn [forallb] in H. apply andb_true_iff in H as [Hl Hr].
    cbn [cmake_generator_lines]. apply negb_true_iff in Hl. rewrite Hl. apply IH. exact Hr.
Qed.

(** What [cmake_generator] does when the cache lacks the generator: it
    opens the file and either raises or returns [None]. *)
Lemma cmake_generator_lacking (E : env) (w : world) :
  lacks_generator (env_cmake_cache E) = true ->
  cmake_generator E w =
    (match env_fails E (w_log w) (EOpen (os_path_join E "build" "CMakeCache.txt")) with
     | Some x => Raise x
     | None => match env_cmake_cache E with
               | None => Raise FileNotFoundError
               | Some file => match tf_error file with
                              | Some x => Raise x
                              | None => Ok None
                              end
               end
     end, log_event (EOpen (os_path_join E "build" "CMakeCache.txt")) w).
Proof.
  intros Hlack. unfold cmake_generator, open_file.
  destruct (env_fails E (w_log w) (EOpen (os_path_join E "build" "CMakeCache.txt")))
    as [x|] eqn:Hf.
  - erewrite bind_raise; [reflexivity|].
    erewrite bind_raise; [reflexivity|]. apply call_fails. exact Hf.
  - destruct (env_cmake_cache E) as [file|].
    + erewrite bind_ok.
      * apply cmake_generator_lines_none. exact Hlack.
      * erewrite bind_ok; [reflexivity|]. apply call_quiet. exact Hf.
    + erewrite bind_raise; [reflexivity|].
      erewrite bind_ok; [reflexivity|]. apply call_quiet. exact Hf.
Qed.

Lemma build_lacking (E : env) (config : option string) (w : world) :
  lacks_generator (env_cmake_cache E) = true ->
  build E config true w =
    (Raise match env_fails E (w_log w) (EOpen (os_path_join E "build" "CMakeCache.txt")) with
           | Some x => x
           | None => match env_cmake_cache E with
                     | None => FileNotFoundError
                     | Some file => match tf_error file with
                                    | Some x => x
                                    | None => TypeError
                                    end
                     end
           end, log_event (EOpen (os_path_join E "build" "CMakeCache.txt")) w).
Proof.
  intros Hlack. unfold build.
  pose proof (cmake_generator_lacking E w Hlack) as Hg.
  destruct (env_fails E (w_log w) (EOpen (os_path_join E "build" "CMakeCache.txt")))
    as [x|].
  - erewrite bind_raise; [reflexivity|]. erewrite bind_raise; [reflexivity|]. exact Hg.
  - destruct (env_cmake_cache E) as [file|].
    + destruct (tf_error file) as [x|].
      * erewrite bind_raise; [reflexivity|]. erewrite bind_raise; [reflexivity|]. exact Hg.
      * erewrite bind_raise; [reflexivity|]. erewrite bind_ok; [|exact Hg]. reflexivity.
    + erewrite bind_raise; [reflexivity|]. erewrite bind_raise; [reflexivity|]. exact Hg.
Qed.

(** C10, as the code has it.  When [build] runs with [parallel] and the cache
    file is missing or has no generator line (no line that, stripped as
    Python strips it, starts with the key), the only call made is the
    opening of the cache file, the task raises, and so no build command is
    run.  With a missing file the opening itself raises
    [FileNotFoundError] inside [cmake_generator]; with a file that is read
    to its end and lacks the line, [cmake_generator] returns [None] and the
    membership test raises [TypeError]; when the reading itself raises,
    that exception comes out of [cmake_generator] and of [build]. *)
Theorem build_parallel_without_generator (E : env) (config : option string) (w : world) :
  lacks_generator (env_cmake_cache E) = true ->
  let cache_file := os_path_join E "build" "CMakeCache.txt" in
  w_log (snd (build E config true w)) = w_log w ++ [EOpen cache_file] /\
  (exists x, fst (build E config true w) = Raise x) /\
  (env_fails E (w_log w) (EOpen cache_file) = None ->
   match env_cmake_cache E with
   | None => fst (cmake_generator E w) = Raise FileNotFoundError /\
             fst (build E config true w) = Raise FileNotFoundError
   | Some file =>
       match tf_error file with
       | None => fst (cmake_generator E w) = Ok None /\
                 fst (build E config true w) = Raise TypeError
       | Some x => fst (cmake_generator E w) = Raise x /\
                   fst (build E config true w) = Raise x
       end
   end).
Proof.
  intros Hlack cache_file. subst cache_file.
  rewrite (build_lacking E config w Hlack), (cmake_generator_lacking E w Hlack).
  cbn [fst snd log_event w_log].
  split; [reflexivity|]. split; [eexists; reflexivity|].
  intros Hf. rewrite Hf. destruct (env_cmake_cache E) as [file|]; [|split; reflexivity].
  destruct (tf_error file); split; reflexivity.
Qed.

Lemma build_parallel_without_generator_witness :
  w_log (snd (build (with_cmake_cache (Some (lines_of ["CMAKE_BUILD_TYPE:STRING=Debug"]))
                       quiet_env)
                 None true (empty_world []))) = [EOpen "build/CMakeCache.txt"] /\
  fst (build (with_cmake_cache (Some (lines_of ["CMAKE_BUILD_TYPE:STRING=Debug"])) quiet_env)
         None true (empty_world [])) = Raise TypeError.
Proof.
  pose proof (build_parallel_without_generator
                (with_cmake_cache (Some (lines_of ["CMAKE_BUILD_TYPE:STRING=Debug"])) quiet_env)
                None (empty_world []) eq_refl) as [Hlog [_ Hres]].
  split; [exact Hlog|]. exact (proj2 (Hres eq_refl)).
Defined.

(** With a missing cache file [cmake_generator] does not return [None]: it
    does not return at all. *)
Lemma build_absent_cache_counterexample :
  lacks_generator (env_cmake_cache (with_cmake_cache None quiet_env)) = true /\
  ~ fails_through_none (with_cmake_cache None quiet_env) None (empty_world []).
Proof.
  split; [reflexivity|]. intros [H _]. vm_compute in H. discriminate H.
Qed.

(** ** The redirect remote around a block: [conan_redirect_removed] *)

Lemma conan_redirect_removed_unfold (E : env) {A} (body : M A) (w : world) :
  conan_redirect_removed E body w =
    (remove_redirect E ;;;
     r <- body ;;
     remote_add E REDIRECT_REMOTE REDIRECT_URL None false ;;;
     ret r) w.
Proof.
  unfold conan_redirect_removed, remove_redirect, getitem.
  change (assoc REDIRECT_REMOTE remotes) with (Some REDIRECT_URL).
  unfold bind, remote_list, ret.
  destruct (mem REDIRECT_REMOTE (remote_names (w_remotes w))).
  - destruct (remote_remove E REDIRECT_REMOTE w) as [[u|x] w0]; [|reflexivity].
    destruct (body w0) as [[a|x] w1]; reflexivity.
  - destruct (body w) as [[a|x] w1]; reflexivity.
Qed.

Lemma remote_add_log (E : env) name url insert force (w : world) :
  w_log (snd (remote_add E name url insert force w)) =
  w_log w ++ [ERemoteAdd name url insert force].
Proof.
  unfold remote_add, registry_call, bind, call.
  destruct (env_fails E (w_log w) (ERemoteAdd name url insert force)); [reflexivity|].
  cbn [w_remotes log_event].
  destruct (reg_add name url insert force (w_remotes w)); reflexivity.
Qed.

(** C9. Let the entry part of [conan_redirect_removed] have run.  If the
    block raises, the context manager ends right there: the outcome and the
    world are the block's, so the redirect remote is not added back.  If the
    block returns, the redirect remote is added back, whether or not it was
    configured on entry. *)
Theorem conan_redirect_removed_exits (E : env) (A : Type) (body : M A) (w w0 : world) :
  remove_redirect E w = (Ok tt, w0) ->
  (forall x w1, body w0 = (Raise x, w1) ->
     conan_redirect_removed E body w = (Raise x, w1)) /\
  (forall a w1, body w0 = (Ok a, w1) ->
     conan_redirect_removed E body w =
       (remote_add E REDIRECT_REMOTE REDIRECT_URL None false ;;; ret a) w1 /\
     w_log (snd (conan_redirect_removed E body w)) =
       w_log w1 ++ [ERemoteAdd REDIRECT_REMOTE REDIRECT_URL None false]) /\
  (mem REDIRECT_REMOTE (remote_names (w_remotes w)) = false -> w0 = w).
Proof.
  intros Hentry. repeat split.
  - intros x w1 Hbody. rewrite conan_redirect_removed_unfold.
    erewrite bind_ok; [|exact Hentry]. erewrite bind_raise; [reflexivity|exact Hbody].
  - rewrite conan_redirect_removed_unfold.
    erewrite bind_ok; [|exact Hentry]. erewrite bind_ok; [reflexivity|exact H].
  - rewrite conan_redirect_removed_unfold.
    erewrite bind_ok; [|exact Hentry]. erewrite bind_ok; [|exact H].
    pose proof (remote_add_log E REDIRECT_REMOTE REDIRECT_URL None false w1) as Hlog.
    unfold bind. destruct (remote_add E REDIRECT_REMOTE REDIRECT_URL None false w1) as [[u|x] w2];
      exact Hlog.
  - intros Habsent. unfold remove_redirect, bind, remote_list in Hentry.
    rewrite Habsent in Hentry. inversion Hentry. reflexivity.
Qed.

(** A block that raises leaves the registry without the redirect remote; a
    block that returns gets it back at the end of the list, also from a
    registry that never had it. *)
Lemma conan_redirect_removed_exits_witness :
  (conan_redirect_removed quiet_env (@raise unit (OtherError "install failed"))
     (empty_world remotes) =
   (Raise (OtherError "install failed"),
    snd (remove_redirect quiet_env (empty_world remotes)))) /\
  mem REDIRECT_REMOTE (remote_names (w_remotes (snd
    (conan_redirect_removed quiet_env (@raise unit (OtherError "install failed"))
       (empty_world remotes))))) = false /\
  w_remotes (snd (conan_redirect_removed quiet_env (ret tt) (empty_world []))) =
    [(REDIRECT_REMOTE, REDIRECT_URL)].
Proof.
  pose proof (conan_redirect_removed_exits quiet_env unit
                (raise (OtherError "install failed")) (empty_world remotes)
                (snd (remove_redirect quiet_env (empty_world remotes))) eq_refl)
    as [Hraise _].
  split; [apply Hraise; reflexivity|].
  split; [rewrite (Hraise _ _ eq_refl); reflexivity|].
  pose proof (conan_redirect_removed_exits quiet_env unit (ret tt) (empty_world [])
                (empty_world []) eq_refl) as [_ [Hret _]].
  rewrite (proj1 (Hret tt _ eq_refl)). reflexivity.
Defined.

(** ** Logs as prefixes of an expected trace *)

Lemma follows_ret {A} (a : A) (w : world) (post : A -> Prop) :
  post a -> follows (ret a) w [] post.
Proof.
  intros Hp. exists []. cbn. rewrite app_nil_r. split; [reflexivity|].
  split; [reflexivity|]. intros b Hb. inversion Hb. subst. auto.
Qed.

Lemma follows_raise {A} (x : exn) (w : world) (t : list event) (post : A -> Prop) :
  follows (@raise A x) w t post.
Proof.
  exists []. cbn. rewrite app_nil_r. split; [reflexivity|].
  split; [apply prefix_nil|]. intros b Hb. discriminate Hb.
Qed.

Lemma follows_call (E : env) (e : event) (w : world) :
  follows (call E e) w [e] (fun _ => True).
Proof.
  exists [e]. rewrite call_log. split; [reflexivity|]. split; [reflexivity|]. auto.
Qed.

Lemma follows_bind {A B} (m : M A) (f : A -> M B) (w : world) (t1 t2 : list event)
    (P : A -> Prop) (Q : B -> Prop) :
  follows m w t1 P ->
  (forall a w1, m w = (Ok a, w1) -> P a -> follows (f a) w1 t2 Q) ->
  follows (bind m f) w (t1 ++ t2) Q.
Proof.
  intros (l1 & Hlog1 & Hpre1 & Hok1) Hf. unfold follows.
  destruct (m w) as [[a|x] w1] eqn:Hm; cbn [fst snd] in *.
  - rewrite (bind_ok m f w a w1 Hm).
    destruct (Hok1 a eq_refl) as [-> Hp].
    destruct (Hf a w1 eq_refl Hp) as (l2 & Hlog2 & Hpre2 & Hok2).
    exists (t1 ++ l2). split; [rewrite Hlog2, Hlog1, app_assoc; reflexivity|].
    split; [apply prefix_app; exact Hpre2|].
    intros b Hb. destruct (Hok2 b Hb) as [-> Hq]. auto.
  - rewrite (bind_raise m f w x w1 Hm).
    exists l1. split; [exact Hlog1|]. split; [apply prefix_app_r; exact Hpre1|].
    intros b Hb. discriminate Hb.
Qed.

Lemma follows_post {A} (m : M A) (w : world) (t : list event) (P Q : A -> Prop) :
  (forall a, P a -> Q a) -> follows m w t P -> follows m w t Q.
Proof.
  intros HPQ (l & Hlog & Hpre & Hok). exists l. split; [exact Hlog|].
  split; [exact Hpre|]. intros a Ha. destruct (Hok a Ha). auto.
Qed.

Lemma follows_trace {A} (m : M A) (w : world) (t t' : list event) (P : A -> Prop) :
  t = t' -> follows m w t P -> follows m w t' P.
Proof. intros ->. auto. Qed.

(** ** Sample worlds: what they satisfy *)

Lemma quiet_env_quiet : quiet quiet_env.
Proof. intros h e. reflexivity. Qed.

Lemma remotes_names_NoDup : NoDup (remote_names remotes).
Proof.
  vm_compute.
  repeat (apply NoDup_cons; split; [rewrite list_elem_of_In; cbn; intuition discriminate|]).
  apply NoDup_nil. exact I.
Qed.

Lemma remotes_urls_NoDup : NoDup (remote_urls remotes).
Proof.
  vm_compute.
  repeat (apply NoDup_cons; split; [rewrite list_elem_of_In; cbn; intuition discriminate|]).
  apply NoDup_nil. exact I.
Qed.

(** ** Credential login *)

Section Login.

Context (E : env).

Lemma login_round_skip (st : option string * option string) (remote : string * string)
    (w : world) :
  needs_login E remote = false -> login_round E st remote w = (Ok st, w).
Proof.
  unfold needs_login, login_round. destruct st as [token username].
  destruct remote as [name url]. cbn [fst snd].
  destruct (startswith url DL_ARTIFACTORY); cbn [negb andb]; [|reflexivity].
  destruct (env_get_login E url) as [nm [tok|]]; cbn [snd]; [reflexivity|].
  intros H; discriminate H.
Qed.

(** Once a token is held, a round authenticates the remote with it and
    keeps the variables as they are. *)
Lemma login_round_logged_in (t u : string) (remote : string * string) (w : world) :
  needs_login E remote = true ->
  follows (login_round E (Some t, Some u) remote) w
    [EAuthenticate (Some u) (Some t) (fst remote)]
    (fun st => st = (Some t, Some u)).
Proof.
  unfold needs_login, login_round. destruct remote as [name url]. cbn [fst snd].
  destruct (startswith url DL_ARTIFACTORY); cbn [negb andb]; [|intros H; discriminate H].
  destruct (env_get_login E url) as [nm [tok|]]; cbn [snd]; [intros H; discriminate H|].
  intros _.
  apply (follows_trace _ _ ([] ++ [EAuthenticate (Some u) (Some t) name] ++ [])); [reflexivity|].
  eapply follows_bind; [apply (follows_ret _ _ (fun st => st = (Some t, Some u))); reflexivity|].
  intros st w1 _ ->. cbn [fst snd].
  eapply follows_bind; [apply follows_call|].
  intros _ w2 _ _. apply follows_ret. reflexivity.
Qed.

Lemma raise_for_status_follows (status : nat) (w : world) :
  follows (raise_for_status status) w [] (fun _ => True).
Proof.
  unfold raise_for_status.
  destruct ((400 <=? status)%nat && (status <? 600)%nat);
    [apply follows_raise|apply follows_ret; exact I].
Qed.

(** Without a token, a round on a remote that needs login prompts, asks the
    credential service, and authenticates the remote with the answer. *)
Lemma login_round_fresh (username : option string) (remote : string * string) (w : world) :
  needs_login E remote = true ->
  follows (login_round E (None, username) remote) w
    (login_prompts E username ++ [authenticate_event E username remote])
    (fun st => st = (Some (login_token E username), Some (login_user E username))).
Proof.
  unfold needs_login, login_round. destruct remote as [name url]. cbn [fst snd].
  destruct (startswith url DL_ARTIFACTORY); cbn [negb andb]; [|intros H; discriminate H].
  destruct (env_get_login E url) as [nm [tok|]]; cbn [snd]; [intros H; discriminate H|].
  intros _.
  eapply follows_bind with
    (P := fun st => st = (Some (login_token E username), Some (login_user E username))).
  - unfold login_prompts.
    change (EHighlight PASSWORD_MESSAGE :: ?l) with ([EHighlight PASSWORD_MESSAGE] ++ l).
    eapply follows_bind; [apply follows_call|]. intros _ w1 _ _.
    eapply follows_bind with (P := fun u => u = login_user E username).
    + destruct username as [u|]; cbn [login_user].
      * apply follows_ret. reflexivity.
      * apply (follows_trace _ _
                 ([EInput ("Enter your Artifactory username [" +:+ env_os_user E +:+ "]: ")]
                  ++ [])); [reflexivity|].
        eapply follows_bind; [apply follows_call|]. intros _ w2 _ _.
        apply follows_ret. reflexivity.
    + intros u w2 _ ->.
      change [?a; ?b] with ([a] ++ [b] ++ [] ++ []).
      eapply follows_bind; [apply follows_call|]. intros _ w3 _ _.
      eapply follows_bind; [apply follows_call|]. intros _ w4 _ _.
      eapply follows_bind; [apply raise_for_status_follows|]. intros _ w5 _ _.
      apply follows_ret. reflexivity.
  - intros st w1 _ ->. cbn [fst snd].
    apply (follows_trace _ _ ([authenticate_event E username (name, url)] ++ []));
      [reflexivity|].
    eapply follows_bind; [apply follows_call|]. intros _ w2 _ _.
    apply follows_ret. reflexivity.
Qed.

Lemma follows_returned {A} (m : M A) (w : world) (a : A) (P : A -> Prop) :
  m w = (Ok a, w) -> P a -> follows m w [] P.
Proof.
  intros Hm Hp. exists []. rewrite Hm. cbn. rewrite app_nil_r.
  split; [reflexivity|]. split; [reflexivity|]. intros b Hb. inversion Hb. subst. auto.
Qed.

Lemma login_loop_logged_in (t u : string) (reg : list (string * string)) (w : world) :
  follows (for_fold reg (login_round E) (Some t, Some u)) w
    (map (fun r => EAuthenticate (Some u) (Some t) (fst r)) (List.filter (needs_login E) reg))
    (fun _ => True).
Proof.
  revert w. induction reg as [|r reg IH]; intros w; cbn [for_fold List.filter].
  - apply follows_ret. exact I.
  - destruct (needs_login E r) eqn:Hn.
    + change (map ?f (r :: ?l)) with ([f r] ++ map f l).
      eapply follows_bind; [apply login_round_logged_in; exact Hn|].
      intros st w1 _ ->. apply IH.
    + change (map ?f ?l) with ([] ++ map f l).
      eapply follows_bind;
        [apply (follows_returned _ _ _ (fun st => st = (Some t, Some u))
                  (login_round_skip _ _ _ Hn) eq_refl)|].
      intros st w1 _ ->. apply IH.
Qed.

Lemma login_trace_skip (username : option string) (r : string * string)
    (reg : list (string * string)) :
  needs_login E r = false -> login_trace E username (r :: reg) = login_trace E username reg.
Proof. intros Hn. unfold login_trace. cbn [List.filter]. rewrite Hn. reflexivity. Qed.

Lemma login_trace_first (username : option string) (r : string * string)
    (reg : list (string * string)) :
  needs_login E r = true ->
  login_trace E username (r :: reg) =
    (login_prompts E username ++ [authenticate_event E username r]) ++
    map (authenticate_event E username) (List.filter (needs_login E) reg).
Proof.
  intros Hn. unfold login_trace. cbn [List.filter]. rewrite Hn.
  rewrite <- app_assoc. reflexivity.
Qed.

Lemma login_loop_fresh (username : option string) (reg : list (string * string))
    (w : world) :
  follows (for_fold reg (login_round E) (None, username)) w (login_trace E username reg)
    (fun _ => True).
Proof.
  revert w. induction reg as [|r reg IH]; intros w.
  - apply follows_ret. exact I.
  - cbn [for_fold]. destruct (needs_login E r) eqn:Hn.
    + rewrite (login_trace_first username r reg Hn).
      eapply follows_bind; [apply login_round_fresh; exact Hn|].
      intros st w1 _ ->. apply login_loop_logged_in.
    + rewrite (login_trace_skip username r reg Hn).
      apply (follows_trace _ _ ([] ++ login_trace E username reg)); [reflexivity|].
      eapply follows_bind;
        [apply (follows_returned _ _ _ (fun st => st = (None, username))
                  (login_round_skip _ _ _ Hn) eq_refl)|].
      intros st w1 _ ->. apply IH.
Qed.

Lemma login_follows (username : option string) (w : world) :
  follows (login E username) w (login_trace E username (w_remotes w)) (fun _ => True).
Proof.
  unfold login.
  apply (follows_trace _ _ ([] ++ login_trace E username (w_remotes w) ++ []));
    [cbn; apply app_nil_r|].
  eapply follows_bind;
    [apply (follows_returned remote_list w (w_remotes w) (fun reg => reg = w_remotes w));
     reflexivity|].
  intros reg w1 Hrl ->. inversion Hrl; subst w1.
  eapply follows_bind; [apply login_loop_fresh|].
  intros _ w2 _ _. apply follows_ret. exact I.
Qed.

Lemma count_events_prefix (p : event -> bool) (l t : list event) :
  l `prefix_of` t -> count_events p l <= count_events p t.
Proof.
  intros [k ->]. unfold count_events. rewrite List.filter_app, length_app. lia.
Qed.

Lemma count_authenticate_events (p : event -> bool) (username : option string)
    (reg : list (string * string)) :
  (forall u t n, p (EAuthenticate u t n) = false) ->
  count_events p (map (authenticate_event E username) reg) = 0.
Proof.
  intros Hp. unfold count_events. induction reg as [|r reg IH]; [reflexivity|].
  cbn [map List.filter]. unfold authenticate_event at 1. rewrite Hp. exact IH.
Qed.

Lemma login_trace_counts (username : option string) (reg : list (string * string)) :
  count_events is_input (login_trace E username reg) <= 1 /\
  count_events is_getpass (login_trace E username reg) <= 1 /\
  count_events is_http_get (login_trace E username reg) <= 1.
Proof.
  unfold login_trace. destruct (List.filter (needs_login E) reg) as [|r pending].
  - cbn. lia.
  - unfold count_events, login_prompts.
    pose proof (count_authenticate_events is_input username (r :: pending)
                  (fun _ _ _ => eq_refl)) as H1.
    pose proof (count_authenticate_events is_getpass username (r :: pending)
                  (fun _ _ _ => eq_refl)) as H2.
    pose proof (count_authenticate_events is_http_get username (r :: pending)
                  (fun _ _ _ => eq_refl)) as H3.
    unfold count_events in H1, H2, H3.
    remember (map (authenticate_event E username) (r :: pending)) as auths.
    clear Heqauths.
    destruct username as [u|]; cbn [app List.filter is_input is_getpass is_http_get];
      cbn [length]; lia.
Qed.

Lemma login_trace_authenticate (username : option string) (reg : list (string * string))
    (u t : option string) (n : string) :
  In (EAuthenticate u t n) (login_trace E username reg) ->
  u = Some (login_user E username) /\ t = Some (login_token E username) /\
  exists url, In (n, url) reg /\ needs_login E (n, url) = true.
Proof.
  unfold login_trace. destruct (List.filter (needs_login E) reg) as [|r pending] eqn:Hf.
  - intros [].
  - rewrite <- Hf. clear Hf. intros Hin. apply in_app_or in Hin as [Hin|Hin].
    + unfold login_prompts in Hin. destruct username; cbn in Hin;
        repeat (destruct Hin as [Hin|Hin]; [discriminate Hin|]); destruct Hin.
    + apply in_map_iff in Hin as ([n' url] & Heq & Hr).
      unfold authenticate_event in Heq. cbn [fst] in Heq. inversion Heq; subst.
      apply List.filter_In in Hr as [Hr Hn]. eauto.
Qed.

End Login.

Section LoginReturns.

Context (E : env) (Hquiet : quiet E).

Lemma login_round_quiet (username : option string) (st : option string * option string)
    (remote : string * string) (w : world) :
  failing_status E username = false ->
  st = (None, username) \/
  st = (Some (login_token E username), Some (login_user E username)) ->
  exists w',
    login_round E st remote w =
      (Ok (if needs_login E remote
           then (Some (login_token E username), Some (login_user E username))
           else st), w').
Proof.
  intros Hstatus Hst. destruct (needs_login E remote) eqn:Hn.
  2:{ exists w. apply login_round_skip. exact Hn. }
  revert Hn. unfold needs_login, login_round, failing_status in *.
  destruct remote as [name url]. cbn [fst snd].
  destruct (startswith url DL_ARTIFACTORY); cbn [negb andb]; [|intros H; discriminate H].
  destruct (env_get_login E url) as [nm [tok|]]; cbn [snd]; [intros H; discriminate H|].
  intros _. destruct Hst as [->| ->].
  - unfold raise_for_status, bind, call, ret.
    destruct username as [u|]; cbn [login_user] in *;
      repeat (rewrite Hquiet; cbn beta iota); cbn [fst snd]; rewrite Hstatus;
      repeat (rewrite Hquiet; cbn beta iota); eexists; reflexivity.
  - unfold bind, call, ret. repeat (rewrite Hquiet; cbn beta iota).
    eexists. reflexivity.
Qed.

Lemma login_loop_quiet (username : option string) (reg : list (string * string))
    (st : option string * option string) (w : world) :
  failing_status E username = false ->
  st = (None, username) \/
  st = (Some (login_token E username), Some (login_user E username)) ->
  exists st' w', for_fold reg (login_round E) st w = (Ok st', w').
Proof.
  intros Hstatus. revert st w. induction reg as [|r reg IH]; intros st w Hst.
  - exists st, w. reflexivity.
  - destruct (login_round_quiet username st r w Hstatus Hst) as (w1 & Hround).
    cbn [for_fold]. erewrite bind_ok; [|exact Hround].
    apply IH. destruct (needs_login E r); [right; reflexivity|exact Hst].
Qed.

Lemma login_quiet (username : option string) (w : world) :
  failing_status E username = false -> fst (login E username w) = Ok tt.
Proof.
  intros Hstatus. unfold login. erewrite bind_ok; [|reflexivity].
  destruct (login_loop_quiet username (w_remotes w) (None, username) w Hstatus)
    as (st' & w' & Hloop); [left; reflexivity|].
  erewrite bind_ok; [|exact Hloop]. reflexivity.
Qed.

End LoginReturns.

Section LoginTrace.

Context (E : env).

(** When no remote needs login, [login] does nothing at all. *)
Lemma login_loop_nothing (st : option string * option string) (reg : list (string * string))
    (w : world) :
  List.filter (needs_login E) reg = [] -> for_fold reg (login_round E) st w = (Ok st, w).
Proof.
  induction reg as [|r reg IH]; intros Hnone; [reflexivity|].
  cbn [List.filter] in Hnone. destruct (needs_login E r) eqn:Hn; [discriminate Hnone|].
  cbn [for_fold]. erewrite bind_ok; [|apply login_round_skip; exact Hn]. apply IH. exact Hnone.
Qed.

Lemma login_nothing (username : option string) (w : world) :
  List.filter (needs_login E) (w_remotes w) = [] -> login E username w = (Ok tt, w).
Proof.
  intros Hnone. unfold login. erewrite bind_ok; [|reflexivity].
  erewrite bind_ok; [|apply login_loop_nothing; exact Hnone]. reflexivity.
Qed.

Lemma filter_authenticate_events (username : option string) (pending : list (string * string)) :
  List.filter is_authenticate (map (authenticate_event E username) pending) =
  map (authenticate_event E username) pending.
Proof.
  induction pending as [|r pending IH]; [reflexivity|]. cbn [map List.filter].
  unfold authenticate_event at 1. cbn [is_authenticate]. rewrite IH. reflexivity.
Qed.

(** The expected trace of a [login] that has something to do: the user
    name is asked for once when none was given, the password once, the
    credential service once, and each remote without a cached token is
    authenticated once, in the order of the registry. *)
Lemma login_trace_exact (username : option string) (reg : list (string * string)) :
  List.filter (needs_login E) reg <> [] ->
  count_events is_input (login_trace E username reg) =
    match username with Some _ => 0 | None => 1 end /\
  count_events is_getpass (login_trace E username reg) = 1 /\
  count_events is_http_get (login_trace E username reg) = 1 /\
  List.filter is_authenticate (login_trace E username reg) =
    map (authenticate_event E username) (List.filter (needs_login E) reg).
Proof.
  intros Hsome. unfold login_trace.
  destruct (List.filter (needs_login E) reg) as [|r pending]; [contradiction|].
  pose proof (count_authenticate_events E is_input username (r :: pending)
                (fun _ _ _ => eq_refl)) as H1.
  pose proof (count_authenticate_events E is_getpass username (r :: pending)
                (fun _ _ _ => eq_refl)) as H2.
  pose proof (count_authenticate_events E is_http_get username (r :: pending)
                (fun _ _ _ => eq_refl)) as H3.
  pose proof (filter_authenticate_events username (r :: pending)) as H4.
  unfold count_events, login_prompts in *.
  remember (map (authenticate_event E username) (r :: pending)) as auths.
  clear Heqauths.
  destruct username as [u|];
    cbn [app List.filter is_input is_getpass is_http_get is_authenticate length];
    rewrite ?H1, ?H2, ?H3, ?H4; auto.
Qed.

End LoginTrace.

(** C5.  The registry has one remote per URL, as the package manager keeps
    it, so that the cached tokens [login] reads in its loop are those
    present when it starts.  Whatever happens, what [login] logs is a
    prefix of the expected trace: nothing at all when every Artifactory
    remote has a cached token; otherwise the prompts (user name only when
    none was given, password), one request to the credential service, and
    one authentication, with the one user name and the one token, for each
    Artifactory remote that has no cached token.  [login] does make these
    calls: when every Artifactory remote has a cached token it returns at
    once, with no prompt; when no call fails and the credential service
    accepts the password it returns having logged all of the expected
    trace, in which the password prompt and the request appear exactly
    once and every remote without a cached token is authenticated, in the
    order of the registry. *)
Theorem login_prompts_once (E : env) (username : option string) (w : world) :
  NoDup (remote_urls (w_remotes w)) ->
  (exists l,
     w_log (snd (login E username w)) = w_log w ++ l /\
     l `prefix_of` login_trace E username (w_remotes w) /\
     (fst (login E username w) = Ok tt -> l = login_trace E username (w_remotes w)) /\
     count_events is_input l <= 1 /\
     count_events is_getpass l <= 1 /\
     count_events is_http_get l <= 1 /\
     (List.filter (needs_login E) (w_remotes w) = [] -> l = []) /\
     (forall u t n, In (EAuthenticate u t n) l ->
        u = Some (login_user E username) /\ t = Some (login_token E username) /\
        exists url, In (n, url) (w_remotes w) /\ needs_login E (n, url) = true)) /\
  (List.filter (needs_login E) (w_remotes w) = [] -> login E username w = (Ok tt, w)) /\
  (quiet E -> failing_status E username = false ->
   fst (login E username w) = Ok tt /\
   w_log (snd (login E username w)) = w_log w ++ login_trace E username (w_remotes w)) /\
  (List.filter (needs_login E) (w_remotes w) <> [] ->
   count_events is_input (login_trace E username (w_remotes w)) =
     match username with Some _ => 0 | None => 1 end /\
   count_events is_getpass (login_trace E username (w_remotes w)) = 1 /\
   count_events is_http_get (login_trace E username (w_remotes w)) = 1 /\
   List.filter is_authenticate (login_trace E username (w_remotes w)) =
     map (authenticate_event E username) (List.filter (needs_login E) (w_remotes w))).
Proof.
  intros _.
  destruct (login_follows E username w) as (l & Hlog & Hpre & Hok).
  split; [|split; [apply login_nothing|split; [|apply login_trace_exact]]].
  - exists l. split; [exact Hlog|]. split; [exact Hpre|].
    split; [intros Hr; apply (Hok tt Hr)|].
    destruct (login_trace_counts E username (w_remotes w)) as (C1 & C2 & C3).
    pose proof (count_events_prefix is_input _ _ Hpre).
    pose proof (count_events_prefix is_getpass _ _ Hpre).
    pose proof (count_events_prefix is_http_get _ _ Hpre).
    repeat (split; [lia|]).
    split.
    + intros Hnone. unfold login_trace in Hpre. rewrite Hnone in Hpre.
      apply prefix_nil_inv in Hpre. exact Hpre.
    + intros u t n Hin. apply (login_trace_authenticate E username (w_remotes w)).
      destruct Hpre as [k ->]. apply in_or_app. left. exact Hin.
  - intros Hq Hstatus. pose proof (login_quiet E Hq username w Hstatus) as Hres.
    split; [exact Hres|]. destruct (Hok tt Hres) as [-> _]. exact Hlog.
Qed.

(** On the sample machine, with no cached token: [login] returns after
    one prompt for the user name, one for the password, one request, and
    the authentication of the three Artifactory remotes. *)
Lemma login_prompts_once_witness :
  fst (login quiet_env None (empty_world remotes)) = Ok tt /\
  w_log (snd (login quiet_env None (empty_world remotes))) =
    login_trace quiet_env None remotes /\
  count_events is_getpass (login_trace quiet_env None remotes) = 1 /\
  List.filter is_authenticate (login_trace quiet_env None remotes) =
    [EAuthenticate (Some "kam") (Some "AKCp5") "conan-redirect";
     EAuthenticate (Some "kam") (Some "AKCp5") "conan-ext";
     EAuthenticate (Some "kam") (Some "AKCp5") "conan-local"].
Proof.
  destruct (login_prompts_once quiet_env None (empty_world remotes) remotes_urls_NoDup)
    as (_ & _ & Hret & Hexact).
  destruct (Hret quiet_env_quiet eq_refl) as [Hres Hlog].
  destruct Hexact as (_ & Hpass & _ & Hauth); [vm_compute; discriminate|].
  split; [exact Hres|]. split; [exact Hlog|]. split; [exact Hpass|].
  etransitivity; [exact Hauth|]. vm_compute. reflexivity.
Defined.

(** With the token of [conan-ext] cached, the user is asked once and the
    other two Artifactory remotes are authenticated with the one token. *)
Example login_with_one_cached :
  w_log (snd (login
     (with_get_login (fun url => if String.eqb url (DL_ARTIFACTORY +:+ "/api/conan/conan-ext")
                                 then (Some "kam", Some "cached") else (None, None)) quiet_env)
     None (empty_world remotes))) =
  [EHighlight PASSWORD_MESSAGE;
   EInput "Enter your Artifactory username [kam]: ";
   EGetPass "Enter encrypted password for kam on http://artifactory.dlogics.com:8081/artifactory: ";
   EHttpGet "http://artifactory.dlogics.com:8081/artifactory/api/security/encryptedPassword"
     "kam" "secret";
   EAuthenticate (Some "kam") (Some "AKCp5") "conan-redirect";
   EAuthenticate (Some "kam") (Some "AKCp5") "conan-local"].
Proof. vm_compute. reflexivity. Qed.

Example login_all_cached :
  login (with_get_login (fun _ => (Some "kam", Some "cached")) quiet_env) None
    (empty_world remotes) = (Ok tt, empty_world remotes).
Proof. vm_compute. reflexivity. Qed.

(** ** Errors: what is propagated and what is handled *)

Section Errors.

Context (E : env).

Lemma follows_never_returns {A} (m : M A) (w : world) (t : list event) :
  follows m w t (fun _ => False) -> exists x, fst (m w) = Raise x.
Proof.
  intros (l & _ & _ & Hok). destruct (fst (m w)) as [a|x]; [|eauto].
  destruct (Hok a eq_refl) as [_ []].
Qed.

Lemma login_round_http_error (username : option string) (remote : string * string)
    (w : world) :
  needs_login E remote = true -> failing_status E username = true ->
  follows (login_round E (None, username) remote) w (login_prompts E username)
    (fun _ => False).
Proof.
  unfold needs_login, login_round, failing_status. destruct remote as [name url].
  cbn [fst snd].
  destruct (startswith url DL_ARTIFACTORY); cbn [negb andb]; [|intros H; discriminate H].
  destruct (env_get_login E url) as [nm [tok|]]; cbn [snd]; [intros H; discriminate H|].
  intros _ Hfail.
  rewrite <- (app_nil_r (login_prompts E username)).
  eapply follows_bind with (P := fun _ => False); [|intros st w1 _ []].
  unfold login_prompts.
  change (EHighlight PASSWORD_MESSAGE :: ?l) with ([EHighlight PASSWORD_MESSAGE] ++ l).
  eapply follows_bind; [apply follows_call|]. intros _ w1 _ _.
  eapply follows_bind with (P := fun u => u = login_user E username).
  - destruct username as [u|]; cbn [login_user].
    + apply follows_ret. reflexivity.
    + rewrite <- (app_nil_r [EInput _]).
      eapply follows_bind; [apply follows_call|]. intros _ w2 _ _.
      apply follows_ret. reflexivity.
  - intros u w2 _ ->.
    change [?a; ?b] with ([a] ++ [b] ++ [] ++ []).
    eapply follows_bind; [apply follows_call|]. intros _ w3 _ _.
    eapply follows_bind; [apply follows_call|]. intros _ w4 _ _.
    eapply follows_bind with (P := fun _ => False); [|intros _ w5 _ []].
    unfold raise_for_status. rewrite Hfail. apply follows_raise.
Qed.

Lemma login_loop_http_error (username : option string) (reg : list (string * string))
    (w : world) :
  (exists r, In r reg /\ needs_login E r = true) -> failing_status E username = true ->
  follows (for_fold reg (login_round E) (None, username)) w (login_prompts E username)
    (fun _ => False).
Proof.
  intros Hex Hfail. revert w. induction reg as [|r reg IH]; intros w.
  - destruct Hex as (r & [] & _).
  - cbn [for_fold]. destruct (needs_login E r) eqn:Hn.
    + rewrite <- (app_nil_r (login_prompts E username)).
      eapply follows_bind; [apply login_round_http_error; assumption|].
      intros st w1 _ [].
    + apply (follows_trace _ _ ([] ++ login_prompts E username)); [reflexivity|].
      eapply follows_bind;
        [apply (follows_returned _ _ _ (fun st => st = (None, username))
                  (login_round_skip E _ _ _ Hn) eq_refl)|].
      intros st w1 _ ->. apply IH.
      destruct Hex as (r' & [->|Hin] & Hr'); [congruence|eauto].
Qed.

Lemma login_http_error (username : option string) (w : world) :
  (exists r, In r (w_remotes w) /\ needs_login E r = true) ->
  failing_status E username = true ->
  follows (login E username) w (login_prompts E username) (fun _ => False).
Proof.
  intros Hex Hfail. unfold login.
  apply (follows_trace _ _ ([] ++ login_prompts E username ++ []));
    [apply app_nil_r|].
  eapply follows_bind;
    [apply (follows_returned remote_list w (w_remotes w) (fun reg => reg = w_remotes w));
     reflexivity|].
  intros reg w1 Hrl ->. inversion Hrl; subst w1.
  eapply follows_bind with (P := fun _ => False);
    [apply login_loop_http_error; assumption|].
  intros _ w2 _ [].
Qed.

(** When no call fails by itself, the exception is the one of the status
    check. *)
Lemma login_round_quiet_http_error (username : option string) (remote : string * string)
    (w : world) :
  quiet E -> needs_login E remote = true -> failing_status E username = true ->
  fst (login_round E (None, username) remote w) =
    Raise (HTTPError (fst (env_http E (login_user E username) (env_password E)))).
Proof.
  intros Hq. unfold needs_login, login_round, failing_status. destruct remote as [name url].
  cbn [fst snd].
  destruct (startswith url DL_ARTIFACTORY); cbn [negb andb]; [|intros H; discriminate H].
  destruct (env_get_login E url) as [nm [tok|]]; cbn [snd]; [intros H; discriminate H|].
  intros _ Hfail. unfold raise_for_status, bind, call, ret.
  destruct username as [u|]; cbn [login_user] in *;
    repeat (rewrite Hq; cbn beta iota); cbn [fst snd]; rewrite Hfail; reflexivity.
Qed.

Lemma login_quiet_http_error (username : option string) (w : world) :
  quiet E -> (exists r, In r (w_remotes w) /\ needs_login E r = true) ->
  failing_status E username = true ->
  fst (login E username w) =
    Raise (HTTPError (fst (env_http E (login_user E username) (env_password E)))).
Proof.
  intros Hq Hex Hfail. unfold login, remote_list, bind at 1.
  generalize dependent w. intros w. generalize (w_remotes w) as reg.
  intros reg. revert w. induction reg as [|r reg IH]; intros w Hex.
  - destruct Hex as (r & [] & _).
  - unfold bind at 1. cbn [for_fold]. destruct (needs_login E r) eqn:Hn.
    + pose proof (login_round_quiet_http_error username r w Hq Hn Hfail) as Hr.
      unfold bind. destruct (login_round E (None, username) r w) as [[st|x] w1];
        cbn [fst] in Hr; [discriminate Hr|]. inversion Hr. reflexivity.
    + erewrite bind_ok; [|apply login_round_skip; exact Hn].
      specialize (IH w). unfold bind at 1 in IH. apply IH.
      destruct Hex as (r' & [->|Hin] & Hr'); [congruence|eauto].
Qed.

Lemma tools_deps_env_info_missing (w : world) :
  env_deps_env_info E = None -> exists x, fst (tools_deps_env_info E w) = Raise x.
Proof.
  intros Hnone. unfold tools_deps_env_info, open_file. rewrite Hnone.
  unfold bind, call, raise.
  destruct (env_fails E (w_log w) EInstallBuildTools); [eauto|].
  destruct (env_fails E _ (EOpen _)); eauto.
Qed.

Lemma cmake_generator_missing (w : world) :
  env_cmake_cache E = None -> exists x, fst (cmake_generator E w) = Raise x.
Proof.
  intros Hnone. rewrite cmake_generator_lacking by (rewrite Hnone; reflexivity).
  rewrite Hnone. cbn [fst]. destruct (env_fails E _ _); eauto.
Qed.

Lemma check_long_paths_missing_key (w : world) (x : exn) :
  env_platform E = Win32 -> env_fails E (w_log w) EOpenKey = Some x ->
  check_long_paths E w = (Raise x, log_event EOpenKey w).
Proof.
  intros Hp Hf. unfold check_long_paths. rewrite Hp.
  erewrite bind_raise; [reflexivity|]. apply call_fails. exact Hf.
Qed.

Lemma check_long_paths_missing_value (w : world) :
  env_platform E = Win32 ->
  env_fails E (w_log w) EOpenKey = None ->
  env_fails E (w_log w ++ [EOpenKey]) (EQueryValueEx "LongPathsEnabled")
    = Some FileNotFoundError ->
  (forall h e, In e LONG_PATHS_WARNINGS -> env_fails E h e = None) ->
  fst (check_long_paths E w) = Ok tt /\
  w_log (snd (check_long_paths E w)) =
    w_log w ++ [EOpenKey; EQueryValueEx "LongPathsEnabled"] ++ LONG_PATHS_WARNINGS
            ++ [ECloseKey].
Proof.
  intros Hp Hopen Hquery Hwarn. unfold check_long_paths. rewrite Hp.
  erewrite bind_ok; [|apply call_quiet; exact Hopen].
  unfold finally, try_except, bind, call. cbn [log_event w_log].
  rewrite Hquery. cbn [is_FileNotFoundError ret Nat.eqb].
  rewrite !Hwarn by (cbn; auto). cbn. rewrite <- !app_assoc. auto.
Qed.

Lemma check_long_paths_other_error (w : world) (x : exn) :
  env_platform E = Win32 ->
  env_fails E (w_log w) EOpenKey = None ->
  env_fails E (w_log w ++ [EOpenKey]) (EQueryValueEx "LongPathsEnabled") = Some x ->
  is_FileNotFoundError x = false ->
  fst (check_long_paths E w) = Raise x.
Proof.
  intros Hp Hopen Hquery Hx. unfold check_long_paths. rewrite Hp.
  erewrite bind_ok; [|apply call_quiet; exact Hopen].
  unfold finally, try_except, bind, call. cbn [log_event w_log].
  rewrite Hquery, Hx. reflexivity.
Qed.

End Errors.

(** C7. Errors travel up to the task.  In [login], when the credential
    service answers with an error status and some remote needs login, the
    task raises at the latest at the status check, having logged no more
    than the prompts (so no remote is authenticated); when no call fails by
    itself the exception is the HTTP error of the status check.  A missing
    file raises in [tools_deps_env_info] and in [cmake_generator], and a
    registry key that cannot be opened raises in [check_long_paths].  The
    one handler: a missing [LongPathsEnabled] value is read as disabled, the
    two warnings are printed and [check_long_paths] returns; any other
    exception of the query is raised. *)
Theorem errors_propagate (E : env) (w : world) :
  (forall username, failing_status E username = true ->
     (exists r, In r (w_remotes w) /\ needs_login E r = true) ->
     (exists x, fst (login E username w) = Raise x) /\
     (exists l, w_log (snd (login E username w)) = w_log w ++ l /\
                l `prefix_of` login_prompts E username) /\
     (quiet E ->
      fst (login E username w) =
        Raise (HTTPError (fst (env_http E (login_user E username) (env_password E)))))) /\
  (env_deps_env_info E = None -> exists x, fst (tools_deps_env_info E w) = Raise x) /\
  (env_cmake_cache E = None -> exists x, fst (cmake_generator E w) = Raise x) /\
  (env_platform E = Win32 ->
   forall x, env_fails E (w_log w) EOpenKey = Some x ->
             check_long_paths E w = (Raise x, log_event EOpenKey w)) /\
  (env_platform E = Win32 ->
   env_fails E (w_log w) EOpenKey = None ->
   env_fails E (w_log w ++ [EOpenKey]) (EQueryValueEx "LongPathsEnabled")
     = Some FileNotFoundError ->
   (forall h e, In e LONG_PATHS_WARNINGS -> env_fails E h e = None) ->
   fst (check_long_paths E w) = Ok tt /\
   w_log (snd (check_long_paths E w)) =
     w_log w ++ [EOpenKey; EQueryValueEx "LongPathsEnabled"] ++ LONG_PATHS_WARNINGS
             ++ [ECloseKey]) /\
  (env_platform E = Win32 ->
   env_fails E (w_log w) EOpenKey = None ->
   forall x, env_fails E (w_log w ++ [EOpenKey]) (EQueryValueEx "LongPathsEnabled") = Some x ->
             is_FileNotFoundError x = false ->
             fst (check_long_paths E w) = Raise x).
Proof.
  split; [|split; [|split; [|split; [|split]]]].
  - intros username Hfail Hex.
    pose proof (login_http_error E username w Hex Hfail) as Hfol.
    split; [exact (follows_never_returns _ _ _ Hfol)|].
    split; [destruct Hfol as (l & Hlog & Hpre & _); eauto|].
    intros Hq. apply login_quiet_http_error; assumption.
  - apply tools_deps_env_info_missing.
  - apply cmake_generator_missing.
  - intros Hp x Hf. apply check_long_paths_missing_key; assumption.
  - apply check_long_paths_missing_value.
  - intros Hp Hopen x Hq Hx. eapply check_long_paths_other_error; eassumption.
Qed.

(** A refused password aborts [login] after the request; a registry
    without the value lets [check_long_paths] return after its warnings. *)
Lemma errors_propagate_witness :
  login (with_http (fun _ _ => (401, "Unauthorized")) quiet_env) (Some "kam")
    (empty_world remotes) =
  (Raise (HTTPError 401),
   {| w_remotes := remotes; w_live := []; w_next := 0;
      w_log := login_prompts (with_http (fun _ _ => (401, "Unauthorized")) quiet_env)
                 (Some "kam") |}) /\
  fst (check_long_paths no_long_paths_value_env (empty_world [])) = Ok tt.
Proof.
  split; [vm_compute; reflexivity|].
  pose proof (errors_propagate no_long_paths_value_env (empty_world []))
    as (_ & _ & _ & _ & Hvalue & _).
  apply Hvalue; try reflexivity.
  intros h e [<-|[<-|[]]]; reflexivity.
Defined.

(** ** Dependency promotion *)

(** A call followed by more: the trace starts with that call. *)
Ltac step_call :=
  match goal with
  | |- follows (bind (call _ _) _) _ (?a :: ?l) _ =>
      apply (follows_trace _ _ ([a] ++ l) (a :: l) _ eq_refl);
      eapply follows_bind; [apply follows_call | intros _ ? _ _]
  end.

Section Promotion.

Context (E : env).

Lemma for_each_follows {A} (xs : list A) (body : A -> M unit) (tr : A -> list event)
    (w : world) :
  (forall x w1, follows (body x) w1 (tr x) (fun _ => True)) ->
  follows (for_each xs body) w (concat (map tr xs)) (fun _ => True).
Proof.
  intros Hbody. revert w. induction xs as [|x xs IH]; intros w; cbn [for_each map concat].
  - apply follows_ret. exact I.
  - eapply follows_bind; [apply Hbody|]. intros _ w1 _ _. apply IH.
Qed.

Lemma upload_dependency_follows (remote_refs : list (string * string)) (d : dependency)
    (w : world) :
  follows (upload_dependency E remote_refs d) w (upload_dependency_trace remote_refs d)
    (fun _ => True).
Proof.
  unfold upload_dependency, upload_dependency_trace.
  destruct (dep_alias d); [apply follows_ret; exact I|].
  unfold promotion_calls, dl_reference. cbn [app].
  step_call. step_call.
  eapply follows_bind.
  { destruct (mem (repr d) (map fst remote_refs));
      [apply follows_call|apply follows_ret; exact I]. }
  intros _ w3 _ _.
  step_call. step_call.
  apply follows_call.
Qed.

(** The two [continue]s of [stable_non_local_dependencies] keep the
    promotable dependencies. *)
Lemma stable_non_local_filter (d : dependency) :
  (if String.eqb (dep_user d) "datalogics" || String.eqb (dep_user d) (env_os_user E)
   then false
   else if negb (String.eqb (dep_channel d) "stable") then false else true)
  = promotable E d.
Proof.
  unfold promotable, STABLE_USERNAME.
  destruct (String.eqb (dep_user d) "datalogics"), (String.eqb (dep_user d) (env_os_user E)),
    (String.eqb (dep_channel d) "stable"); reflexivity.
Qed.

Lemma stable_non_local_dependencies_follows (w : world) :
  follows (stable_non_local_dependencies E) w [EGraphInfo]
    (fun deps => deps = List.filter (promotable E) (env_dependencies E)).
Proof.
  unfold stable_non_local_dependencies, dependencies.
  rewrite <- (app_nil_r [EGraphInfo]).
  eapply follows_bind with (P := fun deps => deps = env_dependencies E).
  - rewrite <- (app_nil_r [EGraphInfo]).
    eapply follows_bind; [apply follows_call|]. intros _ w1 _ _.
    apply follows_ret. reflexivity.
  - intros deps w1 _ ->. apply follows_ret.
    apply List.filter_ext. intros d. apply stable_non_local_filter.
Qed.

Lemma upload_dependencies_follows (w : world) :
  follows (upload_dependencies_internal E) w
    (upload_dependencies_trace E (env_remote_refs E (w_log w))) (fun _ => True).
Proof.
  unfold upload_dependencies_internal, upload_dependencies_trace.
  apply (follows_trace _ _ ([] ++ [EGraphInfo] ++ 
           concat (map (upload_dependency_trace (env_remote_refs E (w_log w)))
                     (List.filter (promotable E) (env_dependencies E))))); [reflexivity|].
  eapply follows_bind;
    [apply (follows_returned (remote_list_ref E) w (env_remote_refs E (w_log w))
              (fun refs => refs = env_remote_refs E (w_log w))); reflexivity|].
  intros refs w1 Hrl ->. inversion Hrl; subst w1.
  eapply follows_bind; [apply stable_non_local_dependencies_follows|].
  intros deps w2 _ ->. apply for_each_follows. intros d w3.
  apply upload_dependency_follows.
Qed.

Lemma concat_map_block {A B} (f : A -> list B) (x : A) (xs : list A) :
  In x xs -> exists before after, concat (map f xs) = before ++ f x ++ after.
Proof.
  intros Hin. apply in_split in Hin as (l1 & l2 & ->).
  exists (concat (map f l1)), (concat (map f l2)).
  rewrite map_app, concat_app. reflexivity.
Qed.

Lemma promotion_calls_promoted (remote_refs : list (string * string)) (d : dependency)
    (before after : list event) :
  promoted d (before ++ promotion_calls remote_refs d ++ after).
Proof.
  unfold promoted, promotion_calls.
  repeat split; apply in_or_app; right; apply in_or_app; left;
    destruct (mem (repr d) (map fst remote_refs)); cbn; auto 10.
Qed.

End Promotion.

(** C1, as the code has it.  When [upload_dependencies] returns, every
    resolved dependency whose channel is [stable], whose user is neither
    [datalogics] nor the local OS user, and which is not itself an alias,
    has been promoted by one run of calls in this order: copy under the
    stable identity, upload of the copy to [conan-ext], (update of the
    recorded remote when the reference has one,) removal of the original
    from the local cache, export of an alias from the original reference to
    the copy, upload of the alias to [conan-redirect]. *)
Theorem upload_dependencies_promotes (E : env) (w w' : world) :
  upload_dependencies E w = (Ok tt, w') ->
  forall d, In d (env_dependencies E) -> promotable E d = true -> dep_alias d = None ->
    (exists before after,
       w_log w' = before ++ promotion_calls (env_remote_refs E (w_log w)) d ++ after) /\
    promoted d (w_log w').
Proof.
  intros Hrun d Hin Hp Halias.
  destruct (upload_dependencies_follows E w) as (l & Hlog & _ & Hok).
  unfold upload_dependencies in Hrun. rewrite Hrun in Hlog, Hok. cbn [fst snd] in *.
  destruct (Hok tt eq_refl) as [-> _].
  assert (Hd : In d (List.filter (promotable E) (env_dependencies E)))
    by (apply List.filter_In; auto).
  destruct (concat_map_block (upload_dependency_trace (env_remote_refs E (w_log w))) d _ Hd)
    as (l1 & l2 & Hblock).
  unfold upload_dependencies_trace in Hlog. rewrite Hblock in Hlog.
  unfold upload_dependency_trace in Hlog. rewrite Halias in Hlog.
  assert (Heq : w_log w' = (w_log w ++ [EGraphInfo] ++ l1) ++
                           promotion_calls (env_remote_refs E (w_log w)) d ++ l2)
    by (rewrite Hlog, <- !app_assoc; reflexivity).
  split; [eauto|]. rewrite Heq. apply promotion_calls_promoted.
Qed.

Lemma upload_dependencies_promotes_witness :
  promoted zlib_stable (w_log (snd (upload_dependencies quiet_env (empty_world remotes)))).
Proof.
  refine (proj2 (upload_dependencies_promotes quiet_env (empty_world remotes)
                   (snd (upload_dependencies quiet_env (empty_world remotes)))
                   _ zlib_stable _ _ _)); vm_compute; auto.
Defined.

(** A stable dependency of another user that is an alias is skipped: none
    of the promotion calls is made for it. *)
Lemma upload_dependencies_alias_counterexample :
  fst (upload_dependencies (with_dependencies [zlib_alias] quiet_env) (empty_world remotes))
    = Ok tt /\
  In zlib_alias (env_dependencies (with_dependencies [zlib_alias] quiet_env)) /\
  promotable (with_dependencies [zlib_alias] quiet_env) zlib_alias = true /\
  ~ promoted zlib_alias
      (w_log (snd (upload_dependencies (with_dependencies [zlib_alias] quiet_env)
                     (empty_world remotes)))).
Proof.
  split; [reflexivity|]. split; [left; reflexivity|]. split; [reflexivity|].
  intros [Hcopy _]. vm_compute in Hcopy. destruct Hcopy as [Hc|[]]. discriminate Hc.
Qed.

(** ** Temporary directories and the blocks that hold them *)

Section Scopes.

Context (E : env).

Lemma leaked_app (h l1 l2 : list event) :
  leaked E h (l1 ++ l2) = leaked E h l1 ++ leaked E (h ++ l1) l2.
Proof.
  revert h. induction l1 as [|e l1 IH]; intros h; cbn [app leaked].
  - rewrite app_nil_r. reflexivity.
  - rewrite IH, <- app_assoc. cbn [app].
    destruct (cleanup_of e) as [d|]; [destruct (env_fails E h e)|]; reflexivity.
Qed.

Lemma leaked_one (h : list event) (e : event) : cleanup_of e = None -> leaked E h [e] = [].
Proof. intros He. cbn [leaked]. rewrite He. reflexivity. Qed.

Lemma cleanup_of_inv (e : event) (d : nat) : cleanup_of e = Some d -> e = ECleanup d.
Proof. destruct e; intros H; inversion H. reflexivity. Qed.

(** When no removal raises, no directory is left. *)
Lemma leaked_none (h l : list event) : cleanup_ok E -> leaked E h l = [].
Proof.
  intros Hok. revert h. induction l as [|e l IH]; intros h; [reflexivity|].
  cbn [leaked]. destruct (cleanup_of e) as [d|] eqn:He; [|apply IH].
  apply cleanup_of_inv in He. subst e. rewrite Hok. apply IH.
Qed.

(** A computation that makes no directory and adds [l] to the log, none of
    it a removal that raised. *)
Lemma scoped_from_same {A} (m : M A) (w : world) (l : list event) :
  w_log (snd (m w)) = w_log w ++ l ->
  w_next (snd (m w)) = w_next w ->
  w_live (snd (m w)) = w_live w ->
  leaked E (w_log w) l = [] ->
  scoped_from E m w.
Proof.
  intros Hlog Hnext Hlive Hleak. exists l, []. rewrite Hnext, Hlive, Hleak.
  split; [exact Hlog|]. split; [lia|]. split; [reflexivity|].
  split; [tauto|]. split; [intros d []|]. intros d Hd. lia.
Qed.

Lemma scoped_ret {A} (a : A) : scoped E (ret a).
Proof.
  intros w _. apply (scoped_from_same _ _ []); try reflexivity.
  cbn. rewrite app_nil_r. reflexivity.
Qed.

Lemma scoped_raise {A} (x : exn) : scoped E (@raise A x).
Proof.
  intros w _. apply (scoped_from_same _ _ []); try reflexivity.
  cbn. rewrite app_nil_r. reflexivity.
Qed.

Lemma scoped_call (e : event) : cleanup_of e = None -> scoped E (call E e).
Proof.
  intros He w _. apply (scoped_from_same _ _ [e]).
  - apply call_log.
  - unfold call. destruct (env_fails E (w_log w) e); reflexivity.
  - unfold call. destruct (env_fails E (w_log w) e); reflexivity.
  - apply leaked_one. exact He.
Qed.

Lemma scoped_from_fresh {A} (m : M A) (w : world) :
  tmp_fresh w -> scoped_from E m w -> tmp_fresh (snd (m w)).
Proof.
  intros Hw (l & stuck & _ & Hnext & Hlive & _ & Hrange & _) d Hd.
  rewrite Hlive in Hd. apply in_app_or in Hd as [Hd|Hd].
  - apply Hrange in Hd. lia.
  - apply Hw in Hd. lia.
Qed.

(** One computation after another, the second from the world [w1] the
    first one left. *)
Lemma scoped_from_then {A B} (m : M A) (k : M B) (w w1 w2 : world) :
  snd (m w) = w1 -> snd (k w1) = w2 ->
  scoped_from E m w -> scoped_from E k w1 ->
  exists l stuck,
    w_log w2 = w_log w ++ l /\
    w_next w <= w_next w2 /\
    w_live w2 = stuck ++ w_live w /\
    (forall d, In d stuck <-> In d (leaked E (w_log w) l)) /\
    (forall d, In d stuck -> w_next w <= d < w_next w2) /\
    (forall d, w_next w <= d < w_next w2 -> In (ECleanup d) l).
Proof.
  intros Hm Hk (l1 & s1 & Hlog1 & Hnext1 & Hlive1 & Hleak1 & Hrange1 & Hclean1)
    (l2 & s2 & Hlog2 & Hnext2 & Hlive2 & Hleak2 & Hrange2 & Hclean2).
  rewrite Hm in *. rewrite Hk in *.
  exists (l1 ++ l2), (s2 ++ s1).
  split; [rewrite Hlog2, Hlog1, app_assoc; reflexivity|].
  split; [lia|].
  split; [rewrite Hlive2, Hlive1, app_assoc; reflexivity|].
  split.
  { intros d. rewrite leaked_app, <- Hlog1. specialize (Hleak1 d). specialize (Hleak2 d).
    rewrite !List.in_app_iff. tauto. }
  split.
  { intros d Hd. apply in_app_or in Hd as [Hd|Hd];
      [apply Hrange2 in Hd|apply Hrange1 in Hd]; lia. }
  intros d Hd. apply in_or_app. destruct (Nat.lt_ge_cases d (w_next w1)).
  - left. apply Hclean1. lia.
  - right. apply Hclean2. lia.
Qed.

Lemma scoped_bind {A B} (m : M A) (f : A -> M B) :
  scoped E m -> (forall a, scoped E (f a)) -> scoped E (bind m f).
Proof.
  intros Hm Hf w Hw. pose proof (scoped_from_fresh m w Hw (Hm w Hw)) as Hw1.
  specialize (Hm w Hw). unfold scoped_from at 1. unfold bind.
  destruct (m w) as [[a|x] w1] eqn:Hmw; cbn [snd] in Hw1.
  - apply (scoped_from_then m (f a) w w1); [rewrite Hmw; reflexivity|reflexivity|exact Hm|].
    apply Hf. exact Hw1.
  - unfold scoped_from in Hm. rewrite Hmw in Hm. exact Hm.
Qed.

Lemma scoped_for_each {A} (xs : list A) (body : A -> M unit) :
  (forall x, scoped E (body x)) -> scoped E (for_each xs body).
Proof.
  intros Hbody. induction xs as [|x xs IH]; cbn [for_each].
  - apply scoped_ret.
  - apply scoped_bind; [apply Hbody|]. intros _. exact IH.
Qed.

Lemma scoped_for_fold {A S} (xs : list A) (body : S -> A -> M S) (s : S) :
  (forall s x, scoped E (body s x)) -> scoped E (for_fold xs body s).
Proof.
  intros Hbody. revert s. induction xs as [|x xs IH]; intros s; cbn [for_fold].
  - apply scoped_ret.
  - apply scoped_bind; [apply Hbody|]. intros s'. apply IH.
Qed.

Lemma scoped_try_except {A} (m h : M A) (catches : exn -> bool) :
  scoped E m -> scoped E h -> scoped E (try_except m catches h).
Proof.
  intros Hm Hh w Hw. pose proof (scoped_from_fresh m w Hw (Hm w Hw)) as Hw1.
  specialize (Hm w Hw). unfold scoped_from at 1. unfold try_except.
  destruct (m w) as [[a|x] w1] eqn:Hmw; cbn [snd] in Hw1.
  - unfold scoped_from in Hm. rewrite Hmw in Hm. exact Hm.
  - destruct (catches x).
    + apply (scoped_from_then m h w w1); [rewrite Hmw; reflexivity|reflexivity|exact Hm|].
      apply Hh. exact Hw1.
    + unfold scoped_from in Hm. rewrite Hmw in Hm. exact Hm.
Qed.

(** The exit of a block runs however the block ends. *)
Lemma scoped_with_exit {A} (body : M A) (exit : M unit) :
  scoped E body -> scoped E exit -> scoped E (with_exit body exit).
Proof.
  intros Hbody Hexit w Hw. pose proof (scoped_from_fresh body w Hw (Hbody w Hw)) as Hw1.
  specialize (Hbody w Hw). unfold scoped_from at 1. unfold with_exit.
  destruct (body w) as [r w1] eqn:Hb. cbn [snd] in Hw1. specialize (Hexit w1 Hw1).
  assert (Hthen := scoped_from_then body exit w w1 (snd (exit w1))).
  rewrite Hb in Hthen. specialize (Hthen eq_refl eq_refl Hbody Hexit).
  destruct (exit w1) as [[u|x] w2]; exact Hthen.
Qed.

Lemma scoped_finally_log {A} (m : M A) (e : event) :
  cleanup_of e = None -> scoped E m -> scoped E (finally m (log_event e)).
Proof.
  intros He Hm w Hw.
  destruct (Hm w Hw) as (l & stuck & Hlog & Hnext & Hlive & Hleak & Hrange & Hclean).
  unfold scoped_from, finally. destruct (m w) as [r w1]. cbn [snd log_event w_log w_next w_live] in *.
  exists (l ++ [e]), stuck. split; [rewrite Hlog, app_assoc; reflexivity|].
  split; [exact Hnext|]. split; [exact Hlive|]. split.
  { intros d. rewrite leaked_app, leaked_one, app_nil_r by exact He. apply Hleak. }
  split; [exact Hrange|]. intros d Hd. apply in_or_app. left. apply Hclean. exact Hd.
Qed.

Lemma filter_others (d : nat) (l : list nat) :
  (forall x, In x l -> x <> d) -> List.filter (fun x => negb (Nat.eqb x d)) l = l.
Proof.
  induction l as [|x l IH]; intros Hl; [reflexivity|]. cbn [List.filter].
  assert (Hx : x <> d) by (apply Hl; left; reflexivity).
  apply Nat.eqb_neq in Hx. rewrite Hx. cbn [negb].
  rewrite IH; [reflexivity|]. intros y Hy. apply Hl. right. exact Hy.
Qed.

(** A [with tempfile.TemporaryDirectory()] block: the removal of its
    directory is called when the block is left, by return or by exception,
    and the directory stays only when that call raises. *)
Lemma scoped_with_tempdir {A} (body : path -> M A) :
  (forall p, scoped E (body p)) -> scoped E (with_tempdir E body).
Proof.
  intros Hbody w Hw. unfold scoped_from, with_tempdir, bind, call.
  destruct (env_fails E (w_log w) (EMkdtemp (w_next w))) as [x|].
  { exists [EMkdtemp (w_next w)], []. cbn [snd log_event w_log w_next w_live].
    split; [reflexivity|]. split; [lia|]. split; [reflexivity|].
    split; [rewrite leaked_one by reflexivity; tauto|]. split; [intros d []|].
    intros d Hd. lia. }
  set (d0 := w_next w).
  set (w1 := add_tmp d0 (log_event (EMkdtemp d0) w)).
  assert (Hw1 : tmp_fresh w1).
  { intros d [<-|Hd]; cbn; [lia|]. specialize (Hw d Hd). fold d0 in Hw. lia. }
  destruct (Hbody (PTmp d0) w1 Hw1)
    as (l2 & s2 & Hlog2 & Hnext2 & Hlive2 & Hleak2 & Hrange2 & Hclean2).
  unfold with_exit, cleanup. destruct (body (PTmp d0) w1) as [r w2]. cbn [snd] in *.
  assert (Hlogw2 : w_log w2 = (w_log w ++ [EMkdtemp d0]) ++ l2) by exact Hlog2.
  assert (Hnextw2 : S d0 <= w_next w2) by exact Hnext2.
  assert (Hlivew2 : w_live w2 = s2 ++ d0 :: w_live w) by exact Hlive2.
  assert (Hleakw2 : forall d, In d s2 <-> In d (leaked E (w_log w ++ [EMkdtemp d0]) l2))
    by exact Hleak2.
  assert (Hrangew2 : forall d, In d s2 -> S d0 <= d < w_next w2) by exact Hrange2.
  assert (Hcleanw2 : forall d, S d0 <= d < w_next w2 -> In (ECleanup d) l2) by exact Hclean2.
  assert (Hcalls : forall d, d0 <= d < w_next w2 ->
                     In (ECleanup d) ([EMkdtemp d0] ++ l2 ++ [ECleanup d0])).
  { intros d Hd. apply in_or_app. right. apply in_or_app.
    destruct (Nat.eq_dec d d0) as [->|Hne]; [right; left; reflexivity|].
    left. apply Hcleanw2. lia. }
  destruct (env_fails E (w_log w2) (ECleanup d0)) as [y|] eqn:Hy;
    cbn [snd log_event del_tmp w_log w_next w_live].
  - exists ([EMkdtemp d0] ++ l2 ++ [ECleanup d0]), (s2 ++ [d0]).
    split; [rewrite Hlogw2, <- !app_assoc; reflexivity|].
    split; [lia|].
    split; [rewrite Hlivew2, <- app_assoc; reflexivity|].
    split.
    { intros d. rewrite !leaked_app, leaked_one by reflexivity. cbn [app].
      rewrite <- Hlogw2. cbn [leaked cleanup_of]. rewrite Hy.
      specialize (Hleakw2 d). rewrite !List.in_app_iff. tauto. }
    split; [|exact Hcalls].
    intros d Hd. apply in_app_or in Hd as [Hd|[<-|[]]]; [apply Hrangew2 in Hd|]; lia.
  - exists ([EMkdtemp d0] ++ l2 ++ [ECleanup d0]), s2.
    split; [rewrite Hlogw2, <- !app_assoc; reflexivity|].
    split; [lia|].
    split.
    { rewrite Hlivew2, List.filter_app. cbn [List.filter]. rewrite Nat.eqb_refl. cbn [negb].
      rewrite !filter_others; [reflexivity| |].
      - intros x Hx. specialize (Hw x Hx). fold d0 in Hw. lia.
      - intros x Hx. apply Hrangew2 in Hx. lia. }
    split.
    { intros d. rewrite !leaked_app, leaked_one by reflexivity. cbn [app].
      rewrite <- Hlogw2. cbn [leaked cleanup_of]. rewrite Hy, app_nil_r. apply Hleakw2. }
    split; [|exact Hcalls].
    intros d Hd. apply Hrangew2 in Hd. lia.
Qed.

Lemma scoped_with_environment {A} (vars : list (string * path)) (body : M A) :
  scoped E body -> scoped E (with_environment E vars body).
Proof.
  intros Hbody. unfold with_environment.
  apply scoped_bind; [apply scoped_call; reflexivity|]. intros _.
  apply scoped_with_exit; [exact Hbody|]. apply scoped_call. reflexivity.
Qed.

Lemma scoped_registry_call (e : event)
    (op : list (string * string) -> result (list (string * string))) :
  cleanup_of e = None -> scoped E (registry_call E e op).
Proof.
  intros He. unfold registry_call. apply scoped_bind; [apply scoped_call; exact He|].
  intros _ w _. apply (scoped_from_same _ _ []);
    destruct (op (w_remotes w)); cbn; rewrite ?app_nil_r; reflexivity.
Qed.

Lemma scoped_remote_list : scoped E remote_list.
Proof.
  intros w _. apply (scoped_from_same _ _ []); cbn; rewrite ?app_nil_r; reflexivity.
Qed.

Lemma scoped_remote_list_ref : scoped E (remote_list_ref E).
Proof.
  intros w _. apply (scoped_from_same _ _ []); cbn; rewrite ?app_nil_r; reflexivity.
Qed.

Lemma scoped_getitem (d : list (string * string)) (k : string) : scoped E (getitem d k).
Proof. unfold getitem. destruct (assoc k d); [apply scoped_ret|apply scoped_raise]. Qed.

End Scopes.

Create HintDb scopes.
#[export] Hint Resolve scoped_ret scoped_raise scoped_for_each scoped_for_fold
  scoped_try_except scoped_with_tempdir scoped_with_environment
  scoped_remote_list scoped_remote_list_ref scoped_getitem : scopes.

Ltac scoped_steps :=
  repeat first
    [ solve [auto with scopes]
    | apply scoped_call; reflexivity
    | apply scoped_registry_call; reflexivity
    | apply scoped_for_each; intros ?
    | apply scoped_with_tempdir; intros ?
    | apply scoped_with_environment
    | apply scoped_finally_log; [reflexivity|]
    | apply scoped_try_except
    | apply scoped_bind; [|intros ?] ].

Section ScopedTasks.

Context (E : env).

Lemma scoped_check_long_paths : scoped E (check_long_paths E).
Proof.
  unfold check_long_paths. destruct (env_platform E); [auto with scopes| |auto with scopes].
  scoped_steps. destruct (Nat.eqb _ 0); scoped_steps.
Qed.

Lemma scoped_remove_remote_refs : scoped E (remove_remote_refs E).
Proof. unfold remove_remote_refs. scoped_steps. Qed.

Lemma scoped_temporary_user_home_api {A} (body : M A) :
  scoped E body -> scoped E (temporary_user_home_api E body).
Proof.
  intros Hbody. unfold temporary_user_home_api.
  scoped_steps; first [apply scoped_check_long_paths | apply scoped_remove_remote_refs].
Qed.

Lemma scoped_upload_dependencies_internal : scoped E (upload_dependencies_internal E).
Proof.
  unfold upload_dependencies_internal, stable_non_local_dependencies, dependencies.
  scoped_steps. unfold upload_dependency. destruct (dep_alias _); scoped_steps.
  destruct (mem _ _); scoped_steps.
Qed.

Lemma scoped_conan_redirect_removed {A} (body : M A) :
  scoped E body -> scoped E (conan_redirect_removed E body).
Proof.
  intros Hbody. unfold conan_redirect_removed, remote_remove, remote_add.
  scoped_steps. destruct (mem _ _); scoped_steps.
Qed.

Lemma scoped_install_all_configurations : scoped E (install_all_configurations E).
Proof.
  unfold install_all_configurations, get_builder.
  apply scoped_bind; [scoped_steps|]. intros _.
  apply scoped_bind; [apply scoped_call; reflexivity|]. intros _.
  apply scoped_conan_redirect_removed. scoped_steps.
Qed.

Lemma scoped_copy_dependencies : scoped E (copy_dependencies E).
Proof.
  unfold copy_dependencies. apply scoped_temporary_user_home_api.
  apply scoped_bind; [apply scoped_install_all_configurations|].
  intros _. apply scoped_upload_dependencies_internal.
Qed.

Lemma scoped_package (username : string) (force_upload : bool) :
  scoped E (package E username force_upload).
Proof.
  unfold package, get_builder, tools_deps_env_info, open_file. scoped_steps.
  destruct (env_deps_env_info E); scoped_steps.
Qed.

(** With removals that do not raise, the directories alive at the end are
    those alive at the start. *)
Lemma scoped_from_clean {A} (m : M A) (w : world) :
  cleanup_ok E -> scoped_from E m w -> w_live (snd (m w)) = w_live w.
Proof.
  intros Hok (l & stuck & _ & _ & Hlive & Hleak & _). rewrite Hlive.
  destruct stuck as [|d stuck]; [reflexivity|].
  exfalso. specialize (Hleak d). rewrite (leaked_none E _ _ Hok) in Hleak.
  apply Hleak. left. reflexivity.
Qed.

End ScopedTasks.




(** ** The pipeline of [copy_dependencies] *)

Lemma returns_ret {A} (a : A) (w : world) (P : A -> world -> Prop) :
  P a w -> returns (ret a) w [] P.
Proof.
  intros Hp b w' Hr. inversion Hr; subst. rewrite app_nil_r. auto.
Qed.

Lemma returns_raise {A} (x : exn) (w : world) (t : list event) (P : A -> world -> Prop) :
  returns (@raise A x) w t P.
Proof. intros b w' Hr. discriminate Hr. Qed.

Lemma returns_call (E : env) (e : event) (w : world) :
  returns (call E e) w [e] (same_state w).
Proof.
  intros u w' Hr. apply call_inv_ok in Hr as [_ ->]. cbn. unfold same_state. auto.
Qed.

Lemma returns_bind {A B} (m : M A) (f : A -> M B) (w : world) (t1 t2 : list event)
    (P : A -> world -> Prop) (Q : B -> world -> Prop) :
  returns m w t1 P ->
  (forall a w1, w_log w1 = w_log w ++ t1 -> P a w1 -> returns (f a) w1 t2 Q) ->
  returns (bind m f) w (t1 ++ t2) Q.
Proof.
  intros Hm Hf b w' Hr. apply bind_inv_ok in Hr as (a & w1 & Hmw & Hfw).
  destruct (Hm a w1 Hmw) as [Hlog1 Hp].
  destruct (Hf a w1 Hlog1 Hp b w' Hfw) as [Hlog2 Hq].
  split; [rewrite Hlog2, Hlog1, app_assoc; reflexivity|exact Hq].
Qed.

Lemma returns_post {A} (m : M A) (w : world) (t : list event)
    (P Q : A -> world -> Prop) :
  (forall a w', P a w' -> Q a w') -> returns m w t P -> returns m w t Q.
Proof. intros HPQ Hm a w' Hr. destruct (Hm a w' Hr). auto. Qed.

Lemma returns_trace {A} (m : M A) (w : world) (t t' : list event)
    (P : A -> world -> Prop) :
  t = t' -> returns m w t P -> returns m w t' P.
Proof. intros ->. auto. Qed.

Lemma follows_returns {A} (m : M A) (w : world) (t : list event) (P : A -> Prop) :
  follows m w t P -> returns m w t (fun a _ => P a).
Proof.
  intros (l & Hlog & _ & Hok) a w' Hr. rewrite Hr in Hlog, Hok. cbn [fst snd] in *.
  destruct (Hok a eq_refl) as [-> Hp]. auto.
Qed.

Lemma same_state_trans (w w1 : world) {A} (a : A) (w2 : world) :
  w_remotes w1 = w_remotes w -> w_next w1 = w_next w ->
  same_state w1 a w2 -> same_state w a w2.
Proof. unfold same_state. intros Hr Hn [Hr2 Hn2]. split; congruence. Qed.

(** A call whose outcome is of no use to what follows. *)
Ltac returns_call_then :=
  match goal with
  | |- returns (bind (call _ _) _) _ (?a :: ?l) _ =>
      apply (returns_trace _ _ ([a] ++ l) (a :: l) _ eq_refl);
      eapply returns_bind; [apply returns_call | intros ? ? ? [? ?]]
  end.

Section Pipeline.

Context (E : env).

Lemma returns_with_tempdir {A} (body : path -> M A) (w : world) (t : list event)
    (P Q : A -> world -> Prop) :
  (forall w1, w_log w1 = w_log w ++ [EMkdtemp (w_next w)] ->
              w_remotes w1 = w_remotes w -> w_next w1 = S (w_next w) ->
              returns (body (PTmp (w_next w))) w1 t P) ->
  (forall a w2, P a w2 -> Q a (del_tmp (w_next w) w2)) ->
  returns (with_tempdir E body) w ([EMkdtemp (w_next w)] ++ t ++ [ECleanup (w_next w)]) Q.
Proof.
  intros Hbody HPQ a w' Hr. unfold with_tempdir in Hr.
  apply bind_inv_ok in Hr as (u & w1 & Hcall & Hfin).
  apply call_inv_ok in Hcall as [_ ->]. unfold with_exit, cleanup in Hfin.
  set (w1 := add_tmp (w_next w) (log_event (EMkdtemp (w_next w)) w)) in *.
  specialize (Hbody w1 eq_refl eq_refl eq_refl).
  destruct (body (PTmp (w_next w)) w1) as [r w2] eqn:Hb.
  destruct (env_fails E (w_log w2) (ECleanup (w_next w))); [discriminate Hfin|].
  inversion Hfin; subst r w'.
  destruct (Hbody a w2 Hb) as [Hlog Hp].
  split; [|apply HPQ; exact Hp].
  cbn [del_tmp w_log]. rewrite Hlog. cbn [w1 add_tmp log_event w_log].
  rewrite <- !app_assoc. reflexivity.
Qed.

Lemma returns_with_environment {A} (vars : list (string * path)) (body : M A) (w : world)
    (t : list event) (P Q : A -> world -> Prop) :
  (forall w1, w_log w1 = w_log w ++ [EEnvAppend vars] ->
              w_remotes w1 = w_remotes w -> w_next w1 = w_next w ->
              returns body w1 t P) ->
  (forall a w2, P a w2 -> Q a (log_event (EEnvRestore vars) w2)) ->
  returns (with_environment E vars body) w ([EEnvAppend vars] ++ t ++ [EEnvRestore vars]) Q.
Proof.
  intros Hbody HPQ a w' Hr. unfold with_environment in Hr.
  apply bind_inv_ok in Hr as (u & w1 & Hcall & Hfin).
  apply call_inv_ok in Hcall as [_ ->]. unfold with_exit, call in Hfin.
  specialize (Hbody (log_event (EEnvAppend vars) w) eq_refl eq_refl eq_refl).
  destruct (body (log_event (EEnvAppend vars) w)) as [r w2] eqn:Hb.
  destruct (env_fails E (w_log w2) (EEnvRestore vars)); [discriminate Hfin|].
  inversion Hfin; subst r w'.
  destruct (Hbody a w2 Hb) as [Hlog Hp].
  split; [|apply HPQ; exact Hp].
  cbn [log_event w_log] in *. rewrite Hlog, <- !app_assoc. reflexivity.
Qed.

Lemma returns_calls {A} (xs : list A) (f : A -> event) (w : world) :
  returns (for_each xs (fun x => call E (f x))) w (map f xs) (same_state w).
Proof.
  revert w. induction xs as [|x xs IH]; intros w; cbn [for_each map].
  - apply returns_ret. split; reflexivity.
  - returns_call_then.
    eapply returns_post; [|apply IH]. intros ? ?. apply same_state_trans; assumption.
Qed.

Lemma returns_remove_remote_refs (w : world) :
  returns (remove_remote_refs E) w (strip_refs_trace E (w_log w)) (same_state w).
Proof.
  unfold remove_remote_refs, strip_refs_trace. intros a w' Hr.
  apply bind_inv_ok in Hr as (refs & w1 & Hrefs & Hloop).
  inversion Hrefs; subst refs w1. exact (returns_calls _ _ w a w' Hloop).
Qed.

Lemma returns_check_long_paths (w : world) :
  returns (check_long_paths E) w (long_paths_trace E (w_log w)) (same_state w).
Proof.
  unfold check_long_paths, long_paths_trace.
  destruct (env_platform E); try (apply returns_ret; split; reflexivity).
  intros a w' Hr. apply bind_inv_ok in Hr as (u & w1 & Hcall & Hfin).
  apply call_inv_ok in Hcall as [_ ->]. revert Hfin.
  unfold finally, try_except, bind, call. cbn [log_event w_log w_remotes w_next].
  destruct (env_fails E (w_log w ++ [EOpenKey]) (EQueryValueEx "LongPathsEnabled"))
    as [x|].
  - destruct (is_FileNotFoundError x); cbn [ret Nat.eqb];
      repeat match goal with
             | |- context [env_fails E ?h ?e] => destruct (env_fails E h e)
             end;
      cbn; intros Hfin; inversion Hfin; subst; cbn; unfold same_state; cbn;
      rewrite <- ?app_assoc; auto.
  - cbn [ret]. destruct (Nat.eqb (env_long_paths E) 0);
      repeat match goal with
             | |- context [env_fails E ?h ?e] => destruct (env_fails E h e)
             end;
      cbn; intros Hfin; inversion Hfin; subst; cbn; unfold same_state; cbn;
      rewrite <- ?app_assoc; auto.
Qed.

End Pipeline.

Section PipelineTasks.

Context (E : env).

Lemma returns_registry_call (e : event)
    (op : list (string * string) -> result (list (string * string))) (w : world) :
  returns (registry_call E e op) w [e] (fun _ w' => w_next w' = w_next w).
Proof.
  intros a w' Hr. unfold registry_call in Hr.
  apply bind_inv_ok in Hr as (u & w1 & Hcall & Hop).
  apply call_inv_ok in Hcall as [_ ->]. cbn [log_event w_remotes] in Hop.
  destruct (op (w_remotes w)); inversion Hop; subst. cbn. auto.
Qed.

Lemma returns_remove_redirect (w : world) :
  returns (remove_redirect E) w
    (if mem REDIRECT_REMOTE (remote_names (w_remotes w)) then [ERemoteRemove REDIRECT_REMOTE]
     else [])
    (fun _ w' => w_next w' = w_next w).
Proof.
  intros a w' Hr. unfold remove_redirect, bind, remote_list in Hr.
  destruct (mem REDIRECT_REMOTE (remote_names (w_remotes w))).
  - exact (returns_registry_call _ _ w a w' Hr).
  - inversion Hr; subst. rewrite app_nil_r. auto.
Qed.

Lemma returns_install_loop (items : list build_item) (w : world) :
  returns
    (for_each items (fun item =>
       with_tempdir E (fun tmpdir =>
         call E (EInstall (options_list (bi_settings item)) (options_list (bi_options item))
                   (bi_env_vars item) ["missing"] (base_profile E) tmpdir))))
    w (install_trace E (w_next w) items)
    (fun _ w' => w_remotes w' = w_remotes w /\ w_next w' = w_next w + length items).
Proof.
  revert w. induction items as [|item items IH]; intros w; cbn [for_each install_trace].
  - apply returns_ret. split; [reflexivity|cbn; lia].
  - eapply returns_bind.
    + apply (returns_with_tempdir E _ w
               [EInstall (options_list (bi_settings item)) (options_list (bi_options item))
                  (bi_env_vars item) ["missing"] (base_profile E) (PTmp (w_next w))]
               (fun _ w2 => w_remotes w2 = w_remotes w /\ w_next w2 = S (w_next w))
               (fun _ w2 => w_remotes w2 = w_remotes w /\ w_next w2 = S (w_next w))).
      * intros w1 _ Hr Hn. eapply returns_post; [|apply returns_call].
        intros ? w2 [Hr2 Hn2]. split; congruence.
      * intros ? w2 Hp. exact Hp.
    + intros ? w1 _ [Hr Hn]. rewrite <- Hn.
      eapply returns_post; [|apply IH].
      intros ? w2 [Hr2 Hn2]. split; [congruence|]. rewrite Hn2, Hn. cbn [length]. lia.
Qed.

Lemma get_builder_returns (force_upload : bool) (username : string) (w : world) :
  get_builder force_upload username w = (Ok tt, w).
Proof. reflexivity. Qed.

Lemma returns_unfolded {A} (m m' : M A) (w : world) (t : list event)
    (P : A -> world -> Prop) :
  m w = m' w -> returns m' w t P -> returns m w t P.
Proof. unfold returns. intros ->. auto. Qed.

Lemma returns_install_all_configurations (w : world) :
  returns (install_all_configurations E) w
    (install_all_trace E (w_remotes w) (w_next w)) (fun _ _ => True).
Proof.
  unfold install_all_configurations, install_all_trace.
  apply (returns_unfolded _
           (call E EAddCommonBuilds ;;;
            conan_redirect_removed E
              (for_each (env_builder_items E) (fun item =>
                 with_tempdir E (fun tmpdir =>
                   call E (EInstall (options_list (bi_settings item))
                             (options_list (bi_options item)) (bi_env_vars item)
                             ["missing"] (base_profile E) tmpdir)))))).
  { unfold bind at 1. rewrite get_builder_returns. reflexivity. }
  eapply returns_bind; [apply returns_call|]. intros ? w1 _ [Hr1 Hn1].
  eapply returns_unfolded; [apply conan_redirect_removed_unfold|].
  rewrite <- Hr1, <- Hn1.
  eapply returns_bind; [apply returns_remove_redirect|]. intros ? w2 _ Hn2.
  cbn beta in Hn2. rewrite <- Hn2.
  eapply returns_bind; [apply returns_install_loop|]. intros ? w3 _ _.
  rewrite <- (app_nil_r [ERemoteAdd _ _ _ _]).
  eapply returns_bind; [apply returns_registry_call|]. intros ? w4 _ _.
  apply returns_ret. exact I.
Qed.

Lemma returns_pipeline (w : world) :
  returns (install_all_configurations E ;;; upload_dependencies_internal E) w
    (pipeline_trace E (w_remotes w) (w_next w) (w_log w)) (fun _ _ => True).
Proof.
  unfold pipeline_trace.
  eapply returns_bind; [apply returns_install_all_configurations|].
  intros ? w1 Hlog _. rewrite <- Hlog.
  eapply returns_post; [|apply follows_returns, upload_dependencies_follows]. auto.
Qed.

Lemma returns_copy_dependencies (w : world) :
  returns (copy_dependencies E) w (copy_dependencies_trace E w) (fun _ _ => True).
Proof.
  unfold copy_dependencies, temporary_user_home_api, copy_dependencies_trace.
  set (d := w_next w).
  apply (returns_trace _ _
           ([EMkdtemp d] ++
            ([ECopyTree (env_abspath E (env_user_home E)) (PJoin (PTmp d) ".conan")] ++
             [EChmod (PJoin (PTmp d) ".conan")] ++
             [EEnvAppend (home_vars d)] ++
             (long_paths_trace E (w_log w ++ copy_home_trace E d) ++
              strip_refs_trace E (w_log w ++ copy_home_trace E d ++
                                  long_paths_trace E (w_log w ++ copy_home_trace E d)) ++
              pipeline_trace E (w_remotes w) (S d)
                (w_log w ++ copy_home_trace E d ++
                 long_paths_trace E (w_log w ++ copy_home_trace E d) ++
                 strip_refs_trace E (w_log w ++ copy_home_trace E d ++
                                     long_paths_trace E (w_log w ++ copy_home_trace E d)))) ++
             [EEnvRestore (home_vars d)]) ++
            [ECleanup d])).
  { unfold copy_home_trace. cbn [app]. rewrite <- !app_assoc. reflexivity. }
  apply (returns_with_tempdir E _ w _ (fun _ _ => True)); [|auto].
  intros w1 Hl1 Hr1 Hn1.
  eapply returns_bind; [apply returns_call|]. intros ? w2 Hl2 [Hr2 Hn2].
  eapply returns_bind; [apply returns_call|]. intros ? w3 Hl3 [Hr3 Hn3].
  apply (returns_with_environment E _ _ w3 _ (fun _ _ => True)); [|auto].
  intros w4 Hl4 Hr4 Hn4.
  assert (Hh4 : w_log w4 = w_log w ++ copy_home_trace E d).
  { rewrite Hl4, Hl3, Hl2, Hl1. unfold copy_home_trace. rewrite <- !app_assoc. reflexivity. }
  rewrite <- Hh4.
  eapply returns_bind; [apply returns_check_long_paths|]. intros ? w5 Hl5 [Hr5 Hn5].
  rewrite !app_assoc, <- Hh4, <- !app_assoc, <- Hl5.
  eapply returns_bind; [apply returns_remove_remote_refs|]. intros ? w6 Hl6 [Hr6 Hn6].
  replace (w_log w4 ++ long_paths_trace E (w_log w4) ++ strip_refs_trace E (w_log w5))
    with (w_log w6) by (rewrite Hl6, Hl5, <- app_assoc; reflexivity).
  replace (w_remotes w) with (w_remotes w6) by congruence.
  replace (S d) with (w_next w6) by (unfold d; congruence).
  apply returns_pipeline.
Qed.

End PipelineTasks.

(** ** The order of the steps *)

Lemma in_order_from_weaken (step : event -> option nat) (lo lo' : nat) (log : list event) :
  lo' <= lo -> in_order_from step lo log = true -> in_order_from step lo' log = true.
Proof.
  intros Hle. induction log as [|e log IH]; [reflexivity|]. cbn [in_order_from].
  destruct (step e) as [s|]; [|exact IH].
  intros H. apply andb_true_iff in H as [Hs Hrest]. apply Nat.leb_le in Hs.
  apply andb_true_iff. split; [apply Nat.leb_le; lia|exact Hrest].
Qed.

Lemma in_order_from_app (step : event -> option nat) (lo k : nat) (l1 l2 : list event) :
  in_order_from step lo l1 = true ->
  (forall e s, In e l1 -> step e = Some s -> s <= k) ->
  lo <= k ->
  in_order_from step k l2 = true ->
  in_order_from step lo (l1 ++ l2) = true.
Proof.
  revert lo. induction l1 as [|e l1 IH]; intros lo H1 Hmax Hlo H2; cbn [app].
  - apply (in_order_from_weaken step k lo); assumption.
  - cbn [in_order_from] in *. destruct (step e) as [s|] eqn:Hs.
    + apply andb_true_iff in H1 as [Hle Hrest]. apply andb_true_iff. split; [exact Hle|].
      apply IH; [exact Hrest| |apply (Hmax e s); [left; reflexivity|exact Hs]|exact H2].
      intros e' s' Hin. apply Hmax. right. exact Hin.
    + apply IH; [exact H1| |exact Hlo|exact H2].
      intros e' s' Hin. apply Hmax. right. exact Hin.
Qed.

Lemma bounded_app (step : event -> option nat) (a b b' c : nat) (l1 l2 : list event) :
  bounded step a b l1 -> bounded step b' c l2 -> a <= b -> b <= b' -> b' <= c ->
  bounded step a c (l1 ++ l2).
Proof.
  intros [Ho1 Hb1] [Ho2 Hb2] Hab Hbb Hbc. split.
  - apply (in_order_from_app step a b'); [exact Ho1| |lia|exact Ho2].
    intros e s Hin Hs. specialize (Hb1 e s Hin Hs). lia.
  - intros e s Hin Hs. apply in_app_or in Hin as [Hin|Hin].
    + specialize (Hb1 e s Hin Hs). lia.
    + specialize (Hb2 e s Hin Hs). lia.
Qed.

(** A run of calls that all belong to step [k], or to no step. *)
Lemma bounded_const (step : event -> option nat) (k : nat) (log : list event) :
  Forall (fun e => step e = None \/ step e = Some k) log -> bounded step k k log.
Proof.
  intros Hall. split.
  - induction Hall as [|e log [He|He] _ IH]; [reflexivity| |]; cbn [in_order_from];
      rewrite He; [exact IH|]. rewrite Nat.leb_refl. exact IH.
  - intros e s Hin Hs. rewrite List.Forall_forall in Hall.
    destruct (Hall e Hin) as [He|He]; rewrite He in Hs; [discriminate Hs|].
    inversion Hs. lia.
Qed.

Lemma install_trace_steps (E : env) (d : nat) (items : list build_item) :
  Forall (fun e => code_step e = None \/ code_step e = Some 2) (install_trace E d items).
Proof.
  revert d. induction items as [|item items IH]; intros d; cbn [install_trace app].
  - constructor.
  - repeat (constructor; [cbn; auto|]). apply IH.
Qed.

Lemma upload_dependencies_trace_steps (E : env) (remote_refs : list (string * string)) :
  Forall (fun e => code_step e = None \/ code_step e = Some 4)
    (upload_dependencies_trace E remote_refs).
Proof.
  unfold upload_dependencies_trace. cbn [app]. constructor; [cbn; auto|].
  induction (List.filter (promotable E) (env_dependencies E)) as [|d ds IH];
    cbn [map concat]; [constructor|].
  apply Forall_app. split; [|exact IH].
  unfold upload_dependency_trace, promotion_calls.
  destruct (dep_alias d); [constructor|].
  destruct (mem (repr d) (map fst remote_refs)); cbn [app];
    repeat (constructor; [cbn; auto|]); constructor.
Qed.

Lemma install_all_trace_bounded (E : env) (reg : list (string * string)) (d : nat) :
  bounded code_step 2 3 (install_all_trace E reg d).
Proof.
  unfold install_all_trace.
  replace ([EAddCommonBuilds] ++
           (if mem REDIRECT_REMOTE (remote_names reg) then [ERemoteRemove REDIRECT_REMOTE]
            else []) ++
           install_trace E d (env_builder_items E) ++
           [ERemoteAdd REDIRECT_REMOTE REDIRECT_URL None false])
    with (([EAddCommonBuilds] ++
           (if mem REDIRECT_REMOTE (remote_names reg) then [ERemoteRemove REDIRECT_REMOTE]
            else []) ++
           install_trace E d (env_builder_items E)) ++
          [ERemoteAdd REDIRECT_REMOTE REDIRECT_URL None false])
    by (rewrite <- !app_assoc; reflexivity).
  apply (bounded_app code_step 2 2 3 3); [| |lia|lia|lia].
  - apply bounded_const. constructor; [cbn; auto|].
    apply Forall_app. split; [|apply install_trace_steps].
    destruct (mem _ _); repeat (constructor; [cbn; auto|]); constructor.
  - apply bounded_const. constructor; [cbn; auto|constructor].
Qed.

Lemma copy_dependencies_trace_in_order (E : env) (w : world) :
  steps_in_order code_step (copy_dependencies_trace E w) = true.
Proof.
  unfold steps_in_order, copy_dependencies_trace, pipeline_trace.
  match goal with |- in_order_from _ _ ?l = true => enough (bounded code_step 0 4 l) as [H _] end;
    [exact H|].
  apply (bounded_app code_step 0 0 0 4); [|  |lia|lia|lia].
  { apply bounded_const. unfold copy_home_trace. repeat (constructor; [cbn; auto|]).
    constructor. }
  apply (bounded_app code_step 0 0 1 4); [| |lia|lia|lia].
  { apply bounded_const. unfold long_paths_trace, LONG_PATHS_WARNINGS.
    destruct (env_platform E); [constructor| |constructor].
    destruct (match env_fails E _ _ with Some _ => true | None => _ end); cbn [app];
      repeat (constructor; [cbn; auto|]); constructor. }
  apply (bounded_app code_step 1 1 2 4); [| |lia|lia|lia].
  { apply bounded_const. unfold strip_refs_trace.
    induction (map fst _) as [|r rs IH]; cbn [map]; constructor; [cbn; auto|exact IH]. }
  rewrite <- app_assoc.
  apply (bounded_app code_step 2 3 4 4); [apply install_all_trace_bounded| |lia|lia|lia].
  apply (bounded_app code_step 4 4 4 4); [| |lia|lia|lia].
  { apply bounded_const. apply upload_dependencies_trace_steps. }
  apply bounded_const. repeat (constructor; [cbn; auto|]). constructor.
Qed.

(** C6, as the code has it.  When [copy_dependencies] returns, its calls
    are, in this order: the user home is copied into a fresh temporary
    directory that becomes the home of the package manager; all remote refs
    are removed; with the redirect remote removed when it was configured,
    the packages are installed for all configurations; the redirect remote
    is added back; then the stable non-local dependencies are uploaded and
    their redirect aliases created; last, the environment is restored and
    the temporary home removed.  The redirect remote is thus added back
    before the uploads, not after them. *)
Theorem copy_dependencies_pipeline (E : env) (w w' : world) :
  copy_dependencies E w = (Ok tt, w') ->
  w_log w' = w_log w ++ copy_dependencies_trace E w /\
  steps_in_order code_step (copy_dependencies_trace E w) = true.
Proof.
  intros Hrun. split; [|apply copy_dependencies_trace_in_order].
  exact (proj1 (returns_copy_dependencies E w tt w' Hrun)).
Qed.

Lemma copy_dependencies_pipeline_witness :
  steps_in_order code_step
    (w_log (snd (copy_dependencies quiet_env (empty_world remotes)))) = true.
Proof.
  destruct (copy_dependencies_pipeline quiet_env (empty_world remotes)
              (snd (copy_dependencies quiet_env (empty_world remotes))))
    as [Hlog Horder]; [vm_compute; reflexivity|].
  rewrite Hlog. exact Horder.
Defined.

(** On a run that returns, the redirect remote is added back before the
    first upload: read in the listed order, the steps go backwards. *)
Lemma copy_dependencies_order_counterexample :
  fst (copy_dependencies quiet_env (empty_world remotes)) = Ok tt /\
  steps_in_order listed_step
    (w_log (snd (copy_dependencies quiet_env (empty_world remotes)))) = false.
Proof. split; vm_compute; reflexivity. Qed.

(** ** Remote reconciliation: [setup_remotes] *)

Section Reconciliation.

Context (E : env).

Lemma follows_registry_call (e : event)
    (op : list (string * string) -> result (list (string * string))) (w : world) :
  follows (registry_call E e op) w [e] (fun _ => True).
Proof.
  unfold registry_call. rewrite <- (app_nil_r [e]).
  eapply follows_bind; [apply follows_call|]. intros _ w1 _ _.
  exists []. destruct (op (w_remotes w1)); cbn; rewrite app_nil_r;
    (split; [reflexivity|]); (split; [reflexivity|]); auto.
Qed.

Lemma setup_remotes_round_follows (urls : gmap string string) (insert_loc : nat)
    (item : string * string) (w : world) :
  follows (setup_remotes_round E urls insert_loc item) w
    (setup_round_trace urls insert_loc item) (fun n => n = insert_loc + 1).
Proof.
  unfold setup_remotes_round, setup_round_trace. destruct item as [remote url].
  cbn [fst snd].
  eapply follows_bind with (P := fun _ => True).
  - destruct (urls !! url) as [old_remote|]; [|apply follows_ret; exact I].
    destruct (negb (String.eqb old_remote remote)); [|apply follows_ret; exact I].
    step_call. apply follows_registry_call.
  - intros _ w1 _ _. step_call.
    rewrite <- (app_nil_r [ERemoteAdd _ _ _ _]).
    eapply follows_bind; [apply follows_registry_call|]. intros _ w3 _ _.
    apply follows_ret. reflexivity.
Qed.

Lemma setup_rounds_follow (urls : gmap string string) (insert_loc : nat)
    (items : list (string * string)) (w : world) :
  follows (for_fold items (setup_remotes_round E urls) insert_loc) w
    (setup_rounds_trace urls insert_loc items) (fun _ => True).
Proof.
  revert insert_loc w. induction items as [|item items IH]; intros insert_loc w;
    cbn [for_fold setup_rounds_trace].
  - apply follows_ret. exact I.
  - eapply follows_bind; [apply setup_remotes_round_follows|].
    intros n w1 _ ->. replace (insert_loc + 1) with (S insert_loc) by lia. apply IH.
Qed.

(** Whatever the registry holds, the calls of [setup_remotes] are, for each
    canonical remote in order: a rename when the dictionary read before the
    loop has the URL under another name, then a forced add at the next
    position. *)
Lemma setup_remotes_follows (w : world) :
  follows (setup_remotes E) w (setup_remotes_trace (w_remotes w)) (fun _ => True).
Proof.
  unfold setup_remotes, setup_remotes_trace.
  apply (follows_trace _ _ ([] ++ setup_rounds_trace (get_remotes (w_remotes w)) 0 remotes
                              ++ [])); [apply app_nil_r|].
  eapply follows_bind;
    [apply (follows_returned remote_list w (w_remotes w) (fun reg => reg = w_remotes w));
     reflexivity|].
  intros reg w1 Hrl ->. inversion Hrl; subst w1.
  eapply follows_bind; [apply setup_rounds_follow|].
  intros _ w2 _ _. apply follows_ret. exact I.
Qed.

End Reconciliation.

(** From a clean registry the canonical remotes end up in their priority
    order, and a second run changes nothing. *)
Example setup_remotes_from_scratch :
  w_remotes (after_setups quiet_env 1 (empty_world [])) = remotes /\
  w_remotes (after_setups quiet_env 2 (empty_world [])) = remotes.
Proof. split; vm_compute; reflexivity. Qed.

(** A remote under another name is renamed, and the others stay behind the
    canonical ones. *)
Example setup_remotes_renames :
  w_remotes (after_setups quiet_env 1
    (empty_world [("mirror", "http://mirror.example/conan");
                  ("center", "https://conan.bintray.com")]))
  = remotes ++ [("mirror", "http://mirror.example/conan")].
Proof. vm_compute. reflexivity. Qed.

(** C2, on the failing input.  From a registry in which the name
    [conan-redirect] is attached to the URL of [conan-ext], [setup_remotes]
    returns after these calls: forced add of [conan-redirect] at 0, rename of
    [conan-redirect] to [conan-ext] (the dictionary read before the loop
    still has the URL of [conan-ext] under the old name), forced adds of the
    other four at 1 to 4.  The registry it leaves has no remote named
    [conan-redirect], and [conan-ext] is at position 0. *)
Theorem setup_remotes_loses_redirect :
  fst (setup_remotes quiet_env (empty_world misnamed_registry)) = Ok tt /\
  List.filter (fun e => match e with ERemoteRename _ _ | ERemoteAdd _ _ _ _ => true
                                | _ => false end)
    (w_log (snd (setup_remotes quiet_env (empty_world misnamed_registry)))) =
    [ERemoteAdd "conan-redirect" REDIRECT_URL (Some 0) true;
     ERemoteRename "conan-redirect" "conan-ext";
     ERemoteAdd "conan-ext" (DL_ARTIFACTORY +:+ "/api/conan/conan-ext") (Some 1) true;
     ERemoteAdd "conan-local" (DL_ARTIFACTORY +:+ "/api/conan/conan-local") (Some 2) true;
     ERemoteAdd "conan-center" "https://conan.bintray.com" (Some 3) true;
     ERemoteAdd "bincrafters" "https://api.bintray.com/conan/bincrafters/public-conan"
       (Some 4) true] /\
  w_remotes (snd (setup_remotes quiet_env (empty_world misnamed_registry))) =
    skipn 1 remotes /\
  mem REDIRECT_REMOTE
    (remote_names (w_remotes (snd (setup_remotes quiet_env (empty_world misnamed_registry)))))
    = false.
Proof. repeat split; vm_compute; reflexivity. Qed.

(** C3, on the failing input.  From the same registry, one run of
    [setup_remotes] leaves four remotes and a second run leaves the five
    canonical ones: running it twice does not give what running it once
    gives. *)
Theorem setup_remotes_twice_differs :
  w_remotes (after_setups quiet_env 1 (empty_world misnamed_registry)) = skipn 1 remotes /\
  w_remotes (after_setups quiet_env 2 (empty_world misnamed_registry)) = remotes /\
  w_remotes (after_setups quiet_env 2 (empty_world misnamed_registry)) <>
  w_remotes (after_setups quiet_env 1 (empty_world misnamed_registry)).
Proof.
  split; [vm_compute; reflexivity|]. split; [vm_compute; reflexivity|].
  intros H. vm_compute in H. discriminate H.
Qed.

(** * Further properties of the tasks *)

(** ** The dictionary of [get_remotes] *)

Lemma find_app {A} (p : A -> bool) (l1 l2 : list A) :
  find p (l1 ++ l2) = match find p l1 with Some x => Some x | None => find p l2 end.
Proof.
  induction l1 as [|x l1 IH]; [reflexivity|]. cbn [app find].
  destruct (p x); [reflexivity|exact IH].
Qed.

Lemma get_remotes_fold (reg : list (string * string)) (m : gmap string string) (u : string) :
  fold_left (fun urls remote => <[snd remote := fst remote]> urls) reg m !! u =
    match find (fun r => String.eqb (snd r) u) (rev reg) with
    | Some r => Some (fst r)
    | None => m !! u
    end.
Proof.
  revert m. induction reg as [|r reg IH]; intros m; [reflexivity|].
  cbn [fold_left rev]. rewrite IH, find_app. cbn [find].
  destruct (find (fun r0 => String.eqb (snd r0) u) (rev reg)); [reflexivity|].
  rewrite lookup_insert. destruct (String.eqb_spec (snd r) u) as [Heq|Hne].
  - rewrite decide_True by exact Heq. reflexivity.
  - rewrite decide_False by exact Hne. reflexivity.
Qed.

Lemma get_remotes_find (reg : list (string * string)) (u : string) :
  get_remotes reg !! u =
    match find (fun r => String.eqb (snd r) u) (rev reg) with
    | Some r => Some (fst r)
    | None => None
    end.
Proof. unfold get_remotes. rewrite get_remotes_fold, lookup_empty. reflexivity. Qed.

(** X1. [get_remotes] maps a URL to the name of the last configured remote
    that has this URL, and has no entry for a URL that no remote has. *)
Theorem get_remotes_last_wins (reg : list (string * string)) (u : string) :
  get_remotes reg !! u =
    match find (fun r => String.eqb (snd r) u) (rev reg) with
    | Some r => Some (fst r)
    | None => None
    end.
Proof. unfold get_remotes. rewrite get_remotes_fold, lookup_empty. reflexivity. Qed.

Lemma same_url_same_name (reg : list (string * string)) (a b u : string) :
  NoDup (remote_urls reg) -> In (a, u) reg -> In (b, u) reg -> a = b.
Proof.
  unfold remote_urls. induction reg as [|[n v] reg IH]; intros Hnd Ha Hb; [destruct Ha|].
  cbn [map] in Hnd. apply NoDup_cons in Hnd as [Hnotin Hnd].
  destruct Ha as [Ha|Ha], Hb as [Hb|Hb].
  - congruence.
  - inversion Ha; subst. exfalso. apply Hnotin. apply list_elem_of_In.
    exact (in_map snd reg (b, u) Hb).
  - inversion Hb; subst. exfalso. apply Hnotin. apply list_elem_of_In.
    exact (in_map snd reg (a, u) Ha).
  - apply IH; assumption.
Qed.

Lemma same_name_same_url (reg : list (string * string)) (n u v : string) :
  NoDup (remote_names reg) -> In (n, u) reg -> In (n, v) reg -> u = v.
Proof.
  unfold remote_names. induction reg as [|[m x] reg IH]; intros Hnd Ha Hb; [destruct Ha|].
  cbn [map] in Hnd. apply NoDup_cons in Hnd as [Hnotin Hnd].
  destruct Ha as [Ha|Ha], Hb as [Hb|Hb].
  - congruence.
  - inversion Ha; subst. exfalso. apply Hnotin. apply list_elem_of_In.
    exact (in_map fst reg (n, v) Hb).
  - inversion Hb; subst. exfalso. apply Hnotin. apply list_elem_of_In.
    exact (in_map fst reg (n, u) Ha).
  - apply IH; assumption.
Qed.

(** With one remote per URL, the dictionary is the registry read backwards:
    from URL to name. *)
Lemma get_remotes_lookup (reg : list (string * string)) (n u : string) :
  NoDup (remote_urls reg) -> (get_remotes reg !! u = Some n <-> In (n, u) reg).
Proof.
  intros Hnd. rewrite get_remotes_find. split.
  - destruct (find _ (rev reg)) as [[n' u']|] eqn:Hf; [|intros H; discriminate H].
    apply find_some in Hf as [Hin Heq]. apply String.eqb_eq in Heq.
    cbn [fst snd] in *. intros H. inversion H; subst. apply in_rev. exact Hin.
  - intros Hin. destruct (find _ (rev reg)) as [[n' u']|] eqn:Hf.
    + apply find_some in Hf as [Hin' Heq]. apply String.eqb_eq in Heq.
      cbn [fst snd] in *. subst u'. apply in_rev in Hin'.
      f_equal. exact (same_url_same_name reg n' n u Hnd Hin' Hin).
    + exfalso. apply in_rev in Hin.
      pose proof (find_none _ _ Hf (n, u) Hin) as Hne. cbn in Hne.
      rewrite String.eqb_refl in Hne. discriminate Hne.
Qed.

Lemma get_remotes_none (reg : list (string * string)) (u : string) :
  get_remotes reg !! u = None <-> ~ In u (remote_urls reg).
Proof.
  rewrite get_remotes_find. split.
  - destruct (find _ (rev reg)) as [r|] eqn:Hf; [intros H; discriminate H|].
    intros _ Hin. apply in_map_iff in Hin as ([n u'] & Hu & Hin). cbn in Hu. subst u'.
    apply in_rev in Hin. pose proof (find_none _ _ Hf (n, u) Hin) as Hne. cbn in Hne.
    rewrite String.eqb_refl in Hne. discriminate Hne.
  - intros Hnotin. destruct (find _ (rev reg)) as [[n u']|] eqn:Hf; [|reflexivity].
    apply find_some in Hf as [Hin Heq]. apply String.eqb_eq in Heq. cbn in Heq. subst u'.
    exfalso. apply Hnotin. apply in_rev in Hin.
    exact (in_map snd reg (n, u) Hin).
Qed.

(** ** [setup_remotes] on a tidy registry *)

Lemma mem_In (x : string) (l : list string) : mem x l = true <-> In x l.
Proof.
  unfold mem. rewrite existsb_exists. split.
  - intros (y & Hin & Heq). apply String.eqb_eq in Heq. subst. exact Hin.
  - intros Hin. exists x. split; [exact Hin|apply String.eqb_refl].
Qed.

Lemma mem_false (x : string) (l : list string) : mem x l = false <-> ~ In x l.
Proof.
  rewrite <- mem_In. symmetry. apply not_true_iff_false.
Qed.

Lemma filter_keeps_all {A} (p : A -> bool) (l : list A) :
  (forall x, In x l -> p x = true) -> List.filter p l = l.
Proof.
  induction l as [|x l IH]; intros H; [reflexivity|]. cbn [List.filter].
  rewrite (H x (or_introl eq_refl)). f_equal. apply IH. intros y Hy. apply H. right. exact Hy.
Qed.

Lemma filter_filter {A} (p q : A -> bool) (l : list A) :
  List.filter q (List.filter p l) = List.filter (fun x => p x && q x) l.
Proof.
  induction l as [|x l IH]; [reflexivity|]. cbn [List.filter].
  destruct (p x); cbn [andb List.filter]; [destruct (q x)|]; rewrite IH; reflexivity.
Qed.

Lemma NoDup_map_filter {A B} (f : A -> B) (p : A -> bool) (l : list A) :
  NoDup (map f l) -> NoDup (map f (List.filter p l)).
Proof.
  induction l as [|x l IH]; intros Hnd; [exact Hnd|]. cbn [map List.filter] in *.
  apply NoDup_cons in Hnd as [Hnotin Hnd]. destruct (p x); [|apply IH; exact Hnd].
  cbn [map]. apply NoDup_cons. split; [|apply IH; exact Hnd].
  intros Hin. apply Hnotin. apply list_elem_of_In. apply list_elem_of_In in Hin.
  apply in_map_iff in Hin as (y & Hy & Hin). apply List.filter_In in Hin as [Hin _].
  rewrite <- Hy. apply in_map. exact Hin.
Qed.

Lemma others_nil (reg : list (string * string)) : others [] reg = reg.
Proof. unfold others. apply filter_keeps_all. intros x _. reflexivity. Qed.

Lemma others_snoc (P : list (string * string)) (item : string * string)
    (reg : list (string * string)) :
  others (P ++ [item]) reg =
  List.filter (fun r => negb (String.eqb (snd r) (snd item))) (others P reg).
Proof.
  unfold others. rewrite filter_filter. apply List.filter_ext. intros r.
  unfold remote_urls, mem. rewrite map_app, existsb_app. cbn [map existsb].
  rewrite orb_false_r, negb_orb. reflexivity.
Qed.

Lemma list_insert_at_length {A} (P X : list A) (x : A) :
  list_insert_at (length P) x (P ++ X) = (P ++ [x]) ++ X.
Proof.
  unfold list_insert_at. rewrite take_app_length, drop_app_length, <- app_assoc.
  reflexivity.
Qed.

Lemma od_set_fresh (k v : string) (d : list (string * string)) :
  ~ In k (remote_names d) -> od_set k v d = d ++ [(k, v)].
Proof.
  induction d as [|[k' v'] d IH]; intros Hk; [reflexivity|]. cbn [od_set app].
  destruct (String.eqb_spec k' k) as [->|_]; [exfalso; apply Hk; left; reflexivity|].
  rewrite IH; [reflexivity|]. intros Hin. apply Hk. right. exact Hin.
Qed.

Lemma renamed_name (old new : string) (r : string * string) :
  renamed old new r = (if String.eqb (fst r) old then new else fst r, snd r).
Proof. unfold renamed. destruct r as [n u]. cbn [fst snd]. destruct (String.eqb n old); reflexivity. Qed.

(** On a registry in which the new name is not taken, the dictionary built
    by a rename is the registry with the one name changed. *)
Lemma rename_rebuild (old new : string) (l acc : list (string * string)) :
  NoDup (remote_names (map (renamed old new) l)) ->
  (forall n, In n (remote_names acc) -> ~ In n (remote_names (map (renamed old new) l))) ->
  fold_left
    (fun new_remotes r =>
       od_set (if String.eqb (fst r) old then new else fst r) (snd r) new_remotes)
    l acc
  = acc ++ map (renamed old new) l.
Proof.
  revert acc. induction l as [|r l IH]; intros acc Hnd Hdisj; cbn [fold_left map].
  - rewrite app_nil_r. reflexivity.
  - cbn [map remote_names] in Hnd. apply NoDup_cons in Hnd as [Hnotin Hnd].
    rewrite list_elem_of_In, renamed_name in Hnotin. cbn [fst] in Hnotin.
    rewrite od_set_fresh.
    + rewrite IH.
      * rewrite <- app_assoc, renamed_name. reflexivity.
      * exact Hnd.
      * intros n Hn. unfold remote_names in Hn. rewrite map_app in Hn.
        apply in_app_or in Hn as [Hn|[<-|[]]].
        -- intros Hin. apply (Hdisj n Hn). cbn [map remote_names]. right. exact Hin.
        -- cbn [fst]. exact Hnotin.
    + intros Hin. apply (Hdisj _ Hin). cbn [map remote_names]. left.
      rewrite renamed_name. reflexivity.
Qed.

Lemma renamed_NoDup (old new : string) (l : list (string * string)) :
  NoDup (remote_names l) -> ~ In new (remote_names l) ->
  NoDup (remote_names (map (renamed old new) l)).
Proof.
  induction l as [|[a u] l IH]; intros Hnd Hnew; [apply NoDup_nil; exact I|].
  cbn [map remote_names] in *. apply NoDup_cons in Hnd as [Hnotin Hnd].
  rewrite list_elem_of_In in Hnotin.
  apply NoDup_cons. split.
  - rewrite list_elem_of_In. intros Hin. apply in_map_iff in Hin as (r' & Heq & Hin).
    apply in_map_iff in Hin as ([b v] & <- & Hin).
    assert (Hb : In b (map fst l)) by exact (in_map fst l (b, v) Hin).
    unfold renamed in Heq. cbn [fst snd] in Heq.
    destruct (String.eqb_spec a old) as [->|Ha], (String.eqb_spec b old) as [->|Hb'];
      cbn [fst] in Heq; subst; auto.
    + apply Hnew. right. exact Hb.
    + apply Hnew. left. reflexivity.
  - apply IH; [exact Hnd|]. intros Hin. apply Hnew. right. exact Hin.
Qed.

Section Round.

Variables (init P rest : list (string * string)) (name url : string).

Hypothesis canon_names : NoDup (remote_names (P ++ (name, url) :: rest)).
Hypothesis canon_urls : NoDup (remote_urls (P ++ (name, url) :: rest)).
Hypothesis init_wf : well_formed init.
Hypothesis init_tidy : tidy (P ++ (name, url) :: rest) init.

Lemma name_not_in_P : ~ In name (remote_names P).
Proof.
  unfold remote_names in *. rewrite map_app in canon_names.
  apply NoDup_app in canon_names as (_ & Hdisj & _).
  intros Hin. apply (Hdisj name); [apply list_elem_of_In; exact Hin|].
  cbn [map fst]. left.
Qed.

Lemma url_not_in_P : ~ In url (remote_urls P).
Proof.
  unfold remote_urls in *. rewrite map_app in canon_urls.
  apply NoDup_app in canon_urls as (_ & Hdisj & _).
  intros Hin. apply (Hdisj url); [apply list_elem_of_In; exact Hin|].
  cbn [map snd]. left.
Qed.

Lemma name_on_url (u : string) : In (name, u) init -> u = url.
Proof.
  intros Hin. apply (init_tidy name u url Hin). apply in_or_app. right. left. reflexivity.
Qed.

Lemma name_of_P_on_url_of_P (n u : string) :
  In (n, u) init -> In n (remote_names P) -> In u (remote_urls P).
Proof.
  intros Hin Hn. apply in_map_iff in Hn as ([n' u'] & Heq & HP). cbn in Heq. subst n'.
  assert (u = u') as ->.
  { apply (init_tidy n u u' Hin). apply in_or_app. left. exact HP. }
  exact (in_map snd P (n, u') HP).
Qed.

Lemma kept_P : List.filter (kept name url) P = P.
Proof.
  apply filter_keeps_all. intros [n u] Hin. unfold kept. cbn [fst snd].
  apply andb_true_iff. split; apply negb_true_iff, String.eqb_neq; intros ->.
  - apply name_not_in_P. exact (in_map fst P (name, u) Hin).
  - apply url_not_in_P. exact (in_map snd P (n, url) Hin).
Qed.

Lemma kept_others :
  List.filter (kept name url) (others P init) = others (P ++ [(name, url)]) init.
Proof.
  rewrite others_snoc. cbn [snd]. apply List.filter_ext_in. intros [n u] Hin.
  apply List.filter_In in Hin as [Hin _]. unfold kept. cbn [fst snd].
  destruct (String.eqb_spec n name) as [->|Hne]; [|reflexivity].
  rewrite (name_on_url u Hin), String.eqb_refl. reflexivity.
Qed.

Lemma kept_renamed (old : string) (l : list (string * string)) :
  In (old, url) init -> old <> name -> (forall r, In r l -> In r init) ->
  List.filter (kept name url) (map (renamed old name) l) =
  List.filter (fun r => negb (String.eqb (snd r) url)) l.
Proof.
  intros Hold Hne. induction l as [|[n u] l IH]; intros Hl; [reflexivity|].
  cbn [map List.filter]. rewrite IH by (intros r Hr; apply Hl; right; exact Hr).
  assert (Hin : In (n, u) init) by (apply Hl; left; reflexivity).
  unfold renamed, kept. cbn [fst snd].
  destruct (String.eqb_spec n old) as [->|Hno]; cbn [fst snd].
  - rewrite String.eqb_refl. cbn [negb andb].
    rewrite (same_name_same_url init old u url (proj1 init_wf) Hin Hold).
    rewrite String.eqb_refl. reflexivity.
  - destruct (String.eqb_spec u url) as [->|Hnu].
    + exfalso. apply Hno. exact (same_url_same_name init n old url (proj2 init_wf) Hin Hold).
    + destruct (String.eqb_spec n name) as [->|Hnn]; [|reflexivity].
      exfalso. apply Hnu. exact (name_on_url u Hin).
Qed.

Lemma reg_add_at_end_of_P (X : list (string * string)) :
  reg_add name url (Some (length P)) true (P ++ X) =
  Ok ((P ++ [(name, url)]) ++ List.filter (kept name url) X).
Proof.
  unfold reg_add. fold (kept name url).
  change (fun r : string * string => negb (String.eqb (fst r) name)
                                     && negb (String.eqb (snd r) url))
    with (kept name url).
  rewrite List.filter_app, kept_P, list_insert_at_length. reflexivity.
Qed.

Lemma names_of_P_and_others : NoDup (remote_names (P ++ others P init)).
Proof.
  unfold remote_names. rewrite map_app. apply NoDup_app. split; [|split].
  - unfold remote_names in canon_names. rewrite map_app in canon_names.
    apply NoDup_app in canon_names as (Hp & _). exact Hp.
  - intros n Hn Hn'. apply list_elem_of_In in Hn, Hn'.
    apply in_map_iff in Hn' as ([n' u] & Heq & Hin). cbn in Heq. subst n'.
    apply List.filter_In in Hin as [Hin Hfil]. cbn [snd] in Hfil.
    apply negb_true_iff, mem_false in Hfil. apply Hfil.
    exact (name_of_P_on_url_of_P n u Hin Hn).
  - apply NoDup_map_filter. exact (proj1 init_wf).
Qed.

Lemma reg_rename_in_others (old : string) :
  In (old, url) init -> old <> name ->
  reg_rename old name (P ++ others P init) =
  Ok (P ++ map (renamed old name) (others P init)).
Proof.
  intros Hold Hne. unfold reg_rename.
  assert (Hin_others : In (old, url) (others P init)).
  { apply List.filter_In. split; [exact Hold|]. cbn [snd].
    apply negb_true_iff, mem_false, url_not_in_P. }
  assert (Hmem_old : mem old (remote_names (P ++ others P init)) = true).
  { apply mem_In. unfold remote_names. rewrite map_app. apply in_or_app. right.
    exact (in_map fst _ (old, url) Hin_others). }
  assert (Hnew : ~ In name (remote_names (P ++ others P init))).
  { unfold remote_names. rewrite map_app. intros Hin.
    apply in_app_or in Hin as [Hin|Hin]; [exact (name_not_in_P Hin)|].
    apply in_map_iff in Hin as ([n u] & Heq & Hin). cbn in Heq. subst n.
    apply List.filter_In in Hin as [Hin _]. rewrite (name_on_url u Hin) in Hin.
    apply Hne. exact (same_url_same_name init old name url (proj2 init_wf) Hold Hin). }
  rewrite Hmem_old. cbn [negb]. f_equal.
  rewrite rename_rebuild;
    [|apply renamed_NoDup; [exact names_of_P_and_others|exact Hnew]|intros n []].
  cbn [app]. rewrite map_app. f_equal.
  rewrite <- (map_id P) at 2. apply map_ext_in. intros [n u] Hin. unfold renamed.
  cbn [fst snd]. destruct (String.eqb_spec n old) as [->|]; [|reflexivity].
  exfalso. apply url_not_in_P. apply (name_of_P_on_url_of_P old url Hold).
  exact (in_map fst P (old, u) Hin).
Qed.

End Round.

Section QuietSetup.

Context (E : env) (Hquiet : quiet E).

Lemma registry_call_quiet (e : event)
    (op : list (string * string) -> result (list (string * string))) (w : world)
    (r : list (string * string)) :
  op (w_remotes w) = Ok r ->
  registry_call E e op w = (Ok tt, set_remotes r (log_event e w)).
Proof.
  intros Hop. unfold registry_call.
  erewrite bind_ok; [|apply call_quiet, Hquiet]. cbn [log_event w_remotes].
  rewrite Hop. reflexivity.
Qed.

(** One round on a tidy registry: whatever the dictionary says about the
    URL, the remote ends up right after the ones already placed. *)
Lemma setup_remotes_round_tidy (init P rest : list (string * string)) (name url : string)
    (w : world) :
  NoDup (remote_names (P ++ (name, url) :: rest)) ->
  NoDup (remote_urls (P ++ (name, url) :: rest)) ->
  well_formed init ->
  tidy (P ++ (name, url) :: rest) init ->
  w_remotes w = P ++ others P init ->
  exists w1,
    setup_remotes_round E (get_remotes init) (length P) (name, url) w
      = (Ok (length P + 1), w1) /\
    w_remotes w1 = (P ++ [(name, url)]) ++ others (P ++ [(name, url)]) init.
Proof.
  intros Hcn Hcu Hwf Htidy Hw. unfold setup_remotes_round.
  destruct (get_remotes init !! url) as [old_remote|] eqn:Hlook.
  - apply (get_remotes_lookup init old_remote url (proj2 Hwf)) in Hlook.
    destruct (String.eqb_spec old_remote name) as [->|Hne]; cbn [negb].
    + erewrite bind_ok; [|reflexivity].
      erewrite bind_ok; [|apply call_quiet, Hquiet].
      erewrite bind_ok.
      2:{ apply registry_call_quiet. cbn [log_event w_remotes]. rewrite Hw.
          apply (reg_add_at_end_of_P P rest name url Hcn Hcu). }
      eexists. split; [reflexivity|]. cbn [set_remotes w_remotes].
      rewrite (kept_others init P rest name url Htidy). reflexivity.
    + erewrite bind_ok.
      2:{ erewrite bind_ok; [|apply call_quiet, Hquiet].
          apply registry_call_quiet. cbn [log_event w_remotes]. rewrite Hw.
          apply (reg_rename_in_others init P rest name url Hcn Hcu Hwf Htidy);
            assumption. }
      erewrite bind_ok; [|apply call_quiet, Hquiet].
      erewrite bind_ok.
      2:{ apply registry_call_quiet. cbn [log_event set_remotes w_remotes].
          apply (reg_add_at_end_of_P P rest name url Hcn Hcu). }
      eexists. split; [reflexivity|]. cbn [set_remotes w_remotes].
      rewrite (kept_renamed init P rest name url Hwf Htidy old_remote _ Hlook Hne)
        by (intros r Hr; apply List.filter_In in Hr as [Hr _]; exact Hr).
      rewrite others_snoc. reflexivity.
  - erewrite bind_ok; [|reflexivity].
    erewrite bind_ok; [|apply call_quiet, Hquiet].
    erewrite bind_ok.
    2:{ apply registry_call_quiet. cbn [log_event w_remotes]. rewrite Hw.
        apply (reg_add_at_end_of_P P rest name url Hcn Hcu). }
    eexists. split; [reflexivity|]. cbn [set_remotes w_remotes].
    rewrite (kept_others init P rest name url Htidy). reflexivity.
Qed.

Lemma setup_remotes_rounds_tidy (init items P : list (string * string)) (w : world) :
  NoDup (remote_names (P ++ items)) ->
  NoDup (remote_urls (P ++ items)) ->
  well_formed init ->
  tidy (P ++ items) init ->
  w_remotes w = P ++ others P init ->
  exists n w',
    for_fold items (setup_remotes_round E (get_remotes init)) (length P) w = (Ok n, w') /\
    w_remotes w' = (P ++ items) ++ others (P ++ items) init.
Proof.
  revert P w. induction items as [|[name url] items IH]; intros P w Hcn Hcu Hwf Htidy Hw.
  - exists (length P), w. rewrite app_nil_r. split; [reflexivity|exact Hw].
  - destruct (setup_remotes_round_tidy init P items name url w Hcn Hcu Hwf Htidy Hw)
      as (w1 & Hround & Hw1).
    assert (Heq : P ++ (name, url) :: items = (P ++ [(name, url)]) ++ items)
      by (rewrite <- app_assoc; reflexivity).
    rewrite Heq in Hcn, Hcu, Htidy |- *.
    destruct (IH (P ++ [(name, url)]) w1 Hcn Hcu Hwf Htidy Hw1) as (n & w' & Hloop & Hw').
    exists n, w'. split; [|exact Hw'].
    cbn [for_fold]. erewrite bind_ok; [|exact Hround].
    replace (length P + 1) with (length (P ++ [(name, url)]))
      by (rewrite length_app; reflexivity).
    exact Hloop.
Qed.

Lemma setup_remotes_tidy (w : world) :
  well_formed (w_remotes w) -> tidy remotes (w_remotes w) ->
  exists w', setup_remotes E w = (Ok tt, w') /\
             w_remotes w' = remotes ++ others remotes (w_remotes w).
Proof.
  intros Hwf Htidy.
  destruct (setup_remotes_rounds_tidy (w_remotes w) remotes [] w) as (n & w' & Hloop & Hw');
    try assumption.
  - vm_compute. repeat (apply NoDup_cons; split; [rewrite list_elem_of_In; cbn; intuition discriminate|]).
    apply NoDup_nil. exact I.
  - vm_compute. repeat (apply NoDup_cons; split; [rewrite list_elem_of_In; cbn; intuition discriminate|]).
    apply NoDup_nil. exact I.
  - rewrite others_nil. reflexivity.
  - exists w'. split; [|exact Hw']. unfold setup_remotes.
    erewrite bind_ok; [|reflexivity]. cbn [length] in Hloop.
    erewrite bind_ok; [|exact Hloop]. reflexivity.
Qed.

End QuietSetup.

Lemma others_of_table (canon : list (string * string)) : others canon canon = [].
Proof.
  unfold others.
  assert (Hall : forall l, (forall x, In x l -> In x canon) ->
                   List.filter (fun r => negb (mem (snd r) (remote_urls canon))) l = []).
  { induction l as [|x l IH]; intros Hl; [reflexivity|]. cbn [List.filter].
    assert (Hx : mem (snd x) (remote_urls canon) = true).
    { apply mem_In. apply (in_map snd canon x). apply Hl. left. reflexivity. }
    rewrite Hx. cbn [negb]. apply IH. intros y Hy. apply Hl. right. exact Hy. }
  apply Hall. auto.
Qed.

Lemma others_idempotent (canon reg : list (string * string)) :
  others canon (others canon reg) = others canon reg.
Proof.
  unfold others. rewrite filter_filter. apply List.filter_ext. intros r.
  destruct (negb (mem (snd r) (remote_urls canon))); reflexivity.
Qed.

Lemma others_app (canon l1 l2 : list (string * string)) :
  others canon (l1 ++ l2) = others canon l1 ++ others canon l2.
Proof. unfold others. apply List.filter_app. Qed.

(** What [setup_remotes] leaves is again well formed and tidy. *)
Lemma reconciled_well_formed (reg : list (string * string)) :
  well_formed reg -> tidy remotes reg -> well_formed (remotes ++ others remotes reg).
Proof.
  intros [Hn Hu] Htidy. unfold well_formed, remote_names, remote_urls.
  rewrite !map_app. split; apply NoDup_app.
  - split; [apply remotes_names_NoDup|]. split; [|apply NoDup_map_filter; exact Hn].
    intros n Hin Hin'. apply list_elem_of_In in Hin, Hin'.
    apply in_map_iff in Hin as ([n1 u1] & Heq1 & Hin). cbn in Heq1. subst n1.
    apply in_map_iff in Hin' as ([n2 u2] & Heq2 & Hin'). cbn in Heq2. subst n2.
    apply List.filter_In in Hin' as [Hreg Hfil]. cbn [snd] in Hfil.
    rewrite (Htidy n u2 u1 Hreg Hin) in Hfil.
    apply negb_true_iff, mem_false in Hfil. apply Hfil.
    exact (in_map snd remotes (n, u1) Hin).
  - split; [apply remotes_urls_NoDup|]. split; [|apply NoDup_map_filter; exact Hu].
    intros u Hin Hin'. apply list_elem_of_In in Hin, Hin'.
    apply in_map_iff in Hin' as ([n2 u2] & Heq2 & Hin'). cbn in Heq2. subst u2.
    apply List.filter_In in Hin' as [_ Hfil]. cbn [snd] in Hfil.
    apply negb_true_iff, mem_false in Hfil. apply Hfil. exact Hin.
Qed.

Lemma reconciled_tidy (reg : list (string * string)) :
  tidy remotes reg -> tidy remotes (remotes ++ others remotes reg).
Proof.
  intros Htidy n u u' Hin Hcanon. apply in_app_or in Hin as [Hin|Hin].
  - exact (same_name_same_url remotes n u u' remotes_names_NoDup Hin Hcanon).
  - apply List.filter_In in Hin as [Hin _]. exact (Htidy n u u' Hin Hcanon).
Qed.

(** X2. On a registry with one remote per name and per URL in which no
    canonical name is on a foreign URL, and when no call fails,
    [setup_remotes] returns and leaves the five canonical remotes in their
    priority order at positions 0 to 4, followed by the configured remotes
    of other URLs in their old order. *)
Theorem setup_remotes_reconciles (E : env) (w : world) :
  quiet E -> well_formed (w_remotes w) -> tidy remotes (w_remotes w) ->
  fst (setup_remotes E w) = Ok tt /\
  w_remotes (snd (setup_remotes E w)) = remotes ++ others remotes (w_remotes w).
Proof.
  intros Hq Hwf Htidy.
  destruct (setup_remotes_tidy E Hq w Hwf Htidy) as (w' & Hrun & Hw').
  rewrite Hrun. split; [reflexivity|exact Hw'].
Qed.

Lemma mirror_registry_well_formed : well_formed mirror_registry.
Proof.
  split; vm_compute;
    repeat (apply NoDup_cons; split; [rewrite list_elem_of_In; cbn; intuition discriminate|]);
    apply NoDup_nil; exact I.
Qed.

Lemma mirror_registry_tidy : tidy remotes mirror_registry.
Proof.
  intros n u u' Hin Hcanon. cbn in Hin, Hcanon.
  repeat match goal with
         | H : _ \/ _ |- _ => destruct H
         | H : False |- _ => destruct H
         | H : (_, _) = (_, _) |- _ => inversion H; clear H; subst
         end; try discriminate; reflexivity.
Qed.

Lemma setup_remotes_reconciles_witness :
  w_remotes (snd (setup_remotes quiet_env (empty_world mirror_registry))) =
  remotes ++ [("mirror", "http://mirror.example/conan")].
Proof.
  exact (proj2 (setup_remotes_reconciles quiet_env (empty_world mirror_registry)
                  quiet_env_quiet mirror_registry_well_formed mirror_registry_tidy)).
Defined.

(** X3. On such a registry [setup_remotes] is idempotent: a second run
    leaves the list of remotes as the first run left it. *)
Theorem setup_remotes_idempotent (E : env) (w : world) :
  quiet E -> well_formed (w_remotes w) -> tidy remotes (w_remotes w) ->
  w_remotes (after_setups E 2 w) = w_remotes (after_setups E 1 w).
Proof.
  intros Hq Hwf Htidy. cbn [after_setups].
  destruct (setup_remotes_tidy E Hq w Hwf Htidy) as (w1 & Hrun1 & H1).
  rewrite Hrun1. cbn [snd].
  destruct (setup_remotes_tidy E Hq w1) as (w2 & Hrun2 & H2).
  - rewrite H1. apply reconciled_well_formed; assumption.
  - rewrite H1. apply reconciled_tidy; assumption.
  - rewrite Hrun2. cbn [snd].
    rewrite H2, H1, others_app, others_of_table, others_idempotent. reflexivity.
Qed.

Lemma setup_remotes_idempotent_witness :
  w_remotes (after_setups quiet_env 2 (empty_world mirror_registry)) =
  w_remotes (after_setups quiet_env 1 (empty_world mirror_registry)).
Proof.
  exact (setup_remotes_idempotent quiet_env (empty_world mirror_registry)
           quiet_env_quiet mirror_registry_well_formed mirror_registry_tidy).
Defined.

(** X4. Whatever the registry holds and whichever call fails, the calls of
    [setup_remotes] are a prefix of this list, and all of it when the task
    returns: for each canonical remote in priority order, a rename (with its
    message) when the dictionary read before the loop has the URL under
    another name, then a forced add (with its message) at positions 0, 1,
    2, 3, 4. *)
Theorem setup_remotes_calls (E : env) (w : world) :
  exists l,
    w_log (snd (setup_remotes E w)) = w_log w ++ l /\
    l `prefix_of` setup_remotes_trace (w_remotes w) /\
    (fst (setup_remotes E w) = Ok tt -> l = setup_remotes_trace (w_remotes w)).
Proof.
  destruct (setup_remotes_follows E w) as (l & Hlog & Hpre & Hok).
  exists l. split; [exact Hlog|]. split; [exact Hpre|].
  intros Hr. exact (proj1 (Hok tt Hr)).
Qed.

(** ** Reading the generator from the cache *)

Lemma text_prefix_app (p g : text) : text_prefix p (p ++ g) = true.
Proof.
  induction p as [|a p IH]; [reflexivity|]. cbn [app text_prefix].
  rewrite N.eqb_refl. exact IH.
Qed.

Lemma text_prefix_split (p s : text) :
  text_prefix p s = true -> exists g, s = p ++ g.
Proof.
  revert s. induction p as [|a p IH]; intros s H; [exists s; reflexivity|].
  destruct s as [|b s]; [discriminate H|]. cbn [text_prefix] in H.
  apply andb_true_iff in H as [Hab Hp]. apply N.eqb_eq in Hab. subst b.
  destruct (IH s Hp) as [g ->]. exists g. reflexivity.
Qed.

Lemma split_go_head (cur s : text) :
  hd [] (split_go EQUALS cur s) = rev cur ++ until_equals s.
Proof.
  revert cur. induction s as [|c s IH]; intros cur; cbn [split_go until_equals].
  - cbn [hd]. symmetry. apply app_nil_r.
  - destruct (c =? EQUALS)%N.
    + cbn [hd]. symmetry. apply app_nil_r.
    + rewrite IH. cbn [rev]. rewrite <- app_assoc. reflexivity.
Qed.

(** [split] always gives at least one piece. *)
Lemma split_go_not_nil (sep : N) (cur s : text) : split_go sep cur s <> [].
Proof.
  revert cur. induction s as [|c s IH]; intros cur; cbn [split_go]; [discriminate|].
  destruct (c =? sep)%N; [discriminate|apply IH].
Qed.

(** Text without the separator, followed by the separator, is one piece. *)
Lemma split_go_through (sep : N) (k cur g : text) :
  forallb (fun c => negb (c =? sep)%N) k = true ->
  split_go sep cur (k ++ sep :: g) = (rev cur ++ k) :: split_go sep [] g.
Proof.
  revert cur. induction k as [|c k IH]; intros cur Hk; cbn [app split_go].
  - rewrite N.eqb_refl, app_nil_r. reflexivity.
  - cbn [forallb] in Hk. apply andb_true_iff in Hk as [Hc Hk]. apply negb_true_iff in Hc.
    rewrite Hc, IH by exact Hk. cbn [rev]. rewrite <- app_assoc. reflexivity.
Qed.

Lemma split_after_key (g : text) :
  nth_error (split EQUALS (GENERATOR_KEY ++ g)) 1 = Some (until_equals g).
Proof.
  unfold split.
  change (GENERATOR_KEY ++ g) with (text_of "CMAKE_GENERATOR:INTERNAL" ++ EQUALS :: g).
  rewrite split_go_through by reflexivity. cbn [nth_error].
  pose proof (split_go_head [] g) as Hhd.
  destruct (split_go EQUALS [] g) as [|x l] eqn:Hs.
  - exfalso. exact (split_go_not_nil _ _ _ Hs).
  - cbn [hd rev app] in Hhd. rewrite Hhd. reflexivity.
Qed.

Lemma until_equals_no_equals (g : text) : contains [EQUALS] (until_equals g) = false.
Proof.
  induction g as [|c g IH]; [reflexivity|]. cbn [until_equals].
  destruct (c =? EQUALS)%N eqn:Hc; [reflexivity|].
  cbn [contains text_prefix]. rewrite IH, N.eqb_sym, Hc. reflexivity.
Qed.

(** What [strip] removes is white space, and what it leaves has none at
    either end. *)
Lemma lstrip_spec (s : text) :
  exists l, s = l ++ lstrip s /\ forallb py_space l = true /\
            match lstrip s with [] => True | c :: _ => py_space c = false end.
Proof.
  induction s as [|c s IH]; [exists []; cbn; auto|].
  destruct IH as (l & Hs & Hl & Hhead).
  cbn [lstrip]. destruct (py_space c) eqn:Hc.
  - exists (c :: l). cbn [app forallb]. rewrite Hc, Hl, <- Hs. auto.
  - exists []. cbn [app forallb]. rewrite Hc. auto.
Qed.

Lemma strip_spec (s : text) :
  exists l r, s = l ++ strip s ++ r /\
              forallb py_space l = true /\ forallb py_space r = true /\
              match strip s with [] => True | c :: _ => py_space c = false end /\
              match rev (strip s) with [] => True | c :: _ => py_space c = false end.
Proof.
  destruct (lstrip_spec s) as (l & Hs & Hl & Hhead).
  destruct (lstrip_spec (rev (lstrip s))) as (r & Hr & Hrs & Hlast).
  exists l, (rev r). unfold strip, rstrip.
  assert (Hmid : lstrip s = rev (lstrip (rev (lstrip s))) ++ rev r).
  { rewrite <- rev_app_distr, <- Hr, rev_involutive. reflexivity. }
  split; [rewrite <- Hmid; exact Hs|]. split; [exact Hl|].
  split; [rewrite forallb_forall in *; intros x Hx; apply Hrs, in_rev; exact Hx|].
  split; [|rewrite rev_involutive; exact Hlast].
  destruct (rev (lstrip (rev (lstrip s)))) as [|c t] eqn:Ht; [exact I|].
  rewrite Hmid in Hhead. exact Hhead.
Qed.

(** The loop stops at the first line that has the key. *)
Lemma cmake_generator_lines_first (before after : list text) (error : option exn)
    (line g : text) (w : world) :
  no_generator_line before = true ->
  strip line = GENERATOR_KEY ++ g ->
  cmake_generator_lines (before ++ line :: after) error w = (Ok (Some (until_equals g)), w).
Proof.
  intros Hbefore Hline. unfold no_generator_line in Hbefore.
  induction before as [|l before IH]; cbn [app cmake_generator_lines].
  - rewrite Hline.
    assert (Hstart : text_startswith (GENERATOR_KEY ++ g) (text_of "CMAKE_GENERATOR:INTERNAL=")
                     = true) by apply (text_prefix_app GENERATOR_KEY g).
    rewrite Hstart, split_after_key. reflexivity.
  - cbn [forallb] in Hbefore. apply andb_true_iff in Hbefore as [Hl Hrest].
    apply negb_true_iff in Hl. rewrite Hl. apply IH. exact Hrest.
Qed.



(** White space that is not ASCII is stripped as well: a line that starts
    with a no-break space is the generator line. *)
Example cmake_generator_after_no_break_space :
  cmake_generator_lines
    [NBSP :: text_of "CMAKE_GENERATOR:INTERNAL=Ninja" ++ [NBSP; 0x2003%N; 0x85%N];
     text_of "CMAKE_GENERATOR:INTERNAL=Unix Makefiles"] None (empty_world [])
  = (Ok (Some (text_of "Ninja")), empty_world []).
Proof. vm_compute. reflexivity. Qed.

(** X6. The loop of [cmake_generator] never raises of its own: a line that
    starts with the key has a second piece when split at [=], so the index
    1 is always in range.  It returns [None] exactly when no line has the
    key and the file was read to its end, and it raises exactly when no
    line read has the key and the reading raises, with that exception. *)
Theorem cmake_generator_lines_total (cache : list text) (error : option exn) (w : world) :
  exists r, cmake_generator_lines cache error w = (r, w) /\
            (r = Ok None <-> no_generator_line cache = true /\ error = None) /\
            (forall x, r = Raise x <-> no_generator_line cache = true /\ error = Some x).
Proof.
  unfold no_generator_line. induction cache as [|line cache IH].
  - destruct error as [y|]; eexists; (split; [reflexivity|]); cbn [forallb];
      (split; [|intros x]); intuition congruence.
  - cbn [cmake_generator_lines forallb].
    destruct (text_startswith (strip line) (text_of "CMAKE_GENERATOR:INTERNAL=")) eqn:Hs.
    + destruct (text_prefix_split _ _ Hs) as [g Hg]. rewrite Hg.
      change (text_of "CMAKE_GENERATOR:INTERNAL=") with GENERATOR_KEY.
      rewrite split_after_key. eexists. split; [reflexivity|].
      cbn [negb andb]. (split; [|intros x]); intuition congruence.
    + destruct IH as (r & Hr & Hiff). exists r. split; [exact Hr|].
      cbn [negb andb]. exact Hiff.
Qed.

(** ** The command of [build] *)

Lemma cmake_generator_found (E : env) (file : text_file) (before after : list text)
    (line g : text) (w : world) :
  env_fails E (w_log w) (EOpen (os_path_join E "build" "CMakeCache.txt")) = None ->
  env_cmake_cache E = Some file ->
  tf_lines file = before ++ line :: after ->
  no_generator_line before = true ->
  strip line = GENERATOR_KEY ++ g ->
  cmake_generator E w =
    (Ok (Some (until_equals g)), log_event (EOpen (os_path_join E "build" "CMakeCache.txt")) w).
Proof.
  intros Hopen Hcache Hlines Hbefore Hline. unfold cmake_generator, open_file.
  rewrite Hcache.
  erewrite bind_ok.
  2:{ erewrite bind_ok; [|apply call_quiet; exact Hopen]. reflexivity. }
  rewrite Hlines. apply cmake_generator_lines_first; assumption.
Qed.

(** X7. With [parallel], a cache whose first generator line names [g], and
    no failing call, [build] opens the cache and then runs exactly one
    command under the activation prefix: [cmake --build build], the
    configuration option when the build directory is a multi-configuration
    one, and the job options of the generator: [-- -jN] for a Makefiles
    generator other than NMake, [-- /m:N] for Visual Studio, none
    otherwise.  Without [parallel], [build] does not touch the cache: its
    one call is the command without job options. *)
Theorem build_runs_one_command (E : env) (config : option string) (w : world) :
  (forall file before after line g,
     quiet E ->
     env_cmake_cache E = Some file ->
     tf_lines file = before ++ line :: after ->
     no_generator_line before = true ->
     strip line = GENERATOR_KEY ++ g ->
     fst (build E config true w) = Ok tt /\
     w_log (snd (build E config true w)) =
       w_log w ++ [EOpen (os_path_join E "build" "CMakeCache.txt");
                   build_command E config (job_options E (until_equals g))]) /\
  w_log (snd (build E config false w)) = w_log w ++ [build_command E config ""].
Proof.
  split.
  - intros file before after line g Hq Hcache Hlines Hbefore Hline. unfold build.
    rewrite (bind_ok _ _ w (job_options E (until_equals g))
               (log_event (EOpen (os_path_join E "build" "CMakeCache.txt")) w)).
    2:{ erewrite bind_ok;
          [|apply (cmake_generator_found E file before after line g w (Hq _ _)
                     Hcache Hlines Hbefore Hline)].
        unfold job_options.
        destruct (contains (text_of "Makefiles") (until_equals g)
                  && negb (contains (text_of "NMake") (until_equals g)));
          [reflexivity|].
        destruct (contains (text_of "Visual Studio") (until_equals g)); reflexivity. }
    rewrite call_quiet by apply Hq.
    unfold build_command, config_options, job_options. cbn [fst snd log_event w_log].
    rewrite <- app_assoc.
    destruct (env_exists E (os_path_join E "build" "conanbuildinfo_multi.cmake"));
      destruct (contains (text_of "Makefiles") (until_equals g)
                && negb (contains (text_of "NMake") (until_equals g)));
      try destruct (contains (text_of "Visual Studio") (until_equals g));
      split; reflexivity.
  - unfold build. erewrite bind_ok; [|reflexivity]. rewrite call_log.
    unfold build_command, config_options.
    destruct (env_exists E (os_path_join E "build" "conanbuildinfo_multi.cmake")); reflexivity.
Qed.

(** On the sample machine: eight jobs for Unix Makefiles. *)
Lemma build_runs_one_command_witness :
  w_log (snd (build quiet_env None true (empty_world []))) =
    [EOpen "build/CMakeCache.txt";
     ERun ["source /home/kam/tesseract/build/activate.sh"] "cmake --build build -- -j8"].
Proof.
  exact (proj2 (proj1 (build_runs_one_command quiet_env None (empty_world []))
                  (lines_of ["# This is the CMakeCache file." +:+ NL;
                             "CMAKE_GENERATOR:INTERNAL=Unix Makefiles" +:+ NL])
                  [text_of ("# This is the CMakeCache file." +:+ NL)] []
                  (text_of ("CMAKE_GENERATOR:INTERNAL=Unix Makefiles" +:+ NL))
                  (text_of "Unix Makefiles")
                  quiet_env_quiet eq_refl eq_refl eq_refl eq_refl)).
Defined.

(** ** The user name of [login] *)

Lemma login_trace_no_input (E : env) (u : string) (reg : list (string * string)) :
  count_events is_input (login_trace E (Some u) reg) = 0.
Proof.
  unfold login_trace. destruct (List.filter (needs_login E) reg) as [|r pending];
    [reflexivity|].
  pose proof (count_authenticate_events E is_input (Some u) (r :: pending)
                (fun _ _ _ => eq_refl)) as Hauth.
  unfold count_events, login_prompts in *.
  remember (map (authenticate_event E (Some u)) (r :: pending)) as auths.
  cbn [app List.filter is_input]. exact Hauth.
Qed.

(** X8. When a user name is given, [login] never asks for one, and every
    remote it authenticates is authenticated under that name.  When none is
    given and nothing is typed at the prompt, every remote is authenticated
    under the OS user name. *)
Theorem login_user_name (E : env) (w : world) :
  (forall u, exists l,
     w_log (snd (login E (Some u) w)) = w_log w ++ l /\
     count_events is_input l = 0 /\
     forall usr t n, In (EAuthenticate usr t n) l -> usr = Some u) /\
  (env_input E = "" -> exists l,
     w_log (snd (login E None w)) = w_log w ++ l /\
     forall usr t n, In (EAuthenticate usr t n) l -> usr = Some (env_os_user E)).
Proof.
  split.
  - intros u. destruct (login_follows E (Some u) w) as (l & Hlog & Hpre & _).
    exists l. split; [exact Hlog|]. split.
    + pose proof (count_events_prefix is_input _ _ Hpre) as Hle.
      rewrite login_trace_no_input in Hle. lia.
    + intros usr t n Hin.
      apply (login_trace_authenticate E (Some u) (w_remotes w) usr t n).
      destruct Hpre as [k ->]. apply in_or_app. left. exact Hin.
  - intros Hinput. destruct (login_follows E None w) as (l & Hlog & Hpre & _).
    exists l. split; [exact Hlog|]. intros usr t n Hin.
    destruct (login_trace_authenticate E None (w_remotes w) usr t n) as [Hu _].
    + destruct Hpre as [k ->]. apply in_or_app. left. exact Hin.
    + rewrite Hu. unfold login_user. rewrite Hinput. reflexivity.
Qed.

Lemma login_user_name_witness :
  exists l,
    w_log (snd (login quiet_env None (empty_world remotes))) = [] ++ l /\
    forall usr t n, In (EAuthenticate usr t n) l -> usr = Some "kam".
Proof.
  exact (proj2 (login_user_name quiet_env (empty_world remotes)) eq_refl).
Defined.

(** ** The registry key of [check_long_paths] *)

(** What a computation adds to the log, in any outcome, are events that
    satisfy [Q]. *)
Lemma logs_only_ret {A} (Q : event -> bool) (a : A) (w : world) :
  exists l, w_log (snd (ret a w)) = w_log w ++ l /\ forallb Q l = true.
Proof. exists []. cbn. rewrite app_nil_r. auto. Qed.

Lemma logs_only_call (E : env) (Q : event -> bool) (e : event) (w : world) :
  Q e = true ->
  exists l, w_log (snd (call E e w)) = w_log w ++ l /\ forallb Q l = true.
Proof.
  intros He. exists [e]. rewrite call_log. cbn. rewrite He. auto.
Qed.

Lemma logs_only_bind {A B} (Q : event -> bool) (m : M A) (f : A -> M B) (w : world) :
  (exists l, w_log (snd (m w)) = w_log w ++ l /\ forallb Q l = true) ->
  (forall a w1, exists l, w_log (snd (f a w1)) = w_log w1 ++ l /\ forallb Q l = true) ->
  exists l, w_log (snd (bind m f w)) = w_log w ++ l /\ forallb Q l = true.
Proof.
  intros (l1 & Hl1 & Hq1) Hf. unfold bind. destruct (m w) as [[a|x] w1]; cbn [snd] in *.
  - destruct (Hf a w1) as (l2 & Hl2 & Hq2). exists (l1 ++ l2).
    rewrite Hl2, Hl1, app_assoc, forallb_app, Hq1, Hq2. auto.
  - exists l1. auto.
Qed.

Lemma logs_only_try_except {A} (Q : event -> bool) (m h : M A) (catches : exn -> bool)
    (w : world) :
  (exists l, w_log (snd (m w)) = w_log w ++ l /\ forallb Q l = true) ->
  (forall w1, exists l, w_log (snd (h w1)) = w_log w1 ++ l /\ forallb Q l = true) ->
  exists l, w_log (snd (try_except m catches h w)) = w_log w ++ l /\ forallb Q l = true.
Proof.
  intros (l1 & Hl1 & Hq1) Hh. unfold try_except.
  destruct (m w) as [[a|x] w1]; cbn [snd] in *; [exists l1; auto|].
  destruct (catches x); [|exists l1; auto].
  destruct (Hh w1) as (l2 & Hl2 & Hq2). exists (l1 ++ l2).
  rewrite Hl2, Hl1, app_assoc, forallb_app, Hq1, Hq2. auto.
Qed.

(** X9. Off Windows [check_long_paths] does nothing.  On Windows, once the
    registry key is open, it is closed as the last thing on every path:
    when the value is read, when it is missing, when the query raises
    something else, and when a warning cannot be printed. *)
Theorem check_long_paths_closes_key (E : env) (w : world) :
  (env_platform E <> Win32 -> check_long_paths E w = (Ok tt, w)) /\
  (env_platform E = Win32 -> env_fails E (w_log w) EOpenKey = None ->
   exists l, w_log (snd (check_long_paths E w)) = w_log w ++ EOpenKey :: l ++ [ECloseKey] /\
             forallb (fun e => negb (is_key_event e)) l = true).
Proof.
  split.
  - intros Hp. unfold check_long_paths.
    destruct (env_platform E); [reflexivity|exfalso; apply Hp; reflexivity|reflexivity].
  - intros Hp Hopen. unfold check_long_paths. rewrite Hp.
    erewrite bind_ok; [|apply call_quiet; exact Hopen].
    unfold finally.
    match goal with
    | |- context [let '(r, w') := ?body ?w0 in _] =>
        assert (Hbody : exists l, w_log (snd (body w0)) = w_log w0 ++ l /\
                                  forallb (fun e => negb (is_key_event e)) l = true)
    end.
    { apply logs_only_bind.
      - apply logs_only_try_except.
        + apply logs_only_bind; [apply logs_only_call; reflexivity|].
          intros _ w1. apply logs_only_ret.
        + intros w1. apply logs_only_ret.
      - intros v w1. destruct (Nat.eqb v 0); [|apply logs_only_ret].
        apply logs_only_bind; [apply logs_only_call; reflexivity|].
        intros _ w2. apply logs_only_call. reflexivity. }
    destruct Hbody as (l & Hl & Hq). exists l. split; [|exact Hq].
    match goal with
    | |- context [let '(r, w') := ?body ?w0 in _] => destruct (body w0) as [r w1]
    end.
    cbn [snd log_event w_log] in *. rewrite Hl, <- !app_assoc. reflexivity.
Qed.

Lemma check_long_paths_closes_key_witness :
  exists l,
    w_log (snd (check_long_paths no_long_paths_value_env (empty_world []))) =
      [] ++ EOpenKey :: l ++ [ECloseKey] /\
    forallb (fun e => negb (is_key_event e)) l = true.
Proof.
  exact (proj2 (check_long_paths_closes_key no_long_paths_value_env (empty_world []))
           eq_refl eq_refl).
Defined.

(** ** What the promotion leaves alone *)

(** X10. Whatever happens, every call [upload_dependencies] makes is either
    the reading of the dependency graph or one of the promotion calls of a
    dependency that is stable, of a foreign user and not an alias: nothing
    is copied, uploaded, removed or aliased for a dependency of the local
    user, of [datalogics], of another channel, or for an alias. *)
Theorem upload_dependencies_touches_only_promotable (E : env) (w : world) :
  exists l,
    w_log (snd (upload_dependencies E w)) = w_log w ++ l /\
    forall e, In e l ->
      e = EGraphInfo \/
      exists d, In d (env_dependencies E) /\ promotable E d = true /\ dep_alias d = None /\
                In e (promotion_calls (env_remote_refs E (w_log w)) d).
Proof.
  destruct (upload_dependencies_follows E w) as (l & Hlog & Hpre & _).
  exists l. split; [exact Hlog|]. intros e Hin.
  assert (Htrace : In e (upload_dependencies_trace E (env_remote_refs E (w_log w))))
    by (destruct Hpre as [k ->]; apply in_or_app; left; exact Hin).
  unfold upload_dependencies_trace in Htrace. cbn [app] in Htrace.
  destruct Htrace as [<-|Htrace]; [left; reflexivity|]. right.
  apply in_concat in Htrace as (calls & Hcalls & He).
  apply in_map_iff in Hcalls as (d & <- & Hd).
  apply List.filter_In in Hd as [Hd Hp]. unfold upload_dependency_trace in He.
  destruct (dep_alias d) eqn:Halias; [destruct He|].
  exists d. auto.
Qed.

(** ** Release branches by prefix *)

(** X11. [package_username] answers [datalogics] exactly for the branch
    names that start with [dl/stable/], whatever follows (nothing, or text
    with line breaks), and the OS user name for every other branch name and
    when there is no branch. *)
Theorem package_username_by_prefix (ci_branch : option string) (os_user : string) :
  package_username ci_branch os_user =
    match ci_branch with
    | Some b => if String.prefix "dl/stable/" b then "datalogics" else os_user
    | None => os_user
    end.
Proof.
  unfold package_username. destruct ci_branch as [b|]; [|reflexivity].
  rewrite stable_pattern_is_prefix.
  destruct (String.eqb_spec b "") as [->|_]; reflexivity.
Qed.

(** ** The calls of [package] *)

Section Package.

Context (E : env).

Lemma returns_staged_loop (f : build_item -> path -> event) (items : list build_item)
    (w : world) :
  returns (for_each items (fun item => with_tempdir E (fun tmpdir => call E (f item tmpdir))))
    w (staged_trace f (w_next w) items)
    (fun _ w' => w_remotes w' = w_remotes w /\ w_next w' = w_next w + length items).
Proof.
  revert w. induction items as [|item items IH]; intros w; cbn [for_each staged_trace].
  - apply returns_ret. split; [reflexivity|cbn; lia].
  - eapply returns_bind.
    + apply (returns_with_tempdir E _ w [f item (PTmp (w_next w))]
               (fun _ w2 => w_remotes w2 = w_remotes w /\ w_next w2 = S (w_next w))
               (fun _ w2 => w_remotes w2 = w_remotes w /\ w_next w2 = S (w_next w))).
      * intros w1 _ Hr Hn. eapply returns_post; [|apply returns_call].
        intros ? w2 [Hr2 Hn2]. split; congruence.
      * intros ? w2 Hp. exact Hp.
    + intros ? w1 _ [Hr Hn]. rewrite <- Hn.
      eapply returns_post; [|apply IH].
      intros ? w2 [Hr2 Hn2]. split; [congruence|]. rewrite Hn2, Hn. cbn [length]. lia.
Qed.

Lemma returns_open_file {A} (file : string) (c : A) (w : world) :
  returns (open_file E file (Some c)) w [EOpen file]
    (fun a w' => a = c /\ w_next w' = w_next w).
Proof.
  intros a w' Hr. unfold open_file in Hr.
  apply bind_inv_ok in Hr as (u & w1 & Hcall & Hret).
  apply call_inv_ok in Hcall as [_ ->]. inversion Hret; subst. cbn. auto.
Qed.

Lemma returns_package (username : string) (force_upload : bool)
    (info : list (string * string)) (w : world) :
  env_deps_env_info E = Some info ->
  returns (package E username force_upload) w (package_trace E info (w_next w))
    (fun _ _ => True).
Proof.
  intros Hinfo. unfold package, package_trace, tools_deps_env_info. rewrite Hinfo.
  cbn [app].
  returns_call_then. returns_call_then.
  eapply returns_unfolded.
  { unfold bind at 1. rewrite get_builder_returns. reflexivity. }
  returns_call_then.
  apply (returns_trace _ _
           (([EInstallBuildTools] ++ [EOpen "build_tools/build/conanbuildinfo.json"] ++ []) ++
            [EEnvAppend (tools_vars info)] ++
            (staged_trace (leptonica_install E) (w_next w) (env_builder_items E) ++
             [EBuilderRun (base_profile E)]) ++
            [EEnvRestore (tools_vars info)])).
  { cbn [app]. rewrite <- !app_assoc. reflexivity. }
  eapply returns_bind with (P := fun a w' => a = info /\ w_next w' = w_next w).
  - eapply returns_bind; [apply returns_call|]. intros ? w4 _ [_ Hn4].
    eapply returns_bind; [apply returns_open_file|]. intros c w5 _ [-> Hn5].
    apply returns_ret. split; [reflexivity|congruence].
  - intros c w6 _ [-> Hn6].
    apply (returns_with_environment E _ _ w6 _ (fun _ _ => True)); [|auto].
    intros w7 _ _ Hn7.
    replace (w_next w) with (w_next w7) by congruence.
    eapply returns_bind; [apply (returns_staged_loop (leptonica_install E))|].
    intros ? w8 _ _. eapply returns_post; [|apply returns_call]. auto.
Qed.

Lemma package_without_info (username : string) (force_upload : bool) (w : world) :
  env_deps_env_info E = None ->
  exists x, fst (package E username force_upload w) = Raise x.
Proof.
  intros Hnone. unfold package.
  destruct (call E (ESetEnv "CONAN_PIP_USE_SUDO" "False") w) as [[u1|x1] w1] eqn:H1;
    [erewrite bind_ok by exact H1|erewrite bind_raise by exact H1; eauto].
  destruct (call E (ESetEnv "CONAN_NON_INTERACTIVE" "True") w1) as [[u2|x2] w2] eqn:H2;
    [erewrite bind_ok by exact H2|erewrite bind_raise by exact H2; eauto].
  erewrite bind_ok by apply get_builder_returns.
  destruct (call E EAddCommonBuilds w2) as [[u3|x3] w3] eqn:H3;
    [erewrite bind_ok by exact H3|erewrite bind_raise by exact H3; eauto].
  destruct (tools_deps_env_info_missing E w3 Hnone) as [x Hx].
  destruct (tools_deps_env_info E w3) as [[info|x4] w4] eqn:H4; [discriminate Hx|].
  erewrite bind_raise by exact H4. eauto.
Qed.

End Package.

(** X12. When [package] returns, its calls are, in this order: the two
    environment settings, the common builds, the install of the build tools
    and the reading of their build info, then, inside the environment made
    from that info, one install of leptonica per build configuration, each
    in a staging directory of its own that is removed before the next one is
    made, then the one run of the builder, after all the installs; last the
    environment is restored.  When the build info file is missing,
    [package] does not return. *)
Theorem package_returns (E : env) (username : string) (force_upload : bool) (w : world) :
  (forall w', package E username force_upload w = (Ok tt, w') ->
     exists info, env_deps_env_info E = Some info /\
                  w_log w' = w_log w ++ package_trace E info (w_next w)) /\
  (env_deps_env_info E = None ->
   exists x, fst (package E username force_upload w) = Raise x).
Proof.
  split; [|apply package_without_info].
  intros w' Hrun. destruct (env_deps_env_info E) as [info|] eqn:Hinfo.
  - exists info. split; [reflexivity|].
    exact (proj1 (returns_package E username force_upload info w Hinfo tt w' Hrun)).
  - destruct (package_without_info E username force_upload w Hinfo) as [x Hx].
    rewrite Hrun in Hx. discriminate Hx.
Qed.

Lemma package_returns_witness :
  w_log (snd (package quiet_env "kam" false (empty_world remotes))) =
    package_trace quiet_env [("PATH", "/opt/tools/bin")] 0.
Proof.
  destruct (proj1 (package_returns quiet_env "kam" false (empty_world remotes))
              (snd (package quiet_env "kam" false (empty_world remotes))))
    as (info & Hinfo & Hlog); [vm_compute; reflexivity|].
  inversion Hinfo; subst info. exact Hlog.
Defined.

(** ** Where the redirect remote ends up *)

Lemma remove_redirect_inv (E : env) (w w' : world) (u : unit) :
  remove_redirect E w = (Ok u, w') -> w_remotes w' = without_redirect (w_remotes w).
Proof.
  unfold remove_redirect, bind, remote_list, without_redirect.
  destruct (mem REDIRECT_REMOTE (remote_names (w_remotes w))) eqn:Hmem.
  - unfold remote_remove, registry_call. intros Hr.
    apply bind_inv_ok in Hr as (v & w1 & Hcall & Hop).
    apply call_inv_ok in Hcall as [_ ->]. cbn [log_event w_remotes] in Hop.
    unfold reg_remove in Hop. rewrite Hmem in Hop. cbn [negb] in Hop.
    inversion Hop. reflexivity.
  - intros Hr. inversion Hr; subst. symmetry. apply filter_keeps_all.
    intros [n url] Hin. cbn [fst]. apply negb_true_iff, String.eqb_neq. intros ->.
    apply mem_false in Hmem. apply Hmem. exact (in_map fst _ (REDIRECT_REMOTE, url) Hin).
Qed.

Lemma remote_add_plain_inv (E : env) (name url : string) (w w' : world) (u : unit) :
  remote_add E name url None false w = (Ok u, w') ->
  w_remotes w' = w_remotes w ++ [(name, url)].
Proof.
  unfold remote_add, registry_call. intros Hr.
  apply bind_inv_ok in Hr as (v & w1 & Hcall & Hop).
  apply call_inv_ok in Hcall as [_ ->]. cbn [log_event w_remotes] in Hop.
  unfold reg_add in Hop.
  destruct (mem name (remote_names (w_remotes w))); [discriminate Hop|].
  destruct (mem url (remote_urls (w_remotes w))); [discriminate Hop|].
  inversion Hop. reflexivity.
Qed.

(** X13. When [install_all_configurations] returns, the redirect remote is
    the last remote of the list, whatever its place before and also when it
    was not configured, and the other remotes are in their old order: the
    installs change the priority of [conan-redirect] from wherever it was to
    the lowest. *)
Theorem install_all_configurations_moves_redirect (E : env) (w w' : world) :
  install_all_configurations E w = (Ok tt, w') ->
  w_remotes w' = without_redirect (w_remotes w) ++ [(REDIRECT_REMOTE, REDIRECT_URL)].
Proof.
  intros Hrun. unfold install_all_configurations in Hrun.
  apply bind_inv_ok in Hrun as (u1 & w1 & Hgb & Hrun).
  rewrite get_builder_returns in Hgb. inversion Hgb; subst u1 w1.
  apply bind_inv_ok in Hrun as (u2 & w2 & Hadd & Hrun).
  apply call_inv_ok in Hadd as [_ ->].
  rewrite conan_redirect_removed_unfold in Hrun.
  apply bind_inv_ok in Hrun as (u3 & w3 & Hrem & Hrun).
  apply bind_inv_ok in Hrun as (u4 & w4 & Hloop & Hrun).
  apply bind_inv_ok in Hrun as (u5 & w5 & Hreadd & Hret).
  inversion Hret; subst w'.
  rewrite (remote_add_plain_inv E _ _ _ _ _ Hreadd).
  destruct (returns_install_loop E _ w3 u4 w4 Hloop) as [_ [Hsame _]].
  rewrite Hsame, (remove_redirect_inv E _ _ _ Hrem). reflexivity.
Qed.

Lemma install_all_configurations_moves_redirect_witness :
  w_remotes (snd (install_all_configurations quiet_env (empty_world remotes))) =
    skipn 1 remotes ++ [(REDIRECT_REMOTE, REDIRECT_URL)].
Proof.
  refine (install_all_configurations_moves_redirect quiet_env (empty_world remotes)
            (snd (install_all_configurations quiet_env (empty_world remotes))) _).
  vm_compute. reflexivity.
Defined.

(** ** The isolated home around a block *)

Section IsolatedHome.

Context (E : env) (Hquiet : quiet_but_exits E).

Lemma calls_quiet {A} (xs : list A) (f : A -> event) (w : world) :
  (forall x, is_exit (f x) = false) ->
  exists w', for_each xs (fun x => call E (f x)) w = (Ok tt, w') /\
             w_live w' = w_live w /\ w_next w' = w_next w.
Proof.
  intros Hf. revert w. induction xs as [|x xs IH]; intros w; cbn [for_each].
  - exists w. auto.
  - erewrite bind_ok; [|apply call_quiet, Hquiet, Hf].
    destruct (IH (log_event (f x) w)) as (w' & Hrun & Hl & Hn). exists w'. auto.
Qed.

Lemma remove_remote_refs_quiet (w : world) :
  exists w', remove_remote_refs E w = (Ok tt, w') /\
             w_live w' = w_live w /\ w_next w' = w_next w.
Proof.
  unfold remove_remote_refs. erewrite bind_ok; [|reflexivity]. apply calls_quiet.
  reflexivity.
Qed.

Lemma check_long_paths_quiet (w : world) :
  exists w', check_long_paths E w = (Ok tt, w') /\
             w_live w' = w_live w /\ w_next w' = w_next w.
Proof.
  unfold check_long_paths. destruct (env_platform E); try (exists w; auto; fail).
  unfold finally, try_except, bind, call, ret.
  repeat (rewrite Hquiet by reflexivity; cbn beta iota). cbn [log_event w_log].
  destruct (Nat.eqb (env_long_paths E) 0);
    repeat (rewrite Hquiet by reflexivity; cbn beta iota);
    eexists; (split; [reflexivity|]); cbn; auto.
Qed.

End IsolatedHome.

(** X14. When no call of its entry part fails, [temporary_user_home_api]
    runs its block with the temporary home alive.  Whatever the block does,
    return or raise, the environment is then restored and after that the
    removal of the temporary home is called, also when the restoring
    raised.  When neither of the two raises, the outcome of the context
    manager is the block's and the home is gone; when the restoring raises
    and the removal does not, the outcome is the exception of the restoring
    and the home is gone; when the removal raises, the outcome is its
    exception, in place of the block's, and the home is left behind. *)
Theorem temporary_user_home_api_exits (E : env) (A : Type) (body : M A) (w : world) :
  quiet_but_exits E ->
  exists w2,
    w_live w2 = w_next w :: w_live w /\
    forall r w3, body w2 = (r, w3) ->
      let d := w_next w in
      let w4 := log_event (EEnvRestore (home_vars d)) w3 in
      temporary_user_home_api E body w =
        match env_fails E (w_log w3) (EEnvRestore (home_vars d)),
              env_fails E (w_log w4) (ECleanup d) with
        | _, Some y => (Raise y, log_event (ECleanup d) w4)
        | Some x, None => (Raise x, del_tmp d w4)
        | None, None => (r, del_tmp d w4)
        end.
Proof.
  intros Hq. unfold temporary_user_home_api, with_tempdir.
  erewrite bind_ok; [|apply call_quiet, Hq; reflexivity]. unfold with_exit at 1.
  set (w0 := add_tmp (w_next w) (log_event (EMkdtemp (w_next w)) w)).
  erewrite bind_ok; [|apply call_quiet, Hq; reflexivity].
  erewrite bind_ok; [|apply call_quiet, Hq; reflexivity].
  unfold with_environment. erewrite bind_ok; [|apply call_quiet, Hq; reflexivity].
  unfold with_exit.
  match goal with
  | |- context [(check_long_paths E ;;; _) ?w1] =>
      destruct (check_long_paths_quiet E Hq w1) as (wc & Hc & Hlc & Hnc);
      destruct (remove_remote_refs_quiet E Hq wc) as (wr & Hr & Hlr & Hnr)
  end.
  exists wr. split.
  - rewrite Hlr, Hlc. reflexivity.
  - intros r w3 Hbody. cbv zeta.
    erewrite bind_ok; [|exact Hc]. erewrite bind_ok; [|exact Hr].
    rewrite Hbody. unfold call, cleanup. fold (home_vars (w_next w)).
    destruct (env_fails E (w_log w3) (EEnvRestore (home_vars (w_next w)))) as [x|];
      cbn [log_event w_log];
      destruct (env_fails E (w_log w3 ++ [EEnvRestore (home_vars (w_next w))])
                  (ECleanup (w_next w))) as [y|]; reflexivity.
Qed.

(** A block that raises inside the isolated home, with exits that do not
    raise: the exception of the block comes out and no temporary directory
    is left.  A block that returns, with a home that cannot be removed: the
    exception of the removal comes out and the home is left. *)
Lemma temporary_user_home_api_exits_witness :
  (fst (temporary_user_home_api quiet_env (@raise unit (OtherError "upload failed"))
          (empty_world remotes)) = Raise (OtherError "upload failed") /\
   w_live (snd (temporary_user_home_api quiet_env (@raise unit (OtherError "upload failed"))
                  (empty_world remotes))) = []) /\
  (fst (temporary_user_home_api stuck_home_env (ret tt) (empty_world remotes))
     = Raise (OtherError "PermissionError") /\
   w_live (snd (temporary_user_home_api stuck_home_env (ret tt) (empty_world remotes)))
     = [0]).
Proof.
  split.
  - destruct (temporary_user_home_api_exits quiet_env unit (raise (OtherError "upload failed"))
                (empty_world remotes)) as (w2 & Hlive & Hexit);
      [intros h e _; reflexivity|].
    rewrite (Hexit (Raise (OtherError "upload failed")) w2 eq_refl).
    split; [reflexivity|]. cbn [snd del_tmp log_event w_live quiet_env env_fails].
    rewrite Hlive. reflexivity.
  - destruct (temporary_user_home_api_exits stuck_home_env unit (ret tt)
                (empty_world remotes)) as (w2 & Hlive & Hexit);
      [intros h e He; destruct e; try reflexivity; discriminate He|].
    rewrite (Hexit (Ok tt) w2 eq_refl).
    split; [reflexivity|]. cbn. exact Hlive.
Defined.

(** ** The build directory: [distclean] and [cmake] *)

Section BuildDirectoryFacts.

Context {fs : Type} {F : FileSystem fs} (laws : fs_laws F).

Lemma fs_call_log (e : disk_event) (op : fs -> result unit * fs) (d : disk fs) :
  d_log (snd (fs_call e op d)) = d_log d ++ [e].
Proof. unfold fs_call. destruct (op (d_fs d)). reflexivity. Qed.

Lemma print_exists (msg q : string) (d : disk fs) :
  path_exists q (snd (print msg d)) = path_exists q d.
Proof.
  unfold print, fs_call, path_exists. destruct (fs_print msg (d_fs d)) as [r s'] eqn:Hp.
  cbn [snd d_fs]. exact (print_keeps F laws msg q _ r s' Hp).
Qed.

Lemma rmtree_ok_gone (p : string) (d d' : disk fs) :
  rmtree p d = (Ok tt, d') -> path_exists p d' = false.
Proof.
  unfold rmtree, fs_call, path_exists. destruct (fs_rmtree p (d_fs d)) as [r s'] eqn:Hr.
  intros Heq. inversion Heq; subst. cbn [d_fs]. exact (rmtree_removes F laws p _ s' Hr).
Qed.

Lemma rmtree_ok_missing (p q : string) (d d' : disk fs) :
  rmtree p d = (Ok tt, d') -> path_exists q d = false -> path_exists q d' = false.
Proof.
  unfold rmtree, fs_call, path_exists. destruct (fs_rmtree p (d_fs d)) as [r s'] eqn:Hr.
  intros Heq. inversion Heq; subst. cbn [d_fs].
  exact (rmtree_makes_nothing F laws p q _ s' Hr).
Qed.

Lemma mkdir_ok_exists (p : string) (d d' : disk fs) :
  mkdir p d = (Ok tt, d') -> path_exists p d' = true.
Proof.
  unfold mkdir, fs_call, path_exists. destruct (fs_mkdir p (d_fs d)) as [r s'] eqn:Hm.
  intros Heq. inversion Heq; subst. cbn [d_fs]. exact (mkdir_makes F laws p _ s' Hm).
Qed.

(** One removal: a path that [os.path.exists] does not see is left alone;
    after a removal that returned the path is gone, and so is every path
    that was missing before. *)
Lemma remove_if_exists_missing (p msg : string) (d : disk fs) :
  path_exists p d = false -> remove_if_exists p msg d = (Ok tt, d).
Proof. intros Hp. unfold remove_if_exists. rewrite Hp. reflexivity. Qed.

Lemma remove_if_exists_ok (p msg : string) (d d' : disk fs) :
  remove_if_exists p msg d = (Ok tt, d') ->
  path_exists p d' = false /\
  forall q, path_exists q d = false -> path_exists q d' = false.
Proof.
  unfold remove_if_exists. destruct (path_exists p d) eqn:Hp.
  - unfold and_then. pose proof (fun q => print_exists msg q d) as Hpr.
    destruct (print msg d) as [[u|x] d1]; [|intros Heq; discriminate Heq].
    cbn [snd] in Hpr. intros Hrm. split; [exact (rmtree_ok_gone p d1 d' Hrm)|].
    intros q Hq. apply (rmtree_ok_missing p q d1 d' Hrm). rewrite Hpr. exact Hq.
  - intros Heq. inversion Heq; subst. auto.
Qed.

(** What one removal adds to the log: nothing, or the message and then,
    when the message could be printed, the removal. *)
Lemma remove_if_exists_log (p msg : string) (d : disk fs) :
  exists l, d_log (snd (remove_if_exists p msg d)) = d_log d ++ l /\
            (l = [] /\ path_exists p d = false \/
             path_exists p d = true /\ (l = [DPrint msg] \/ l = [DPrint msg; DRmtree p])).
Proof.
  unfold remove_if_exists. destruct (path_exists p d) eqn:Hp.
  - unfold and_then. pose proof (fs_call_log (DPrint msg) (fs_print msg) d) as Hl1.
    fold (print msg) in Hl1. destruct (print msg d) as [[u|x] d1]; cbn [snd] in *.
    + exists [DPrint msg; DRmtree p]. unfold rmtree. rewrite fs_call_log, Hl1, <- app_assoc.
      auto.
    + exists [DPrint msg]. auto.
  - exists []. cbn. rewrite app_nil_r. auto.
Qed.

Lemma distclean_ok (d d' : disk fs) :
  distclean d = (Ok tt, d') ->
  path_exists "build" d' = false /\ path_exists "test_package/build" d' = false.
Proof.
  unfold distclean, and_then.
  destruct (remove_if_exists "build" "Removing build" d) as [[[]|x] d1] eqn:H1;
    [|intros Heq; discriminate Heq].
  intros H2. destruct (remove_if_exists_ok _ _ _ _ H1) as [Hgone1 _].
  destruct (remove_if_exists_ok _ _ _ _ H2) as [Hgone2 Hkeep2]. auto.
Qed.

Lemma distclean_nothing (d : disk fs) :
  path_exists "build" d = false -> path_exists "test_package/build" d = false ->
  distclean d = (Ok tt, d).
Proof.
  intros Hb Ht. unfold distclean, and_then.
  rewrite (remove_if_exists_missing _ _ d Hb). apply remove_if_exists_missing. exact Ht.
Qed.

(** The state in which [cmake] runs its command, or the exception of
    [os.mkdir]. *)
Lemma cmake_cases (activate generator : string) (d : disk fs) :
  (exists d1,
     path_exists "build" d1 = true /\
     cmake activate generator d = run [activate] "build" (cmake_command generator) d1 /\
     d_log d1 = d_log d ++ (if path_exists "build" d then [] else [DMkdir "build"])) \/
  (exists x d1,
     path_exists "build" d = false /\
     mkdir "build" d = (Raise x, d1) /\
     cmake activate generator d = (Raise x, d1) /\
     d_log d1 = d_log d ++ [DMkdir "build"]).
Proof.
  unfold cmake, and_then. destruct (path_exists "build" d) eqn:Hb; cbn [negb].
  - left. exists d. rewrite app_nil_r. auto.
  - pose proof (fs_call_log (DMkdir "build") (fs_mkdir "build") d) as Hlog.
    fold (mkdir "build") in Hlog.
    destruct (mkdir "build" d) as [[[]|x] d1] eqn:Hm; cbn [snd] in Hlog.
    + left. exists d1. split; [exact (mkdir_ok_exists _ _ _ Hm)|]. auto.
    + right. exists x, d1. auto.
Qed.

End BuildDirectoryFacts.

(** The small file system obeys the laws. *)
Lemma node_at_filter (p : string) (keep : string -> bool) (s : nodes) :
  node_at p (List.filter (fun e => keep (fst e)) s) = if keep p then node_at p s else None.
Proof.
  induction s as [|[q n] s IH]; [destruct (keep p); reflexivity|].
  cbn [List.filter fst node_at]. destruct (String.eqb_spec q p) as [->|Hne].
  - destruct (keep p); cbn [node_at]; [rewrite String.eqb_refl; reflexivity|exact IH].
  - destruct (keep q); cbn [node_at]; [|exact IH].
    apply String.eqb_neq in Hne. rewrite Hne. exact IH.
Qed.

Lemma under_self (p : string) : under p p = true.
Proof. unfold under. rewrite String.eqb_refl. reflexivity. Qed.

Lemma node_rmtree_removes (p : string) (s s' : nodes) :
  node_rmtree p s = (Ok tt, s') -> node_exists p s' = false.
Proof.
  unfold node_rmtree. destruct (node_at p s) as [[| |b]|]; intros Heq; inversion Heq.
  unfold node_exists. rewrite (node_at_filter p (fun q => negb (under p q))), under_self.
  reflexivity.
Qed.

Lemma node_rmtree_makes_nothing (p q : string) (s s' : nodes) :
  node_rmtree p s = (Ok tt, s') -> node_exists q s = false -> node_exists q s' = false.
Proof.
  unfold node_rmtree. destruct (node_at p s) as [[| |b]|]; intros Heq; inversion Heq.
  unfold node_exists. rewrite (node_at_filter q (fun q => negb (under p q))).
  destruct (negb (under p q)); auto.
Qed.

Lemma node_mkdir_makes (p : string) (s s' : nodes) :
  node_mkdir p s = (Ok tt, s') -> node_exists p s' = true.
Proof.
  unfold node_mkdir. destruct (node_at p s); intros Heq; inversion Heq.
  unfold node_exists. cbn [node_at]. rewrite String.eqb_refl. reflexivity.
Qed.

Lemma node_fs_laws : fs_laws node_fs.
Proof.
  split.
  - intros msg q s r s' Heq. inversion Heq. reflexivity.
  - exact node_rmtree_removes.
  - exact node_rmtree_makes_nothing.
  - exact node_mkdir_makes.
Qed.

(** X15. On a file system that obeys the laws, [distclean] leaves alone
    what [os.path.exists] does not see: with neither [build] nor
    [test_package/build] in sight it returns having done and printed
    nothing.  When it returns, neither of the two is there any more, and a
    second [distclean] does nothing.  A removal is announced before it is
    made, and [build] comes first: when its removal raises (a regular file
    or a link named [build]), that exception is the outcome and
    [test_package/build] has not been touched. *)
Theorem distclean_cleans (fs : Type) (F : FileSystem fs) (d : disk fs) :
  fs_laws F ->
  (path_exists "build" d = false -> path_exists "test_package/build" d = false ->
   distclean d = (Ok tt, d)) /\
  (forall d', distclean d = (Ok tt, d') ->
     path_exists "build" d' = false /\ path_exists "test_package/build" d' = false /\
     distclean d' = (Ok tt, d')) /\
  (path_exists "build" d = true ->
   forall d1 x d2, print "Removing build" d = (Ok tt, d1) -> rmtree "build" d1 = (Raise x, d2) ->
     distclean d = (Raise x, d2) /\
     d_log d2 = d_log d ++ [DPrint "Removing build"; DRmtree "build"]) /\
  (path_exists "build" d = false ->
   exists l, d_log (snd (distclean d)) = d_log d ++ l /\
             ~ In (DRmtree "build") l /\ ~ In (DPrint "Removing build") l).
Proof.
  intros laws. split; [apply distclean_nothing|]. split; [|split].
  - intros d' Hrun. destruct (distclean_ok laws d d' Hrun) as [Hb Ht].
    split; [exact Hb|]. split; [exact Ht|]. apply distclean_nothing; assumption.
  - intros Hb d1 x d2 Hprint Hrm. unfold distclean, and_then, remove_if_exists.
    rewrite Hb. unfold and_then. rewrite Hprint, Hrm. split; [reflexivity|].
    pose proof (fs_call_log (DRmtree "build") (fs_rmtree "build") d1) as Hl2.
    fold (rmtree "build") in Hl2. rewrite Hrm in Hl2. cbn [snd] in Hl2.
    pose proof (fs_call_log (DPrint "Removing build") (fs_print "Removing build") d) as Hl1.
    fold (print "Removing build") in Hl1. rewrite Hprint in Hl1. cbn [snd] in Hl1.
    rewrite Hl2, Hl1, <- app_assoc. reflexivity.
  - intros Hb. unfold distclean, and_then.
    rewrite (remove_if_exists_missing _ _ d Hb).
    destruct (remove_if_exists_log "test_package/build" "Removing test_package/build" d)
      as (l & Hlog & Hl).
    exists l. split; [exact Hlog|].
    destruct Hl as [[-> _]|[_ [-> | ->]]]; split; cbn; intuition discriminate.
Qed.

(** On the small file system: a built project is cleaned, and a regular
    file named [build] makes [distclean] raise what [shutil.rmtree]
    raises. *)
Lemma distclean_cleans_witness :
  (path_exists "build" (snd (distclean (fresh_disk built_project))) = false /\
   d_fs (snd (distclean (fresh_disk built_project))) = [("src", NDir); ("conanfile.py", NFile)]) /\
  distclean (fresh_disk file_named_build) =
    (Raise (OtherError "NotADirectoryError"),
     {| d_fs := file_named_build;
        d_log := [DPrint "Removing build"; DRmtree "build"] |}).
Proof.
  split.
  - split; [|vm_compute; reflexivity].
    refine (proj1 (proj1 (proj2 (distclean_cleans nodes node_fs (fresh_disk built_project)
                                   node_fs_laws))
                     (snd (distclean (fresh_disk built_project))) _)).
    vm_compute. reflexivity.
  - refine (proj1 (proj1 (proj2 (proj2 (distclean_cleans nodes node_fs
                                          (fresh_disk file_named_build) node_fs_laws)))
                     eq_refl _ _ _ eq_refl eq_refl)).
Defined.

(** X16. On a file system that obeys the laws, [cmake] makes [build]
    exactly when [os.path.exists] does not see it.  Either the one command
    is then run, in [build] under the activation prefix, from a disk on
    which [build] exists, and its outcome is the outcome of [cmake]; or
    [os.mkdir] raised (a dangling link named [build] is not seen by
    [os.path.exists] and is in the way of [os.mkdir]), that exception is the
    outcome, and no command was run. *)
Theorem cmake_makes_build (fs : Type) (F : FileSystem fs) (activate generator : string)
    (d : disk fs) :
  fs_laws F ->
  (exists d1,
     path_exists "build" d1 = true /\
     cmake activate generator d = run [activate] "build" (cmake_command generator) d1 /\
     d_log d1 = d_log d ++ (if path_exists "build" d then [] else [DMkdir "build"])) \/
  (exists x d1,
     path_exists "build" d = false /\
     mkdir "build" d = (Raise x, d1) /\
     cmake activate generator d = (Raise x, d1) /\
     d_log d1 = d_log d ++ [DMkdir "build"]).
Proof. intros laws. apply cmake_cases. exact laws. Qed.

(** On the small file system, a project without a build directory: the
    directory is made and the command is run; the second case cannot be,
    since [os.mkdir] returns there. *)
Lemma cmake_makes_build_witness :
  exists d1,
    path_exists "build" d1 = true /\
    cmake "source activate.sh" "Unix Makefiles" (fresh_disk [("src", NDir)]) =
      run ["source activate.sh"] "build" (cmake_command "Unix Makefiles") d1 /\
    d_log d1 = [DMkdir "build"].
Proof.
  destruct (cmake_makes_build nodes node_fs "source activate.sh" "Unix Makefiles"
              (fresh_disk [("src", NDir)]) node_fs_laws)
    as [Hrun|(x & d1 & _ & Hmk & _)]; [exact Hrun|].
  vm_compute in Hmk. discriminate Hmk.
Defined.

(** A dangling link named [build]: [cmake] raises before any command. *)
Example cmake_on_dangling_link :
  cmake "source activate.sh" "Unix Makefiles" (fresh_disk dangling_build) =
    (Raise (OtherError "FileExistsError"),
     {| d_fs := dangling_build; d_log := [DMkdir "build"] |}).
Proof. vm_compute. reflexivity. Qed.

(** X17. On a file system that obeys the laws, [cmake] after a [distclean]
    that returned: the build directory is gone, so [cmake] starts by making
    it, whatever the disk held before; the command is run only when
    [os.mkdir] returned, and then from a disk on which [build] exists. *)
Theorem cmake_after_distclean (fs : Type) (F : FileSystem fs) (activate generator : string)
    (d d1 : disk fs) :
  fs_laws F ->
  distclean d = (Ok tt, d1) ->
  exists r d2,
    mkdir "build" d1 = (r, d2) /\
    d_log d2 = d_log d1 ++ [DMkdir "build"] /\
    match r with
    | Ok _ => path_exists "build" d2 = true /\
              cmake activate generator d1 =
                run [activate] "build" (cmake_command generator) d2
    | Raise x => cmake activate generator d1 = (Raise x, d2)
    end.
Proof.
  intros laws Hclean. destruct (distclean_ok laws d d1 Hclean) as [Hb _].
  pose proof (fs_call_log (DMkdir "build") (fs_mkdir "build") d1) as Hlog.
  fold (mkdir "build") in Hlog.
  destruct (mkdir "build" d1) as [r d2] eqn:Hm. cbn [snd] in Hlog.
  exists r, d2. split; [reflexivity|]. split; [exact Hlog|].
  unfold cmake, and_then. rewrite Hb. cbn [negb]. rewrite Hm.
  destruct r as [[]|x]; [|reflexivity].
  split; [exact (mkdir_ok_exists laws _ _ _ Hm)|reflexivity].
Qed.

(** On the small file system, after the cleaning of a built project:
    [os.mkdir] returns and the command is run with [build] in place. *)
Lemma cmake_after_distclean_witness :
  exists r d2,
    mkdir "build" (snd (distclean (fresh_disk built_project))) = (r, d2) /\
    d_log d2 = d_log (snd (distclean (fresh_disk built_project))) ++ [DMkdir "build"] /\
    match r with
    | Ok _ => path_exists "build" d2 = true /\
              cmake "source activate.sh" "Unix Makefiles"
                (snd (distclean (fresh_disk built_project))) =
                run ["source activate.sh"] "build" (cmake_command "Unix Makefiles") d2
    | Raise x => cmake "source activate.sh" "Unix Makefiles"
                   (snd (distclean (fresh_disk built_project))) = (Raise x, d2)
    end.
Proof.
  exact (cmake_after_distclean nodes node_fs "source activate.sh" "Unix Makefiles"
           (fresh_disk built_project) (snd (distclean (fresh_disk built_project)))
           node_fs_laws eq_refl).
Defined.

Example cmake_after_distclean_log :
  d_log (snd (cmake "source activate.sh" "Unix Makefiles"
                (snd (distclean (fresh_disk built_project))))) =
    [DPrint "Removing build"; DRmtree "build";
     DPrint "Removing test_package/build"; DRmtree "test_package/build";
     DMkdir "build";
     DRun ["source activate.sh"] "build" (cmake_command "Unix Makefiles")].
Proof. vm_compute. reflexivity. Qed.

(** ** [login] after [setup_remotes] *)

(** X18. The task [login] as the task runner runs it, [setup_remotes]
    first: on a registry with one remote per name and per URL in which no
    canonical name is on a foreign URL, when no call fails and the
    credential service accepts the password, the log is the calls of
    [setup_remotes] followed by the calls of [login] on the reconciled
    registry.  So the remotes authenticated are, in this order, the
    canonical Artifactory remotes and then the other Artifactory remotes,
    each only when it has no cached token. *)
Theorem login_task_after_setup (E : env) (username : option string) (w : world) :
  quiet E -> well_formed (w_remotes w) -> tidy remotes (w_remotes w) ->
  failing_status E username = false ->
  fst (login_task E username w) = Ok tt /\
  w_log (snd (login_task E username w)) =
    w_log w ++ setup_remotes_trace (w_remotes w) ++
    login_trace E username (remotes ++ others remotes (w_remotes w)).
Proof.
  intros Hq Hwf Htidy Hstatus. unfold login_task.
  destruct (setup_remotes_tidy E Hq w Hwf Htidy) as (w1 & Hsetup & Hreg).
  destruct (setup_remotes_follows E w) as (l1 & Hlog1 & _ & Hok1).
  rewrite Hsetup in Hlog1, Hok1. cbn [fst snd] in *.
  destruct (Hok1 tt eq_refl) as [-> _].
  erewrite bind_ok; [|exact Hsetup].
  pose proof (login_quiet E Hq username w1 Hstatus) as Hres.
  destruct (login_follows E username w1) as (l2 & Hlog2 & _ & Hok2).
  destruct (Hok2 tt Hres) as [-> _].
  split; [exact Hres|]. rewrite Hlog2, Hlog1, Hreg, app_assoc. reflexivity.
Qed.

Lemma login_task_after_setup_witness :
  List.filter is_authenticate
    (w_log (snd (login_task quiet_env None (empty_world mirror_registry)))) =
  [EAuthenticate (Some "kam") (Some "AKCp5") "conan-redirect";
   EAuthenticate (Some "kam") (Some "AKCp5") "conan-ext";
   EAuthenticate (Some "kam") (Some "AKCp5") "conan-local"].
Proof.
  rewrite (proj2 (login_task_after_setup quiet_env None (empty_world mirror_registry)
                    quiet_env_quiet mirror_registry_well_formed mirror_registry_tidy
                    eq_refl)).
  vm_compute. reflexivity.
Defined.
